(** * AD9106 arbitrary waveform generator tool: a shallow embedding of
      [tools/awg_ad9106.py] and the properties of its loading pipeline,
      command encoder and protocol session.

    Conventions of the embedding.
    - Python [int] is [Z]; list indices that cannot be negative are [nat].
    - Python [float] samples are exact rationals [Q]: arithmetic is the
      idealised (real-number) arithmetic of the specification, without
      binary64 rounding, overflow, infinities or NaN.  [==] on floats is
      [Qeq_bool], [<] is decided with [Qlt_le_dec].
    - [bytes]/[bytearray] are lists of 8-bit characters.
    - A method of the class is a function from the session to the session
      after the call paired with either the raised exception or the
      returned value: a Python exception keeps every mutation made before
      it was raised. *)

From Stdlib Require Import ZArith QArith Qround Qminmax Qabs.
From Stdlib Require Import List Ascii String Bool Arith Lia Lqa.
Import ListNotations.

Set Implicit Arguments.

(** ** Bytes *)

Definition bytes := list ascii.

Definition b (s : string) : bytes := list_ascii_of_string s.

Fixpoint bytes_eqb (x y : bytes) : bool :=
  match x, y with
  | [], [] => true
  | c :: x', d :: y' => Ascii.eqb c d && bytes_eqb x' y'
  | _, _ => false
  end.

Definition CR : ascii := ascii_of_nat 13.
Definition LF : ascii := ascii_of_nat 10.

(** [bytes.startswith] *)
Fixpoint startswith (line pre : bytes) : bool :=
  match pre, line with
  | [], _ => true
  | p :: pre', c :: line' => Ascii.eqb p c && startswith line' pre'
  | _ :: _, [] => false
  end.

(** Strict UTF-8 validity, the condition under which [bytes.decode()]
    returns instead of raising [UnicodeDecodeError]. *)
Definition byte_in (lo hi : nat) (c : ascii) : bool :=
  let n := nat_of_ascii c in (lo <=? n)%nat && (n <=? hi)%nat.

Fixpoint utf8_valid (l : bytes) : bool :=
  match l with
  | [] => true
  | c :: r =>
    if byte_in 0 127 c then utf8_valid r
    else if byte_in 194 223 c then
      match r with
      | c1 :: r1 => byte_in 128 191 c1 && utf8_valid r1
      | _ => false
      end
    else if byte_in 224 239 c then
      match r with
      | c1 :: c2 :: r2 =>
        (if byte_in 224 224 c then byte_in 160 191 c1
         else if byte_in 237 237 c then byte_in 128 159 c1
         else byte_in 128 191 c1)
        && byte_in 128 191 c2 && utf8_valid r2
      | _ => false
      end
    else if byte_in 240 244 c then
      match r with
      | c1 :: c2 :: c3 :: r3 =>
        (if byte_in 240 240 c then byte_in 144 191 c1
         else if byte_in 244 244 c then byte_in 128 143 c1
         else byte_in 128 191 c1)
        && byte_in 128 191 c2 && byte_in 128 191 c3 && utf8_valid r3
      | _ => false
      end
    else false
  end.

(** ** Exceptions and the method monad *)

Inductive PyError : Type :=
| TimeoutError (dataRead : bytes)   (* the message carries [str(dataRead)] *)
| IndexError
| ValueError
| TypeError
| ZeroDivisionError
| AttributeError
| UnicodeDecodeError.

Definition Result (A : Type) : Type := (PyError + A)%type.

Definition is_TimeoutError (A : Type) (r : Result A) : bool :=
  match r with
  | inl (TimeoutError _) => true
  | _ => false
  end.

(** ** The serial transport (collaborator [serial.Serial])

    The device side is a queue [rx] of bytes that arrive before the read
    timeout expires, and the bytes written so far, [tx].  A read of at most
    [n] bytes returns what is available, fewer than [n] on a timeout. *)

Record Serial : Type := mkSerial { rx : bytes; tx : bytes }.

Definition serial_read (max_bytes : nat) (t : Serial) : bytes * Serial :=
  (firstn max_bytes (rx t), mkSerial (skipn max_bytes (rx t)) (tx t)).

Definition serial_write (line : bytes) (t : Serial) : Serial :=
  mkSerial (rx t) (tx t ++ line).

(** ** Class constants *)

Definition EOL : bytes := [CR; LF].
Definition OVER_R : bytes := b "OVER".
Definition OVER_W : bytes := OVER_R ++ EOL.
Definition MAX_SRAM_SAMPLES : Z := 4096.
Definition MAX_SRAM_VALUE : Z := 511.
Definition AUTO_DETECT : Z := -1.
Definition CMD_XXX : bytes := b "XXX" ++ EOL.
Definition RSP_XXX_SIZE : nat := 1024.

(** ** The session object *)

Definition ChannelRange : Type := option (list Q).

Record AWG_AD9106 : Type := mkAWG {
  _ser : option Serial;
  _printWriteLog : bool;
  _generateWriteLog : bool;
  _writeLog : bytes;
  _needsFinalOver : bool;
  _columnRanges : list ChannelRange;
  _columnSelected : option Z;
  _columnWeights : list Q;
  _startingRowToRead : Z;
  _maxRowsToRead : Z;
  _maxRowsToWrite : Z;
  _hasCsvHeader : Z;
  _doesPrint : bool;
  _doScaleAuto : bool;
  _scaleMultiplier : Q
}.

Definition M (A : Type) : Type := AWG_AD9106 -> AWG_AD9106 * Result A.

Definition ret (A : Type) (a : A) : M A := fun s => (s, inr a).
Definition raise (A : Type) (e : PyError) : M A := fun s => (s, inl e).
Definition bind (A B : Type) (m : M A) (k : A -> M B) : M B :=
  fun s => match m s with
           | (s', inr a) => k a s'
           | (s', inl e) => (s', inl e)
           end.

Arguments ret {A} a _.
Arguments raise {A} e _.

Notation "x <- m ;; k" := (bind m (fun x => k))
  (at level 61, m at next level, right associativity).
Notation "m ;;; k" := (bind m (fun _ => k))
  (at level 61, right associativity).

(** Field assignments. *)
Definition set_ser (v : option Serial) (s : AWG_AD9106) : AWG_AD9106 :=
  mkAWG v (_printWriteLog s) (_generateWriteLog s) (_writeLog s)
        (_needsFinalOver s) (_columnRanges s) (_columnSelected s)
        (_columnWeights s) (_startingRowToRead s) (_maxRowsToRead s)
        (_maxRowsToWrite s) (_hasCsvHeader s) (_doesPrint s)
        (_doScaleAuto s) (_scaleMultiplier s).

Definition set_writeLog (v : bytes) (s : AWG_AD9106) : AWG_AD9106 :=
  mkAWG (_ser s) (_printWriteLog s) (_generateWriteLog s) v
        (_needsFinalOver s) (_columnRanges s) (_columnSelected s)
        (_columnWeights s) (_startingRowToRead s) (_maxRowsToRead s)
        (_maxRowsToWrite s) (_hasCsvHeader s) (_doesPrint s)
        (_doScaleAuto s) (_scaleMultiplier s).

Definition set_needsFinalOver (v : bool) (s : AWG_AD9106) : AWG_AD9106 :=
  mkAWG (_ser s) (_printWriteLog s) (_generateWriteLog s) (_writeLog s)
        v (_columnRanges s) (_columnSelected s)
        (_columnWeights s) (_startingRowToRead s) (_maxRowsToRead s)
        (_maxRowsToWrite s) (_hasCsvHeader s) (_doesPrint s)
        (_doScaleAuto s) (_scaleMultiplier s).

(** [__init__]: [portname is None] gives no transport; otherwise the
    opened port is [port]. *)
Definition init (port : option Serial) (generateWriteLog printWriteLog : bool)
  : AWG_AD9106 :=
  mkAWG port printWriteLog generateWriteLog [] false
        [] None [] 0%Z MAX_SRAM_SAMPLES MAX_SRAM_SAMPLES AUTO_DETECT
        true false 1%Q.

(** ** Protocol session *)

(** [_writeHandler]: console echo (which decodes the line), write log,
    device write, in this order. *)
Definition _writeHandler (line : bytes) : M unit :=
  fun s =>
    if _printWriteLog s && negb (utf8_valid line) then (s, inl UnicodeDecodeError)
    else
      let s1 := if _generateWriteLog s
                then set_writeLog (_writeLog s ++ line) s else s in
      match _ser s1 with
      | Some t => (set_ser (Some (serial_write line t)) s1, inr tt)
      | None => (s1, inr tt)
      end.

(** [read] *)
Definition read (max_bytes : nat) : M bytes :=
  fun s =>
    match _ser s with
    | Some t => let (d, t') := serial_read max_bytes t in
                (set_ser (Some t') s, inr d)
    | None => (s, inr [])
    end.

(** [sendOverWaitForOver] *)
Definition sendOverWaitForOver : M unit :=
  fun s =>
    let s0 := set_needsFinalOver false s in
    (_writeHandler OVER_W ;;;
     dataRead <- read (List.length OVER_R) ;;
     fun s' =>
       if negb (bytes_eqb dataRead OVER_R)
          && (match _ser s' with Some _ => true | None => false end)
       then (s', inl (TimeoutError dataRead))
       else (s', inr tt)) s0.

(** [needsFinalOver] *)
Definition needsFinalOver (s : AWG_AD9106) : bool := _needsFinalOver s.

(** [getWriteLog] *)
Definition getWriteLog (s : AWG_AD9106) : bytes := _writeLog s.

(** [bytes.split(b'\n')] after [replace(b'\r', b'\n')]: the pieces between
    separators, empty pieces included. *)
Fixpoint split_lines (cur : bytes) (l : bytes) : list bytes :=
  match l with
  | [] => [cur]
  | c :: r =>
    if Ascii.eqb c CR || Ascii.eqb c LF
    then cur :: split_lines [] r
    else split_lines (cur ++ [c]) r
  end.

(** [_convertCommandsToListOfBytes] on a list of byte strings ([str] items
    are taken after their UTF-8 encoding). *)
Definition _convertCommandsToListOfBytes (lines : list bytes) : list bytes :=
  flat_map
    (fun line =>
       map (fun tempItem => tempItem ++ EOL)
           (filter (fun tempItem => (0 <? List.length tempItem)%nat)
                   (split_lines [] line)))
    lines.

(** The body of the loop of [write] for one command. *)
Definition write_line (line : bytes) : M unit :=
  if bytes_eqb line OVER_W then sendOverWaitForOver
  else
    (fun s =>
       if startswith line (b "Z")
       then (set_needsFinalOver true s, inr tt) else (s, inr tt)) ;;;
    _writeHandler line ;;;
    (if bytes_eqb line CMD_XXX
     then rsp <- read RSP_XXX_SIZE ;;
          if utf8_valid rsp then ret tt else raise UnicodeDecodeError
     else ret tt).

Fixpoint write_loop (lines : list bytes) : M unit :=
  match lines with
  | [] => ret tt
  | line :: rest => write_line line ;;; write_loop rest
  end.

(** [write] *)
Definition write (lines : list bytes) : M unit :=
  write_loop (_convertCommandsToListOfBytes lines).

(** ** Load parameters *)

(** [setLoadParameters]: every argument is optional ([None] keeps the
    stored value). *)
Definition setLoadParameters
    (startingRowToRead maxRowsToWrite maxRowsToRead : option Z)
    (doScaleAuto : option bool) (scaleMultiplier : option Q)
    (columnRanges : option (list ChannelRange)) (columnSelected : option Z)
    (columnWeights : option (list Q)) (hasCsvHeader : option Z)
    (doesPrint : option bool) (s : AWG_AD9106) : AWG_AD9106 :=
  mkAWG (_ser s) (_printWriteLog s) (_generateWriteLog s) (_writeLog s)
        (_needsFinalOver s)
        (match columnRanges with Some v => v | None => _columnRanges s end)
        (match columnSelected with Some v => Some v | None => _columnSelected s end)
        (match columnWeights with Some v => v | None => _columnWeights s end)
        (match startingRowToRead with Some v => v | None => _startingRowToRead s end)
        (match maxRowsToRead with
         | Some v => if (v =? AUTO_DETECT)%Z then MAX_SRAM_SAMPLES
                     else Z.min v MAX_SRAM_SAMPLES
         | None => _maxRowsToRead s
         end)
        (match maxRowsToWrite with
         | Some v => if (v =? AUTO_DETECT)%Z then MAX_SRAM_SAMPLES
                     else Z.min v MAX_SRAM_SAMPLES
         | None => _maxRowsToWrite s
         end)
        (match hasCsvHeader with Some v => v | None => _hasCsvHeader s end)
        (match doesPrint with Some v => v | None => _doesPrint s end)
        (match doScaleAuto with Some v => v | None => _doScaleAuto s end)
        (match scaleMultiplier with Some v => v | None => _scaleMultiplier s end).

(** The sessions a program can hold: a fresh one, or one obtained from
    another by a method call. *)
Inductive reachable : AWG_AD9106 -> Prop :=
| reach_init : forall port g p, reachable (init port g p)
| reach_setLoadParameters :
    forall s a1 a2 a3 a4 a5 a6 a7 a8 a9 a10,
      reachable s ->
      reachable (setLoadParameters a1 a2 a3 a4 a5 a6 a7 a8 a9 a10 s)
| reach_write :
    forall s lines, reachable s -> reachable (fst (write lines s))
| reach_sendOverWaitForOver :
    forall s, reachable s -> reachable (fst (sendOverWaitForOver s))
| reach_read :
    forall s n, reachable s -> reachable (fst (read n s)).

(** ** Pure pipeline stages *)

Local Open Scope Q_scope.

(** What [float(string)] does with a CSV cell. *)
Inductive Cell : Type :=
| CellNumber (value : Q)   (* parses to a finite number *)
| CellNonFinite            (* parses to an infinity or a NaN *)
| CellInvalid.             (* [float] raises [ValueError] *)

(** [_safeConvertToFloat] *)
Definition _safeConvertToFloat (string : option Cell) : Q :=
  match string with
  | None => 0
  | Some (CellNumber value) => value
  | Some CellNonFinite => 0
  | Some CellInvalid => 0
  end.

(** [_copyListAndForceLength] *)
Definition _copyListAndForceLength (A : Type) (listInput : option (list A))
    (length : nat) (fillValue : A) : list A :=
  let listOutput := match listInput with Some l => l | None => [] end in
  let listOutput :=
    if (List.length listOutput <? length)%nat
    then listOutput ++ repeat fillValue (length - List.length listOutput)
    else listOutput in
  firstn length listOutput.

Definition DEFAULT_RANGE : Q * Q := (-(1), 1).

(** [_normalizeValue].  A range that is [None] or has fewer than two
    entries is the default one; the swap of a reversed range is done on
    the two entries read (the source swaps them in the list itself, after
    which the list stays ordered). *)
Definition _normalizeValue (value : Q) (channelRange : ChannelRange) : Q :=
  let '(r0, r1) := match channelRange with
                   | Some (r0 :: r1 :: _) => (r0, r1)
                   | _ => DEFAULT_RANGE
                   end in
  let '(r0, r1) := if Qlt_le_dec r1 r0 then (r1, r0) else (r0, r1) in
  let channelWidth := r1 - r0 in
  if Qeq_bool channelWidth 0 then 0
  else
    let value := value - r0 in
    let value := value * 2 / channelWidth in
    let value := value + fst DEFAULT_RANGE in
    Qmax (fst DEFAULT_RANGE) (Qmin (snd DEFAULT_RANGE) value).

(** [l[idx] = v] with Python's indexing: a negative index counts from the
    end, anything outside raises [IndexError] ([None] here). *)
Fixpoint list_set (A : Type) (l : list A) (k : nat) (v : A) : list A :=
  match l, k with
  | [], _ => []
  | _ :: r, O => v :: r
  | x :: r, S k' => x :: list_set r k' v
  end.

Definition py_setitem (A : Type) (l : list A) (idx : Z) (v : A)
  : option (list A) :=
  let n := Z.of_nat (List.length l) in
  let k := if (idx <? 0)%Z then (idx + n)%Z else idx in
  if ((0 <=? k) && (k <? n))%Z then Some (list_set l (Z.to_nat k) v) else None.

(** The inner loop of [_weightedAverageChannels] over [j]. *)
Fixpoint wa_inner (channels : list (list Q)) (columnWeights : list Q)
    (channelRanges : list ChannelRange) (i : nat) (js : list nat)
    (weightedAverage : Q) : Result Q :=
  match js with
  | [] => inr weightedAverage
  | j :: js' =>
    match nth_error columnWeights j with
    | None => inl IndexError
    | Some weight =>
      let value :=
        if (List.length channels <=? j)%nat then Some 0
        else match nth_error channels j with
             | Some channel => nth_error channel i
             | None => None
             end in
      match value, nth_error channelRanges j with
      | Some value, Some channelRange =>
        let value := _normalizeValue value channelRange in
        wa_inner channels columnWeights channelRanges i js'
                 (weightedAverage + weight * value)
      | _, _ => inl IndexError
      end
    end
  end.

(** The outer loop over [i]. *)
Fixpoint wa_outer (channels : list (list Q)) (columnWeights : list Q)
    (channelRanges : list ChannelRange) (weightTotal : Q) (idxs : list nat)
    (finalOutput : list Q) : Result (list Q) :=
  match idxs with
  | [] => inr finalOutput
  | i :: idxs' =>
    match wa_inner channels columnWeights channelRanges i
                   (seq 0 (List.length channels)) 0 with
    | inl e => inl e
    | inr weightedAverage =>
      let weightedAverage :=
        if Qlt_le_dec 0 weightTotal then weightedAverage / weightTotal
        else 0 in
      wa_outer channels columnWeights channelRanges weightTotal idxs'
               (finalOutput ++ [weightedAverage])
    end
  end.

(** The weight list [_weightedAverageChannels] builds for [n] channels. *)
Definition columnWeights_for (s : AWG_AD9106) (n : nat) : Result (list Q) :=
  match
    match _columnSelected s with
    | Some sel =>
      if (Z.of_nat n <=? sel)%Z then inl IndexError
      else match py_setitem (repeat 0 n) sel 1 with
           | Some w => inr w
           | None => inl IndexError
           end
    | None =>
      let columnWeights := _columnWeights s in
      inr (if (List.length columnWeights =? 0)%nat
           then _copyListAndForceLength (Some columnWeights) n 1
           else columnWeights)
    end
  with
  | inl e => inl e
  | inr columnWeights => inr (_copyListAndForceLength (Some columnWeights) n 0)
  end.

(** [_weightedAverageChannels] *)
Definition _weightedAverageChannels (s : AWG_AD9106)
    (channels : list (list Q)) (channelRanges : list ChannelRange)
  : Result (list Q) :=
  let maxChannelLength :=
    fold_left (fun m channel => Nat.max m (List.length channel)) channels O in
  match columnWeights_for s (List.length channels) with
  | inl e => inl e
  | inr columnWeights =>
    let weightTotal :=
      fold_left (fun t channelWeight => t + Qabs channelWeight) columnWeights 0 in
    let channelRanges :=
      _copyListAndForceLength (Some channelRanges) (List.length channels) None in
    wa_outer channels columnWeights channelRanges weightTotal
             (seq 0 maxChannelLength) []
  end.

(** [_padRowsToWrite] *)
Definition _padRowsToWrite (s : AWG_AD9106) (valuesToPad : list Q) : list Q :=
  if (Z.of_nat (List.length valuesToPad) <? _maxRowsToWrite s)%Z
  then
    let padValue := last valuesToPad 0 in
    valuesToPad ++
      repeat padValue
             (Z.to_nat (_maxRowsToWrite s - Z.of_nat (List.length valuesToPad)))
  else valuesToPad.

(** Python's [min] and [max] of a list: the first smallest (largest)
    element, [ValueError] on an empty list. *)
Definition py_min (l : list Q) : Result Q :=
  match l with
  | [] => inl ValueError
  | x :: r => inr (fold_left (fun m y => if Qlt_le_dec y m then y else m) r x)
  end.

Definition py_max (l : list Q) : Result Q :=
  match l with
  | [] => inl ValueError
  | x :: r => inr (fold_left (fun m y => if Qlt_le_dec m y then y else m) r x)
  end.

(** [_applyScaling] *)
Definition _applyScaling (s : AWG_AD9106) (normValues : list Q)
  : Result (list Q) :=
  match py_min normValues, py_max normValues with
  | inr minValue, inr maxValue =>
    let normValues :=
      if _doScaleAuto s then
        let autoMultiplier :=
          if negb (Qeq_bool minValue 0) && negb (Qeq_bool maxValue 0)
          then 1 / Qmax (Qabs minValue) (Qabs maxValue)
          else 1 in
        map (fun item => autoMultiplier * item) normValues
      else normValues in
    inr (map (fun item => _scaleMultiplier s * item) normValues)
  | inl e, _ => inl e
  | _, inl e => inl e
  end.

(** [round(x, 0)] on a float: to the nearest integer, ties to the even one. *)
Definition py_round (x : Q) : Z :=
  let f := Qfloor x in
  match Qcompare (x - inject_Z f) (1 # 2) with
  | Lt => f
  | Gt => (f + 1)%Z
  | Eq => if Z.even f then f else (f + 1)%Z
  end.

(** One iteration of the loop of [_normalizedValuesToRegisterValues]. *)
Definition registerValue_of (normValue : Q) : Z :=
  let registerValue :=
    py_round ((normValue + 1) * inject_Z MAX_SRAM_VALUE / 2) in
  Z.max 0 (Z.min MAX_SRAM_VALUE registerValue).

(** [_normalizedValuesToRegisterValues] *)
Definition _normalizedValuesToRegisterValues (normValues : list Q) : list Z :=
  fold_left (fun registerValues normValue =>
               registerValues ++ [registerValue_of normValue])
            normValues [].

(** ** Command encoder *)

Local Open Scope nat_scope.

Definition digit_char (d : nat) : ascii := ascii_of_nat (48 + d).

(** The decimal digits of a natural number, most significant first. *)
Fixpoint decimal_digits (fuel n : nat) (acc : bytes) : bytes :=
  match fuel with
  | O => acc
  | S fuel' =>
    let acc' := digit_char (n mod 10) :: acc in
    if n / 10 =? 0 then acc' else decimal_digits fuel' (n / 10) acc'
  end.

(** The format specification [0{width}d] of an f-string: sign-aware zero
    padding to at least [width] characters. *)
Definition format_0d (width : nat) (n : Z) : bytes :=
  let m := Z.abs_nat n in
  let digits := decimal_digits (S m) m [] in
  if (n <? 0)%Z
  then "-"%char :: repeat "0"%char (width - 1 - List.length digits) ++ digits
  else repeat "0"%char (width - List.length digits) ++ digits.

(** The loop of [convertNumbersToZCommands]: [n] is [len(valuesInput)],
    [i] the index of the head of [values], [z_command] the command being
    built and [z_commandsOutput] the commands finished so far. *)
Fixpoint z_loop (n i : nat) (values : list Z) (z_command : bytes)
    (z_commandsOutput : list bytes) : list bytes :=
  match values with
  | [] => z_commandsOutput
  | v :: rest =>
    let z_command :=
      if i mod 64 =? 0
      then b "Z" ++ format_0d 2 (Z.of_nat (i / 64))
      else z_command in
    let value := Z.max 0 (Z.min MAX_SRAM_VALUE v) in
    let z_command := z_command ++ format_0d 3 value in
    if (i mod 64 =? 63) || (i =? n - 1)
    then z_loop n (S i) rest (z_command ++ EOL)
                (z_commandsOutput ++ [z_command ++ EOL])
    else z_loop n (S i) rest z_command z_commandsOutput
  end.

(** [convertNumbersToZCommands] on integer register values.  The warning
    printed for more than 4096 values concatenates a [str] with an [int],
    which raises [TypeError] when printing is enabled. *)
Definition convertNumbersToZCommands (s : AWG_AD9106) (valuesInput : list Z)
  : Result (list bytes) :=
  if (Z.to_nat MAX_SRAM_SAMPLES <? List.length valuesInput) && _doesPrint s
  then inl TypeError
  else
    let valuesInput :=
      if Z.to_nat MAX_SRAM_SAMPLES <? List.length valuesInput
      then firstn (Z.to_nat MAX_SRAM_SAMPLES) valuesInput
      else valuesInput in
    inr (z_loop (List.length valuesInput) 0 valuesInput [] []).

(** The reading of the frames back into values, following the framing of
    the device protocol: tag [Z], a two-digit block index, three decimal
    digits per value, then the line terminator.  The block indices must
    count up from [k], every frame but the last must carry exactly 64
    values, and the last one between 1 and 64. *)
Definition digit_val (c : ascii) : option nat :=
  let n := nat_of_ascii c in
  if (48 <=? n) && (n <=? 57) then Some (n - 48) else None.

Fixpoint decode_values (l : bytes) : option (list Z) :=
  match l with
  | [c1; c2] => if Ascii.eqb c1 CR && Ascii.eqb c2 LF then Some [] else None
  | d1 :: d2 :: d3 :: r =>
    match digit_val d1, digit_val d2, digit_val d3, decode_values r with
    | Some x, Some y, Some z, Some vs =>
      Some (Z.of_nat (100 * x + 10 * y + z) :: vs)
    | _, _, _, _ => None
    end
  | _ => None
  end.

Definition decodeZCommand (frame : bytes) : option (nat * list Z) :=
  match frame with
  | tag :: d1 :: d2 :: payload =>
    if Ascii.eqb tag "Z"%char then
      match digit_val d1, digit_val d2, decode_values payload with
      | Some x, Some y, Some vs => Some (10 * x + y, vs)
      | _, _, _ => None
      end
    else None
  | _ => None
  end.

Definition block_size_ok (last : bool) (size : nat) : bool :=
  if last then (1 <=? size) && (size <=? 64) else size =? 64.

Fixpoint decodeZCommands (k : nat) (frames : list bytes) : option (list Z) :=
  match frames with
  | [] => Some []
  | frame :: rest =>
    match decodeZCommand frame, decodeZCommands (S k) rest with
    | Some (k', vs), Some tail =>
      if (k' =? k)
         && block_size_ok (match rest with [] => true | _ => false end)
                          (List.length vs)
      then Some (vs ++ tail) else None
    | _, _ => None
    end
  end.

(** The clamp the encoder applies to each value. *)
Definition clampRegister (v : Z) : Z := Z.max 0 (Z.min MAX_SRAM_VALUE v).

(** ** Channel extractors *)

Local Open Scope Z_scope.

(** One pass of [for i in range(0, maxColumns)] appending one cell to each
    column; [columns] holds [maxColumns] lists and [i] is the index of its
    head. *)
Fixpoint csv_append_row (i : nat) (row : list Cell) (columns : list (list Q))
  : list (list Q) :=
  match columns with
  | [] => []
  | column :: rest =>
    (column ++ [if (List.length row <=? i)%nat then 0%Q
                else _safeConvertToFloat (nth_error row i)])
      :: csv_append_row (S i) row rest
  end.

(** The reading loop of [loadNumbersFromCSV] over the rows of the reader. *)
Fixpoint csv_loop (s : AWG_AD9106) (rows : list (list Cell))
    (skipHeader : bool) (rowCount : Z) (columns : list (list Q))
  : list (list Q) :=
  match rows with
  | [] => columns
  | row :: rest =>
    if skipHeader then csv_loop s rest false rowCount columns
    else if rowCount <? _startingRowToRead s
    then csv_loop s rest skipHeader (rowCount + 1) columns
    else
      let rowCount := rowCount + 1 in
      if rowCount >? _startingRowToRead s + _maxRowsToRead s then columns
      else csv_loop s rest skipHeader rowCount (csv_append_row 0 row columns)
  end.

(** The first pass of [loadNumbersFromCSV]: the widest data row. *)
Fixpoint csv_maxColumns (rows : list (list Cell)) (skipHeader : bool)
    (maxColumns : nat) : nat :=
  match rows with
  | [] => maxColumns
  | row :: rest =>
    if skipHeader then csv_maxColumns rest false maxColumns
    else csv_maxColumns rest skipHeader (Nat.max maxColumns (List.length row))
  end.

(** The columns [loadNumbersFromCSV] extracts from the parsed rows;
    [sniffedHeader] is the answer of [csv.Sniffer().has_header]. *)
Definition csv_columns (s : AWG_AD9106) (sniffedHeader : bool)
    (rows : list (list Cell)) : list (list Q) :=
  let hasHeader :=
    if _hasCsvHeader s =? AUTO_DETECT then sniffedHeader
    else _hasCsvHeader s >? 0 in
  let maxColumns := csv_maxColumns rows hasHeader O in
  csv_loop s rows hasHeader 0 (repeat [] maxColumns).

(** The result monad of the loaders. *)
Definition rbind (A B : Type) (r : Result A) (k : A -> Result B) : Result B :=
  match r with
  | inl e => inl e
  | inr a => k a
  end.

(** The tail of both loaders. *)
Definition finish_load (s : AWG_AD9106) (channels : list (list Q))
    (channelRanges : list ChannelRange) : Result (list Z) :=
  rbind (_weightedAverageChannels s channels channelRanges) (fun finalOutput =>
  let finalOutput := _padRowsToWrite s finalOutput in
  rbind (_applyScaling s finalOutput) (fun finalOutput =>
  inr (_normalizedValuesToRegisterValues finalOutput))).

(** [loadNumbersFromCSV] on the rows the CSV reader yields. *)
Definition loadNumbersFromCSV (s : AWG_AD9106) (sniffedHeader : bool)
    (rows : list (list Cell)) : Result (list Z) :=
  finish_load s (csv_columns s sniffedHeader rows) (_columnRanges s).

(** [channels[j].append(v)] *)
Fixpoint append_at (j : nat) (v : Q) (channels : list (list Q))
  : option (list (list Q)) :=
  match channels, j with
  | [], _ => None
  | channel :: rest, O => Some ((channel ++ [v]) :: rest)
  | channel :: rest, S j' =>
    match append_at j' v rest with
    | Some rest' => Some (channel :: rest')
    | None => None
    end
  end.

Definition byte_value (c : ascii) : Z := Z.of_nat (nat_of_ascii c).

(** The divisor of the 8-bit branch, [MAX_SRAM_VALUE / 4.0]. *)
Definition DIVISOR : Q := inject_Z MAX_SRAM_VALUE / 4.

(** The value the 8-bit branch appends for a raw byte. *)
Definition wav8_sample (value : ascii) : Q :=
  (inject_Z (byte_value value) / DIVISOR - 1)%Q.

(** The loop of the 8-bit branch of [loadNumbersFromWAV]. *)
Fixpoint wav8_loop (s : AWG_AD9106) (numChannels : nat) (frameBytes : bytes)
    (j : nat) (rowCount : Z) (channels : list (list Q))
  : Result (list (list Q)) :=
  match frameBytes with
  | [] => inr channels
  | value :: rest =>
    if rowCount <? _startingRowToRead s
    then wav8_loop s numChannels rest j (rowCount + 1) channels
    else
      let rowCount := rowCount + 1 in
      if rowCount >? _startingRowToRead s + _maxRowsToRead s then inr channels
      else
        match append_at j (wav8_sample value) channels with
        | None => inl IndexError
        | Some channels =>
          if (numChannels =? 0)%nat then inl ZeroDivisionError
          else wav8_loop s numChannels rest ((j + 1) mod numChannels)%nat
                         rowCount channels
        end
  end.

(** The loop of [_loadNumbersFromMultiByteWAV]; [i] is the index of the
    head of [frameBytes]. *)
Fixpoint wavN_loop (s : AWG_AD9106) (sampleBytesWidth numChannels : nat)
    (zeroOffset : Z) (frameBytes : bytes) (i : nat) (currentValue : Z)
    (rowCount : Z) (channels : list (list Q)) : Result (list (list Q)) :=
  match frameBytes with
  | [] => inr channels
  | byte :: rest =>
    if ((sampleBytesWidth =? 0) || (numChannels =? 0))%nat
    then inl ZeroDivisionError
    else
      let channel := ((i / sampleBytesWidth) mod numChannels)%nat in
      let byteIndex := (i mod sampleBytesWidth)%nat in
      let isFirstByte := (byteIndex =? 0)%nat in
      let isLastByte := (byteIndex =? sampleBytesWidth - 1)%nat in
      let frameEnds := isLastByte && (channel =? numChannels - 1)%nat in
      if rowCount <? _startingRowToRead s
      then wavN_loop s sampleBytesWidth numChannels zeroOffset rest (S i)
                     currentValue (if frameEnds then rowCount + 1 else rowCount)
                     channels
      else
        let rowCount := if frameEnds then rowCount + 1 else rowCount in
        if rowCount >? _startingRowToRead s + _maxRowsToRead s
        then inr channels
        else if isFirstByte
        then wavN_loop s sampleBytesWidth numChannels zeroOffset rest (S i)
                       (Z.land (byte_value byte) 255) rowCount channels
        else if isLastByte
        then
          let currentValue :=
            Z.lor currentValue
                  (Z.shiftl (Z.land (byte_value byte) 127)
                            (8 * Z.of_nat byteIndex)) in
          let isNegative := negb (Z.land (byte_value byte) 128 =? 0) in
          let currentValue :=
            if isNegative then currentValue - zeroOffset else currentValue in
          match append_at channel (inject_Z currentValue / inject_Z zeroOffset)%Q
                          channels with
          | None => inl IndexError
          | Some channels =>
            wavN_loop s sampleBytesWidth numChannels zeroOffset rest (S i)
                      currentValue rowCount channels
          end
        else wavN_loop s sampleBytesWidth numChannels zeroOffset rest (S i)
                       (Z.lor currentValue
                              (Z.shiftl (byte_value byte)
                                        (8 * Z.of_nat byteIndex)))
                       rowCount channels
  end.

(** [_loadNumbersFromMultiByteWAV].  A zero width makes the shift count of
    [zeroOffset] negative, which raises [ValueError]. *)
Definition _loadNumbersFromMultiByteWAV (s : AWG_AD9106)
    (channels : list (list Q)) (frameBytes : bytes)
    (sampleBytesWidth numChannels : nat) : Result (list (list Q)) :=
  if (sampleBytesWidth =? 0)%nat then inl ValueError
  else
    let zeroOffset := Z.shiftl 1 (Z.of_nat sampleBytesWidth * 8 - 1) in
    wavN_loop s sampleBytesWidth numChannels zeroOffset frameBytes O 0 0
              channels.

(** [wave.readframes(nframes)] on the sample data of the file: at most
    [nframes] whole frames (everything for a negative count). *)
Definition readframes (data : bytes) (frameSize : nat) (nframes : Z) : bytes :=
  if nframes <? 0 then data
  else firstn (Z.to_nat nframes * frameSize) data.

(** The channels [loadNumbersFromWAV] extracts from an uncompressed file
    with the given parameters and sample data. *)
Definition wav_channels (s : AWG_AD9106) (numChannels sampleBytesWidth : nat)
    (data : bytes) : Result (list (list Q)) :=
  let frameBytes :=
    readframes data (numChannels * sampleBytesWidth)
               (MAX_SRAM_SAMPLES + _startingRowToRead s) in
  let channels := repeat [] numChannels in
  if (sampleBytesWidth =? 1)%nat
  then wav8_loop s numChannels frameBytes O 0 channels
  else _loadNumbersFromMultiByteWAV s channels frameBytes sampleBytesWidth
                                    numChannels.

(** [loadNumbersFromWAV] on an opened file.  For a compression type other
    than [NONE] the message of the [TypeError] reads [wav.compname], an
    attribute the reader object does not have, so the exception that
    leaves the method is [AttributeError]. *)
Definition loadNumbersFromWAV (s : AWG_AD9106) (uncompressed : bool)
    (numChannels sampleBytesWidth : nat) (data : bytes) : Result (list Z) :=
  if negb uncompressed then inl AttributeError
  else
    rbind (wav_channels s numChannels sampleBytesWidth data) (fun channels =>
    let channelRanges :=
      _copyListAndForceLength (Some []) (List.length channels)
                              (Some [-(1); 1]%Q) in
    finish_load s channels channelRanges).

(** ** The specification's formulas, written from its words *)

Local Open Scope Q_scope.

(** Combiner: the sum over the channels [j] of
    [weight[j] * normalize(channel[j][i], range[j])], a channel without an
    entry at [i] contributing [0.0], divided by the sum of the absolute
    weights ([0.0] when that sum is zero). *)
Definition spec_contribution (channels : list (list Q))
    (ranges : list ChannelRange) (weights : list Q) (i j : nat) : Q :=
  match nth_error (nth j channels []) i with
  | Some v => nth j weights 0 * _normalizeValue v (nth j ranges None)
  | None => 0
  end.

Definition spec_combine (channels : list (list Q))
    (ranges : list ChannelRange) (weights : list Q) : list Q :=
  let longest := fold_right Nat.max O (map (@List.length Q) channels) in
  let total := fold_left (fun t w => t + Qabs w) weights 0 in
  map (fun i =>
         let sum :=
           fold_left (fun acc j =>
                        acc + spec_contribution channels ranges weights i j)
                     (seq 0 (List.length channels)) 0 in
         if Qeq_bool total 0 then 0 else sum / total)
      (seq 0 longest).



(** Scaling: with [autoScale], [peak = max(|min|, |max|)] and every value
    times [1/peak] when [peak != 0]; then every value times [multiplier]. *)
Definition spec_peak (values : list Q) : Q :=
  match py_min values, py_max values with
  | inr lo, inr hi => Qmax (Qabs lo) (Qabs hi)
  | _, _ => 0
  end.

Definition spec_scale (values : list Q) (autoScale : bool) (multiplier : Q)
  : list Q :=
  let values :=
    if autoScale && negb (Qeq_bool (spec_peak values) 0)
    then map (fun v => (1 / spec_peak values) * v) values
    else values in
  map (fun v => multiplier * v) values.

(** Row window: entries with index below [startOffset] are skipped and
    reading stops once the index reaches [startOffset + maxRowsToRead]. *)
Fixpoint spec_window (A : Type) (startOffset maxRowsToRead index : Z)
    (rows : list A) : list A :=
  match rows with
  | [] => []
  | row :: rest =>
    if (index <? startOffset)%Z
    then spec_window startOffset maxRowsToRead (index + 1)%Z rest
    else if (index >=? startOffset + maxRowsToRead)%Z then []
    else row :: spec_window startOffset maxRowsToRead (index + 1)%Z rest
  end.

(** The whole frames of interleaved sample data, [frameSize] entries each
    (a trailing incomplete frame is dropped). *)
Fixpoint spec_frames (A : Type) (fuel frameSize : nat) (data : list A)
  : list (list A) :=
  match fuel with
  | O => []
  | S fuel' =>
    if (List.length data <? frameSize)%nat || (frameSize =? 0)%nat then []
    else firstn frameSize data
         :: spec_frames fuel' frameSize (skipn frameSize data)
  end.

(** Channel [j] of a list of rows or frames: entry [j] of each. *)
Definition spec_channel (A : Type) (rows : list (list A)) (d : A) (j : nat)
  : list A :=
  map (fun row => nth j row d) rows.

(** 8-bit samples: [(raw/127.5) - 1.0]. *)
Definition spec_wav8_sample (raw : ascii) : Q :=
  inject_Z (byte_value raw) / (1275 # 10) - 1.

(** The channels of an 8-bit source under the frame window. *)
Definition spec_wav8_channels (startOffset maxRowsToRead : Z)
    (numChannels : nat) (data : bytes) : list (list Q) :=
  let frames :=
    spec_window startOffset maxRowsToRead 0
                (spec_frames (List.length data) numChannels
                             (map wav8_sample data)) in
  map (spec_channel frames 0) (seq 0 numChannels).

(** The columns of a tabular source under the row window, for
    [maxColumns] columns. *)
Definition spec_csv_columns (startOffset maxRowsToRead : Z)
    (maxColumns : nat) (rows : list (list Cell)) : list (list Q) :=
  let windowed := spec_window startOffset maxRowsToRead 0 rows in
  map (fun j =>
         map (fun row => if (List.length row <=? j)%nat then 0
                         else _safeConvertToFloat (nth_error row j))
             windowed)
      (seq 0 maxColumns).

(** ** Auxiliary definitions of the proofs and example sessions *)

(** A session that owes an acknowledgment, on a device answering [NOPE]. *)
Definition awaiting_on_NOPE : AWG_AD9106 :=
  set_needsFinalOver true (init (Some (mkSerial (b "NOPE") [])) false false).

(** A dry-run session with the write log enabled. *)
Definition dry_run_session : AWG_AD9106 := init None true false.

(** The protocol methods leave the row limits alone. *)
Definition keeps_limits (s s' : AWG_AD9106) : Prop :=
  _maxRowsToRead s' = _maxRowsToRead s /\
  _maxRowsToWrite s' = _maxRowsToWrite s.

(** The two-digit block index and the three-digit value are read back by
    [digit_val]; checked by running the formatter on every value of the
    range. *)
Definition reads_back2 (k : nat) : bool :=
  match format_0d 2 (Z.of_nat k) with
  | [d1; d2] =>
    match digit_val d1, digit_val d2 with
    | Some x, Some y => (10 * x + y =? k)%nat
    | _, _ => false
    end
  | _ => false
  end.

Definition reads_back3 (v : nat) : bool :=
  match format_0d 3 (Z.of_nat v) with
  | [d1; d2; d3] =>
    match digit_val d1, digit_val d2, digit_val d3 with
    | Some x, Some y, Some z => (100 * x + 10 * y + z =? v)%nat
    | _, _, _ => false
    end
  | _ => false
  end.

Definition in_register_range (v : Z) : Prop := (0 <= v <= 511)%Z.

(** The cell of column [j] that a row contributes. *)
Definition csv_cell (j : nat) (row : list Cell) : Q :=
  if (List.length row <=? j)%nat then 0
  else _safeConvertToFloat (nth_error row j).

(** ** The command-line program *)

(** What can end the program: an exception of the class, a file of
    commands that cannot be opened, or [sys.exit]. *)
Inductive MainError : Type :=
| Raised (e : PyError)
| FileNotFoundError
| SystemExit (code : Z).

Definition MainM (A : Type) : Type :=
  AWG_AD9106 -> AWG_AD9106 * (MainError + A).

Definition main_bind (A B : Type) (m : MainM A) (k : A -> MainM B) : MainM B :=
  fun s => match m s with
           | (s', inr a) => k a s'
           | (s', inl e) => (s', inl e)
           end.

(** A method of the device called from the program. *)
Definition call (A : Type) (m : M A) : MainM A :=
  fun s => match m s with
           | (s', inr a) => (s', inr a)
           | (s', inl e) => (s', inl (Raised e))
           end.

(** A loader or the encoder called from the program: they read the
    parameters of the device.  The one thing a load writes is the order of
    the two bounds of a reversed range, inside the list of the range, and
    [_normalizeValue] returns the same for both orders. *)
Definition call_pure (A : Type) (f : AWG_AD9106 -> Result A) : MainM A :=
  fun s => match f s with
           | inr a => (s, inr a)
           | inl e => (s, inl (Raised e))
           end.

(** [_execute_commands_list]: [files] gives the content of the file of a
    name, when it can be opened.  A command that is a [str] reaches
    [write] as a single item. *)
Fixpoint _execute_commands_list (files : bytes -> option bytes)
    (commands : list bytes) : MainM unit :=
  match commands with
  | [] => fun s => (s, inr tt)
  | command :: rest =>
    match command with
    | [] => _execute_commands_list files rest
    | c0 :: filename =>
      if negb (Ascii.eqb c0 "@"%char)
      then main_bind (call (write [command]))
                     (fun _ => _execute_commands_list files rest)
      else match files filename with
           | Some content =>
             main_bind (call (write [content]))
                       (fun _ => _execute_commands_list files rest)
           | None => fun s => (s, inl FileNotFoundError)
           end
    end
  end.

(** The data source named on the command line, with what the file holds. *)
Inductive Source : Type :=
| NoSource
| CsvSource (sniffedHeader : bool) (rows : list (list Cell))
| WavSource (uncompressed : bool) (numChannels sampleBytesWidth : nat)
            (data : bytes).

(** The arguments [_main] uses, as [_parse_command_line] returns them. *)
Record Args : Type := mkArgs {
  port : option Serial;
  out_file : bool;
  display_commands : bool;
  pre_cmd : list bytes;
  post_cmd : list bytes;
  source : Source;
  column_selected : option Z;
  csv_header : Z;
  scale_auto : bool;
  scale_multiplier : Q;
  arb_first_read_index : option Z;
  arb_read_count : option Z;
  arb_write_count : option Z;
  column_weights : list Q;
  column_range : list ChannelRange;
  no_messages : bool
}.

(** The device [_main] builds and configures. *)
Definition main_device (args : Args) : AWG_AD9106 :=
  setLoadParameters (arb_first_read_index args) (arb_write_count args)
                    (arb_read_count args) (Some (scale_auto args))
                    (Some (scale_multiplier args)) (Some (column_range args))
                    (column_selected args) (Some (column_weights args))
                    (Some (csv_header args)) (Some (negb (no_messages args)))
                    (init (port args) (out_file args) (display_commands args)).

(** [if device.needsFinalOver(): device.sendOverWaitForOver()] *)
Definition send_over_if_needed : MainM unit :=
  fun s => if needsFinalOver s then call sendOverWaitForOver s
           else (s, inr tt).

(** The loading step of [_main]. *)
Definition main_load (src : Source) : MainM unit :=
  match
    match src with
    | NoSource => None
    | CsvSource sniffedHeader rows =>
      Some (fun s => loadNumbersFromCSV s sniffedHeader rows)
    | WavSource uncompressed numChannels sampleBytesWidth data =>
      Some (fun s => loadNumbersFromWAV s uncompressed numChannels
                                        sampleBytesWidth data)
    end
  with
  | None => fun s => (s, inr tt)
  | Some load =>
    main_bind (call_pure load) (fun values =>
    main_bind (call_pure (fun s => convertNumbersToZCommands s values))
              (fun z_commands =>
    main_bind (call (write z_commands)) (fun _ =>
    send_over_if_needed)))
  end.

(** [_main] after the parsing of the command line: the final device and
    how the program ended.  The out-file, when requested, receives
    [getWriteLog] of the final device. *)
Definition _main (files : bytes -> option bytes) (args : Args)
  : AWG_AD9106 * (MainError + unit) :=
  main_bind (_execute_commands_list files (pre_cmd args)) (fun _ =>
  main_bind send_over_if_needed (fun _ =>
  main_bind (main_load (source args)) (fun _ =>
  main_bind (_execute_commands_list files (post_cmd args)) (fun _ =>
  send_over_if_needed))))
  (main_device args).

(** [int(x)] of a float: truncation toward zero. *)
Definition py_int (x : Q) : Z := Z.quot (Qnum x) (Z.pos (Qden x)).

(** The second loop of the conversion of [--column-range] in
    [_parse_command_line]: each entry is [(COLUMN_NUM, RANGE_LOW,
    RANGE_HIGH)]. *)
Definition column_range_assign (column_ranges : list ChannelRange)
    (entries : list (Q * Q * Q)) : option (list ChannelRange) :=
  fold_left (fun table entry =>
               match table with
               | None => None
               | Some column_ranges =>
                 let '(index, low, high) := entry in
                 py_setitem column_ranges (py_int index) (Some [low; high])
               end)
            entries (Some column_ranges).

(** The conversion of [--column-range]: a negative column number exits
    with status 1; otherwise the table has one slot per column up to the
    largest number given. *)
Definition column_range_table (entries : list (Q * Q * Q))
  : MainError + list ChannelRange :=
  match entries with
  | [] => inr []
  | _ :: _ =>
    if existsb (fun entry => let '(index, _, _) := entry in
                             if Qlt_le_dec index 0 then true else false)
               entries
    then inl (SystemExit 1)
    else
      let max_index :=
        fold_left (fun max_index entry =>
                     let '(index, _, _) := entry in
                     Z.max (py_int index) max_index)
                  entries (-1)%Z in
      match column_range_assign (repeat None (Z.to_nat (max_index + 1)))
                                entries with
      | Some column_ranges => inr column_ranges
      | None => inl (Raised IndexError)
      end
  end.

(** The range the table must hold for a column: that of the last entry
    naming the column, if any. *)
Definition last_range_for (column : Z) (entries : list (Q * Q * Q))
  : ChannelRange :=
  fold_left (fun found entry =>
               let '(index, low, high) := entry in
               if (py_int index =? column)%Z then Some [low; high] else found)
            entries None.

(** The value of a 16-bit sample as the multi-byte loop computes it from
    its low and high byte. *)
Definition sample16_code (lo hi : ascii) : Z :=
  let currentValue := Z.land (byte_value lo) 255 in
  let currentValue :=
    Z.lor currentValue
          (Z.shiftl (Z.land (byte_value hi) 127) (8 * Z.of_nat 1)) in
  if negb (Z.land (byte_value hi) 128 =? 0)%Z
  then (currentValue - 32768)%Z else currentValue.

(** A 16-bit little-endian two's complement integer. *)
Definition signed16 (lo hi : ascii) : Z :=
  (byte_value lo + 256 * byte_value hi
   - (if (128 <=? byte_value hi)%Z then 65536 else 0))%Z.

Definition all_bytes : list ascii := map ascii_of_nat (seq 0 256).

(** The bytes of 16-bit mono frames. *)
Definition frames16_bytes (frames : list (ascii * ascii)) : bytes :=
  flat_map (fun frame => [fst frame; snd frame]) frames.

(** A session with the write log enabled, on a device that answers one
    acknowledgment. *)
Definition acking_session : AWG_AD9106 :=
  init (Some (mkSerial (b "OVER") [])) true false.

(** ** Command lines and the acknowledgment state machine *)

Definition is_separator (c : ascii) : bool := Ascii.eqb c CR || Ascii.eqb c LF.

(** A command as the device receives it: a non-empty body without line
    separators, closed by the terminator. *)
Definition command_line (cmd : bytes) : Prop :=
  exists body,
    cmd = body ++ EOL /\ body <> [] /\
    forallb (fun c => negb (is_separator c)) body = true.

(** The pending-acknowledgment flag after one command: cleared by the
    acknowledgment request, set by a data-load command, kept otherwise. *)
Definition ack_step (flag : bool) (line : bytes) : bool :=
  if bytes_eqb line OVER_W then false
  else if startswith line (b "Z") then true
  else flag.

(** A data-load frame: the tag, decimal digits, the terminator. *)
Definition z_frame (frame : bytes) : Prop :=
  exists digits,
    frame = "Z"%char :: digits ++ EOL /\
    forallb (fun c => match digit_val c with Some _ => true | None => false end)
            digits = true.

(** No file of commands can be opened. *)
Definition no_files : bytes -> option bytes := fun _ => None.

(** A dry run loading a one-column table with an out-file. *)
Definition dry_run_args : Args :=
  mkArgs None true false [] [] (CsvSource false [[CellNumber 1]; [CellNumber 0]])
         (Some 0%Z) 0%Z false 1 None None (Some 2%Z) [] [] true.

(** The items [_execute_commands_list] hands to [write], in order: a
    command itself, or the content of the file it names after [@]; empty
    commands are skipped and a file that cannot be opened ends the list. *)
Fixpoint commands_to_write (files : bytes -> option bytes)
    (commands : list bytes) : option (list bytes) :=
  match commands with
  | [] => Some []
  | [] :: rest => commands_to_write files rest
  | (c0 :: filename) :: rest =>
    match (if negb (Ascii.eqb c0 "@"%char) then Some (c0 :: filename)
           else files filename),
          commands_to_write files rest with
    | Some item, Some items => Some (item :: items)
    | _, _ => None
    end
  end.

(** What one command of [write] sends and how it moves the flag. *)
Definition line_effect (line : bytes) (s s' : AWG_AD9106) (r : Result unit)
    (sent : bytes) : Prop :=
  _writeLog s' = _writeLog s ++ (if _generateWriteLog s then sent else []) /\
  _generateWriteLog s' = _generateWriteLog s /\
  _printWriteLog s' = _printWriteLog s /\
  match _ser s, _ser s' with
  | Some t, Some t' => tx t' = tx t ++ sent
  | None, None => True
  | _, _ => False
  end /\
  (r = inr tt ->
   sent = line /\ _needsFinalOver s' = ack_step (_needsFinalOver s) line).

(** * Properties *)

(** ** Protocol session *)

Section Session.

Local Open Scope Z_scope.

Lemma bytes_eqb_eq (x y : bytes) : bytes_eqb x y = true <-> x = y.
Proof.
  revert y; induction x as [|c x IH]; intros [|d y]; simpl;
    try (split; [discriminate|discriminate]); try tauto.
  rewrite andb_true_iff, Ascii.eqb_eq, IH.
  split; [intros [H1 H2]; subst; reflexivity | intros H; inversion H; auto].
Qed.

Lemma bytes_eqb_neq (x y : bytes) : bytes_eqb x y = false <-> x <> y.
Proof.
  rewrite <- bytes_eqb_eq. destruct (bytes_eqb x y); intuition congruence.
Qed.

Lemma utf8_valid_OVER_W : utf8_valid OVER_W = true.
Proof. reflexivity. Qed.

(** What [_writeHandler] does to each field. *)
Lemma writeHandler_fields (line : bytes) (s : AWG_AD9106) :
  let r := _writeHandler line s in
  _printWriteLog (fst r) = _printWriteLog s /\
  _generateWriteLog (fst r) = _generateWriteLog s /\
  _needsFinalOver (fst r) = _needsFinalOver s /\
  _maxRowsToRead (fst r) = _maxRowsToRead s /\
  _maxRowsToWrite (fst r) = _maxRowsToWrite s /\
  (_ser s = None -> _ser (fst r) = None) /\
  is_TimeoutError (snd r) = false.
Proof.
  unfold _writeHandler.
  destruct (_printWriteLog s && negb (utf8_valid line)); simpl; [tauto|].
  destruct (_generateWriteLog s) eqn:Eg; simpl;
    destruct (_ser s) eqn:Es; simpl;
    repeat split; intros; try reflexivity; congruence.
Qed.

Lemma writeHandler_ok (line : bytes) (s : AWG_AD9106) :
  _printWriteLog s && negb (utf8_valid line) = false ->
  snd (_writeHandler line s) = inr tt /\
  _writeLog (fst (_writeHandler line s))
  = _writeLog s ++ (if _generateWriteLog s then line else []) /\
  _ser (fst (_writeHandler line s))
  = option_map (serial_write line) (_ser s).
Proof.
  unfold _writeHandler. intros ->.
  destruct (_generateWriteLog s) eqn:Eg; simpl;
    destruct (_ser s) eqn:Es; simpl;
    rewrite ?Eg, ?Es, ?app_nil_r; auto.
Qed.

Lemma writeHandler_fails (line : bytes) (s : AWG_AD9106) :
  _printWriteLog s && negb (utf8_valid line) = true ->
  _writeHandler line s = (s, inl UnicodeDecodeError).
Proof. unfold _writeHandler. intros ->. reflexivity. Qed.

(** The acknowledgment round trip over a transport, step by step. *)
Lemma sendOverWaitForOver_transport (s : AWG_AD9106) (t : Serial) :
  _ser s = Some t ->
  let got := firstn (List.length OVER_R) (rx t) in
  let t' := mkSerial (skipn (List.length OVER_R) (rx t)) (tx t ++ OVER_W) in
  let s' := set_ser (Some t')
              (if _generateWriteLog s
               then set_writeLog (_writeLog s ++ OVER_W)
                                 (set_needsFinalOver false s)
               else set_needsFinalOver false s) in
  sendOverWaitForOver s
  = (s', if bytes_eqb got OVER_R then inr tt else inl (TimeoutError got)).
Proof.
  intros Hser. unfold sendOverWaitForOver, bind, _writeHandler, read.
  cbn [_printWriteLog set_needsFinalOver _generateWriteLog].
  rewrite utf8_valid_OVER_W, andb_false_r.
  destruct (_generateWriteLog s);
    cbn -[firstn skipn OVER_R OVER_W bytes_eqb];
    repeat (rewrite Hser; cbn -[firstn skipn OVER_R OVER_W bytes_eqb]);
    destruct (bytes_eqb _ OVER_R); reflexivity.
Qed.

(** The acknowledgment round trip without a transport. *)
Lemma sendOverWaitForOver_no_transport (s : AWG_AD9106) :
  _ser s = None ->
  sendOverWaitForOver s
  = (if _generateWriteLog s
     then set_writeLog (_writeLog s ++ OVER_W) (set_needsFinalOver false s)
     else set_needsFinalOver false s, inr tt).
Proof.
  intros Hser. unfold sendOverWaitForOver, bind, _writeHandler, read.
  cbn [_printWriteLog set_needsFinalOver _generateWriteLog].
  rewrite utf8_valid_OVER_W, andb_false_r.
  destruct (_generateWriteLog s);
    cbn -[firstn skipn OVER_R OVER_W bytes_eqb];
    repeat (rewrite Hser; cbn -[firstn skipn OVER_R OVER_W bytes_eqb]);
    rewrite ?andb_false_r; reflexivity.
Qed.

(** C1, as the code has it: with a transport, [sendOverWaitForOver] clears
    the pending-acknowledgment flag before it writes the request, so
    [needsFinalOver()] is false after the call whatever the device
    answers; the call returns when the four bytes read are exactly [OVER]
    and raises [TimeoutError] carrying the bytes actually received (fewer
    than four on a timeout) otherwise. *)
Theorem sendOverWaitForOver_round_trip (s : AWG_AD9106) (t : Serial) :
  _ser s = Some t ->
  let got := firstn 4 (rx t) in
  let r := sendOverWaitForOver s in
  needsFinalOver (fst r) = false /\
  (got = OVER_R -> snd r = inr tt) /\
  (got <> OVER_R -> snd r = inl (TimeoutError got)).
Proof.
  intros Hser got r. subst r.
  rewrite (sendOverWaitForOver_transport s Hser).
  change (List.length OVER_R) with 4%nat. fold got.
  split; [destruct (_generateWriteLog s); reflexivity|].
  split; intros H; cbn [snd].
  - apply bytes_eqb_eq in H. rewrite H. reflexivity.
  - apply bytes_eqb_neq in H. rewrite H. reflexivity.
Qed.

Lemma sendOverWaitForOver_round_trip_witness :
  needsFinalOver (fst (sendOverWaitForOver awaiting_on_NOPE)) = false /\
  snd (sendOverWaitForOver awaiting_on_NOPE) = inl (TimeoutError (b "NOPE")).
Proof.
  pose proof (@sendOverWaitForOver_round_trip awaiting_on_NOPE
                (mkSerial (b "NOPE") []) eq_refl) as H.
  cbv zeta in H. destruct H as (H1 & _ & H3).
  split; [exact H1 | apply H3; discriminate].
Defined.

(** C1 as stated fails: after a failed round trip the session is not left
    awaiting an acknowledgment. *)
Lemma sendOverWaitForOver_failure_clears_flag :
  needsFinalOver awaiting_on_NOPE = true /\
  snd (sendOverWaitForOver awaiting_on_NOPE) = inl (TimeoutError (b "NOPE")) /\
  needsFinalOver (fst (sendOverWaitForOver awaiting_on_NOPE)) <> true.
Proof. repeat split; vm_compute; discriminate. Qed.

(** One command of [write] without a transport. *)
Lemma write_line_no_transport (line : bytes) (s : AWG_AD9106) :
  _ser s = None ->
  let r := write_line line s in
  _ser (fst r) = None /\
  _printWriteLog (fst r) = _printWriteLog s /\
  _generateWriteLog (fst r) = _generateWriteLog s /\
  is_TimeoutError (snd r) = false /\
  (snd r = inr tt ->
   _writeLog (fst r)
   = _writeLog s ++ (if _generateWriteLog s then line else [])) /\
  (_printWriteLog s = false -> snd r = inr tt).
Proof.
  intros Hser. unfold write_line.
  destruct (bytes_eqb line OVER_W) eqn:Eover.
  - apply bytes_eqb_eq in Eover. subst line.
    rewrite (sendOverWaitForOver_no_transport s Hser).
    destruct (_generateWriteLog s) eqn:Eg; cbn -[OVER_W];
      rewrite ?Eg, ?app_nil_r; auto 10.
  - unfold bind, _writeHandler, read, ret, raise.
    destruct (startswith line (b "Z"));
      destruct (_printWriteLog s) eqn:Ep;
      destruct (utf8_valid line) eqn:Eu;
      destruct (_generateWriteLog s) eqn:Eg;
      destruct (bytes_eqb line CMD_XXX);
      cbn -[OVER_W CMD_XXX]; rewrite ?Ep, ?Eu, ?Eg;
      cbn -[OVER_W CMD_XXX]; rewrite ?Hser;
      cbn -[OVER_W CMD_XXX]; rewrite ?Hser;
      cbn -[OVER_W CMD_XXX]; rewrite ?app_nil_r;
      repeat split; intros; auto; try discriminate.
Qed.

Lemma write_loop_no_transport (cmds : list bytes) :
  forall s : AWG_AD9106,
  _ser s = None ->
  let r := write_loop cmds s in
  _ser (fst r) = None /\
  is_TimeoutError (snd r) = false /\
  (snd r = inr tt ->
   _writeLog (fst r)
   = _writeLog s ++ (if _generateWriteLog s then List.concat cmds else [])) /\
  (_printWriteLog s = false -> snd r = inr tt).
Proof.
  induction cmds as [|line rest IH]; intros s Hser.
  - cbn. destruct (_generateWriteLog s); rewrite app_nil_r; auto.
  - cbn [write_loop]. unfold bind.
    destruct (write_line_no_transport line s Hser)
      as (H1 & Hp & Hg & H3 & H4 & H5).
    destruct (write_line line s) as [s1 [e|[]]] eqn:E1; cbn [fst snd] in *.
    + repeat split; auto; discriminate.
    + destruct (IH s1 H1) as (I1 & I2 & I3 & I4).
      repeat split; auto.
      * intros Hok. rewrite (I3 Hok), (H4 eq_refl), Hg.
        destruct (_generateWriteLog s); cbn [List.concat];
          rewrite ?app_nil_r, ?app_assoc; reflexivity.
      * intros Hpf. apply I4. congruence.
Qed.

(** C9: without a transport ([portname is None]) a read returns empty
    bytes, and no command write and no acknowledgment round trip raises
    [TimeoutError] or acquires a transport; the round trip always returns
    although the token does not match, [write] returns unless the
    console echo is enabled and fails to decode a command, and the write
    log grows by exactly the encoded commands when the log is enabled,
    the bytes [_writeHandler] hands to a transport when there is one. *)
Theorem no_transport_dry_run (s : AWG_AD9106) :
  _ser s = None ->
  (forall max_bytes, read max_bytes s = (s, inr [])) /\
  (forall lines,
     let r := write lines s in
     is_TimeoutError (snd r) = false /\
     _ser (fst r) = None /\
     (_printWriteLog s = false -> snd r = inr tt) /\
     (snd r = inr tt ->
      getWriteLog (fst r)
      = getWriteLog s ++
        (if _generateWriteLog s
         then List.concat (_convertCommandsToListOfBytes lines) else []))) /\
  (let r := sendOverWaitForOver s in
   snd r = inr tt /\
   _ser (fst r) = None /\
   getWriteLog (fst r)
   = getWriteLog s ++ (if _generateWriteLog s then OVER_W else [])) /\
  (forall line t,
     let r := _writeHandler line s in
     let rt := _writeHandler line (set_ser (Some t) s) in
     snd rt = snd r /\
     getWriteLog (fst rt) = getWriteLog (fst r) /\
     (snd r = inr tt ->
      _ser (fst r) = None /\
      _ser (fst rt) = Some (serial_write line t) /\
      getWriteLog (fst r)
      = getWriteLog s ++ (if _generateWriteLog s then line else []))).
Proof.
  intros Hser. unfold getWriteLog. split; [|split; [|split]].
  - intros max_bytes. unfold read. rewrite Hser. reflexivity.
  - intros lines. cbv zeta. unfold write.
    destruct (write_loop_no_transport (_convertCommandsToListOfBytes lines)
                                      s Hser) as (H1 & H2 & H3 & H4).
    auto.
  - rewrite (sendOverWaitForOver_no_transport s Hser).
    destruct (_generateWriteLog s) eqn:Eg; cbn -[OVER_W];
      rewrite ?Hser, ?app_nil_r; auto.
  - intros line t. cbv zeta. unfold _writeHandler.
    cbn [_printWriteLog _generateWriteLog _writeLog set_ser].
    destruct (_printWriteLog s && negb (utf8_valid line)); cbn [fst snd].
    + repeat split; intros; discriminate.
    + destruct (_generateWriteLog s) eqn:Eg; cbn; rewrite ?Hser; cbn;
        rewrite ?Hser, ?app_nil_r; auto.
Qed.

Lemma no_transport_dry_run_witness :
  snd (write [b "Z00256"; b "OVER"] dry_run_session) = inr tt /\
  getWriteLog (fst (write [b "Z00256"; b "OVER"] dry_run_session))
  = b "Z00256" ++ EOL ++ b "OVER" ++ EOL.
Proof.
  destruct (@no_transport_dry_run dry_run_session eq_refl) as (_ & H & _ & _).
  destruct (H [b "Z00256"; b "OVER"]) as (_ & _ & Hok & Hlog).
  split; [apply Hok; reflexivity|].
  rewrite (Hlog (Hok eq_refl)). reflexivity.
Defined.

End Session.

(** ** Load parameters *)

Section LoadParameters.

Local Open Scope Z_scope.

Lemma read_keeps_limits (n : nat) (s : AWG_AD9106) :
  keeps_limits s (fst (read n s)).
Proof. unfold read, keeps_limits. destruct (_ser s); cbn; auto. Qed.

Lemma sendOverWaitForOver_keeps_limits (s : AWG_AD9106) :
  keeps_limits s (fst (sendOverWaitForOver s)).
Proof.
  destruct (_ser s) as [t|] eqn:Es.
  - rewrite (sendOverWaitForOver_transport s Es).
    unfold keeps_limits. destruct (_generateWriteLog s); cbn; auto.
  - rewrite (sendOverWaitForOver_no_transport s Es).
    unfold keeps_limits. destruct (_generateWriteLog s); cbn; auto.
Qed.

Lemma keeps_limits_trans (s1 s2 s3 : AWG_AD9106) :
  keeps_limits s1 s2 -> keeps_limits s2 s3 -> keeps_limits s1 s3.
Proof. unfold keeps_limits. intros [? ?] [? ?]. split; congruence. Qed.

Lemma bind_keeps_limits (A B : Type) (m : M A) (k : A -> M B) :
  (forall s, keeps_limits s (fst (m s))) ->
  (forall a s, keeps_limits s (fst (k a s))) ->
  forall s, keeps_limits s (fst (bind m k s)).
Proof.
  intros Hm Hk s. unfold bind. specialize (Hm s).
  destruct (m s) as [s1 [e|a]]; cbn [fst] in *; [exact Hm|].
  exact (keeps_limits_trans Hm (Hk a s1)).
Qed.

Lemma writeHandler_keeps_limits (line : bytes) (s : AWG_AD9106) :
  keeps_limits s (fst (_writeHandler line s)).
Proof.
  destruct (writeHandler_fields line s) as (_ & _ & _ & H1 & H2 & _).
  split; assumption.
Qed.

Lemma write_line_keeps_limits (line : bytes) (s : AWG_AD9106) :
  keeps_limits s (fst (write_line line s)).
Proof.
  unfold write_line.
  destruct (bytes_eqb line OVER_W);
    [apply sendOverWaitForOver_keeps_limits|].
  revert s. apply bind_keeps_limits.
  - intros s. destruct (startswith line (b "Z")); split; reflexivity.
  - intros _. apply bind_keeps_limits.
    + apply writeHandler_keeps_limits.
    + intros _. destruct (bytes_eqb line CMD_XXX).
      * apply bind_keeps_limits; [apply read_keeps_limits|].
        intros rsp s. destruct (utf8_valid rsp); split; reflexivity.
      * intros s. split; reflexivity.
Qed.

Lemma write_loop_keeps_limits (cmds : list bytes) :
  forall s, keeps_limits s (fst (write_loop cmds s)).
Proof.
  induction cmds as [|line rest IH]; intros s; [split; reflexivity|].
  cbn [write_loop]. unfold bind.
  pose proof (write_line_keeps_limits line s) as [H1 H2].
  destruct (write_line line s) as [s1 [e|[]]]; cbn [fst] in *.
  - split; assumption.
  - destruct (IH s1) as [I1 I2]. split; congruence.
Qed.

(** The row limits of every session a program can hold are at most the
    device capacity. *)
Lemma reachable_limits (s : AWG_AD9106) :
  reachable s ->
  _maxRowsToRead s <= MAX_SRAM_SAMPLES /\ _maxRowsToWrite s <= MAX_SRAM_SAMPLES.
Proof.
  unfold MAX_SRAM_SAMPLES.
  induction 1 as [port g p | s a1 a2 a3 a4 a5 a6 a7 a8 a9 a10 _ [IH1 IH2]
                 | s lines _ [IH1 IH2] | s _ [IH1 IH2] | s n _ [IH1 IH2]].
  - cbn. unfold MAX_SRAM_SAMPLES. lia.
  - cbn. unfold MAX_SRAM_SAMPLES, AUTO_DETECT.
    destruct a2 as [w|], a3 as [r|];
      repeat match goal with |- context [if ?c then _ else _] => destruct c end;
      lia.
  - destruct (write_loop_keeps_limits (_convertCommandsToListOfBytes lines) s)
      as [H1 H2].
    unfold write. rewrite H1, H2. lia.
  - destruct (sendOverWaitForOver_keeps_limits s) as [H1 H2].
    rewrite H1, H2. lia.
  - destruct (read_keeps_limits n s) as [H1 H2]. rewrite H1, H2. lia.
Qed.

(** C10: after a call of [setLoadParameters] with any arguments, on any
    session a program can hold, the stored [maxRowsToRead] and
    [maxRowsToWrite] are at most 4096; an explicit value above 4096 is
    stored as 4096, the auto-detect value -1 is stored as 4096, and an
    argument that is [None] leaves its field unchanged. *)
Theorem setLoadParameters_limits
    (s : AWG_AD9106)
    (startingRowToRead maxRowsToWrite maxRowsToRead : option Z)
    (doScaleAuto : option bool) (scaleMultiplier : option Q)
    (columnRanges : option (list ChannelRange)) (columnSelected : option Z)
    (columnWeights : option (list Q)) (hasCsvHeader : option Z)
    (doesPrint : option bool) :
  reachable s ->
  let s' := setLoadParameters startingRowToRead maxRowsToWrite maxRowsToRead
              doScaleAuto scaleMultiplier columnRanges columnSelected
              columnWeights hasCsvHeader doesPrint s in
  (_maxRowsToRead s' <= 4096 /\ _maxRowsToWrite s' <= 4096) /\
  (forall v, maxRowsToRead = Some v -> 4096 < v -> _maxRowsToRead s' = 4096) /\
  (forall v, maxRowsToWrite = Some v -> 4096 < v -> _maxRowsToWrite s' = 4096) /\
  (maxRowsToRead = Some (-1) -> _maxRowsToRead s' = 4096) /\
  (maxRowsToWrite = Some (-1) -> _maxRowsToWrite s' = 4096) /\
  (maxRowsToRead = None -> _maxRowsToRead s' = _maxRowsToRead s) /\
  (maxRowsToWrite = None -> _maxRowsToWrite s' = _maxRowsToWrite s).
Proof.
  intros Hs s'.
  pose proof (reachable_limits
                (reach_setLoadParameters startingRowToRead maxRowsToWrite
                   maxRowsToRead doScaleAuto scaleMultiplier columnRanges
                   columnSelected columnWeights hasCsvHeader doesPrint Hs))
    as Hlim.
  fold s' in Hlim. unfold MAX_SRAM_SAMPLES in Hlim.
  split; [exact Hlim|].
  subst s'. cbn. unfold MAX_SRAM_SAMPLES, AUTO_DETECT.
  repeat split; intros; subst; try reflexivity;
    match goal with
    | |- context [if ?c then _ else _] => destruct c eqn:E; lia
    end.
Qed.

Lemma setLoadParameters_limits_witness :
  _maxRowsToRead
    (setLoadParameters None (Some (-1)) (Some 100000) None None None None
                       None None None (init None false false)) = 4096 /\
  _maxRowsToWrite
    (setLoadParameters None (Some (-1)) (Some 100000) None None None None
                       None None None (init None false false)) = 4096.
Proof.
  destruct (@setLoadParameters_limits (init None false false)
              None (Some (-1)) (Some 100000) None None None None None None
              None (reach_init None false false))
    as (_ & Hr & _ & _ & Hw & _).
  split; [apply (Hr 100000); [reflexivity | lia] | apply Hw; reflexivity].
Defined.

End LoadParameters.

(** ** Quantizer *)

Section Quantizer.

Local Open Scope Q_scope.

Lemma fold_left_snoc_map (A B : Type) (f : A -> B) (l : list A) :
  forall acc : list B,
  fold_left (fun out x => out ++ [f x]) l acc = acc ++ map f l.
Proof.
  induction l as [|x l IH]; intros acc; cbn.
  - rewrite app_nil_r. reflexivity.
  - rewrite IH, <- app_assoc. reflexivity.
Qed.

Lemma normalizedValuesToRegisterValues_map (normValues : list Q) :
  _normalizedValuesToRegisterValues normValues
  = map registerValue_of normValues.
Proof. apply (fold_left_snoc_map registerValue_of normValues []). Qed.


(** [round] stays between the floor and the floor plus one. *)
Lemma py_round_bounds (x : Q) :
  (Qfloor x <= py_round x <= Qfloor x + 1)%Z.
Proof.
  unfold py_round.
  destruct (Qcompare (x - inject_Z (Qfloor x)) (1 # 2));
    [destruct (Z.even (Qfloor x))| |]; lia.
Qed.

Lemma py_round_mono (x y : Q) : x <= y -> (py_round x <= py_round y)%Z.
Proof.
  intros Hxy.
  pose proof (Qfloor_resp_le x y Hxy) as Hf.
  destruct (Z.eq_dec (Qfloor x) (Qfloor y)) as [Heq|Hne].
  - unfold py_round. rewrite <- Heq.
    set (f := Qfloor x).
    destruct (Qcompare (x - inject_Z f) (1 # 2)) eqn:Ex;
      destruct (Qcompare (y - inject_Z f) (1 # 2)) eqn:Ey;
      try (destruct (Z.even f); lia); try lia; exfalso;
      repeat match goal with
             | H : Qcompare _ _ = Eq |- _ => apply Qeq_alt in H
             | H : Qcompare _ _ = Lt |- _ => apply Qlt_alt in H
             | H : Qcompare _ _ = Gt |- _ => apply Qgt_alt in H
             end;
      revert Ex Ey Hxy; generalize (inject_Z f); intros; lra.
  - pose proof (py_round_bounds x). pose proof (py_round_bounds y). lia.
Qed.

Lemma registerValue_of_mono (v w : Q) :
  v <= w -> (registerValue_of v <= registerValue_of w)%Z.
Proof.
  intros Hvw. unfold registerValue_of, MAX_SRAM_VALUE.
  assert (H : (v + 1) * inject_Z 511 / 2 <= (w + 1) * inject_Z 511 / 2).
  { unfold Qdiv.
    apply Qmult_le_compat_r; [apply Qmult_le_compat_r|]; [lra|easy|easy]. }
  apply py_round_mono in H. lia.
Qed.



End Quantizer.

(** ** Command encoder *)

Section Encoder.

Local Open Scope nat_scope.

Lemma reads_back2_all : forallb reads_back2 (seq 0 64) = true.
Proof. vm_compute. reflexivity. Qed.

Lemma reads_back3_all : forallb reads_back3 (seq 0 512) = true.
Proof. vm_compute. reflexivity. Qed.

Lemma format_block_index (k : nat) :
  k < 64 ->
  exists d1 d2 x y,
    format_0d 2 (Z.of_nat k) = [d1; d2] /\
    digit_val d1 = Some x /\ digit_val d2 = Some y /\ 10 * x + y = k.
Proof.
  intros Hk.
  assert (H : reads_back2 k = true).
  { apply (proj1 (forallb_forall _ _) reads_back2_all), in_seq. lia. }
  unfold reads_back2 in H.
  destruct (format_0d 2 (Z.of_nat k)) as [|d1 [|d2 [|? ?]]]; try discriminate.
  destruct (digit_val d1) as [x|] eqn:E1; try discriminate.
  destruct (digit_val d2) as [y|] eqn:E2; try discriminate.
  apply Nat.eqb_eq in H. exists d1, d2, x, y. auto.
Qed.

Lemma format_register (v : Z) :
  (0 <= v <= 511)%Z ->
  exists d1 d2 d3 x y z,
    format_0d 3 v = [d1; d2; d3] /\
    digit_val d1 = Some x /\ digit_val d2 = Some y /\ digit_val d3 = Some z /\
    Z.of_nat (100 * x + 10 * y + z) = v.
Proof.
  intros Hv.
  assert (H : reads_back3 (Z.to_nat v) = true).
  { apply (proj1 (forallb_forall _ _) reads_back3_all), in_seq. lia. }
  unfold reads_back3 in H. rewrite Z2Nat.id in H by lia.
  destruct (format_0d 3 v) as [|d1 [|d2 [|d3 [|? ?]]]]; try discriminate.
  destruct (digit_val d1) as [x|] eqn:E1; try discriminate.
  destruct (digit_val d2) as [y|] eqn:E2; try discriminate.
  destruct (digit_val d3) as [z|] eqn:E3; try discriminate.
  apply Nat.eqb_eq in H. exists d1, d2, d3, x, y, z.
  repeat split; auto. lia.
Qed.

Lemma clampRegister_range (v : Z) : in_register_range (clampRegister v).
Proof. unfold in_register_range, clampRegister, MAX_SRAM_VALUE. lia. Qed.

(** The payload of a frame reads back as its values. *)
Lemma decode_values_payload (vals : list Z) :
  Forall in_register_range vals ->
  decode_values (List.concat (map (format_0d 3) vals) ++ EOL) = Some vals.
Proof.
  induction 1 as [|v vals Hv _ IH]; [reflexivity|].
  destruct (format_register Hv)
    as (d1 & d2 & d3 & x & y & z & Hf & H1 & H2 & H3 & Hxyz).
  cbn [map List.concat]. rewrite Hf. cbn [app].
  cbn [decode_values]. rewrite H1, H2, H3.
  fold (decode_values (List.concat (map (format_0d 3) vals) ++ EOL)).
  rewrite IH, Hxyz. reflexivity.
Qed.

(** A whole frame reads back as its block index and values. *)
Lemma decodeZCommand_frame (k : nat) (vals : list Z) :
  k < 64 ->
  Forall in_register_range vals ->
  decodeZCommand
    (((b "Z" ++ format_0d 2 (Z.of_nat k))
        ++ List.concat (map (format_0d 3) vals)) ++ EOL)
  = Some (k, vals).
Proof.
  intros Hk Hvals.
  destruct (format_block_index Hk) as (d1 & d2 & x & y & Hf & H1 & H2 & Hxy).
  rewrite Hf. cbn [b list_ascii_of_string app].
  unfold decodeZCommand. rewrite H1, H2.
  rewrite (decode_values_payload Hvals), Hxy. reflexivity.
Qed.

Lemma succ_block_boundary (i : nat) :
  i mod 64 = 63 -> S i mod 64 = 0 /\ S i / 64 = S (i / 64).
Proof.
  intros H. pose proof (Nat.div_mod_eq i 64) as E.
  assert (E' : S i = 64 * S (i / 64) + 0) by lia.
  split.
  - symmetry. apply (Nat.mod_unique (S i) 64 (S (i / 64)) 0); [lia | exact E'].
  - symmetry. apply (Nat.div_unique (S i) 64 (S (i / 64)) 0); [lia | exact E'].
Qed.

Lemma succ_inside_block (i : nat) :
  i mod 64 <> 63 -> S i mod 64 = S (i mod 64) /\ S i / 64 = i / 64.
Proof.
  intros H. pose proof (Nat.div_mod_eq i 64) as E.
  pose proof (Nat.mod_upper_bound i 64 ltac:(lia)) as B.
  assert (E' : S i = 64 * (i / 64) + S (i mod 64)) by lia.
  split.
  - symmetry.
    apply (Nat.mod_unique (S i) 64 (i / 64) (S (i mod 64))); [lia | exact E'].
  - symmetry.
    apply (Nat.div_unique (S i) 64 (i / 64) (S (i mod 64))); [lia | exact E'].
Qed.

Lemma block_index_bound (i : nat) : i < 4096 -> i / 64 < 64.
Proof. intros H. apply Nat.Div0.div_lt_upper_bound. lia. Qed.

Lemma z_loop_step (n i : nat) (v : Z) (rest : list Z) (z_command : bytes)
    (out : list bytes) :
  z_loop n i (v :: rest) z_command out
  = let z_command :=
      (if i mod 64 =? 0 then b "Z" ++ format_0d 2 (Z.of_nat (i / 64))
       else z_command) ++ format_0d 3 (clampRegister v) in
    if (i mod 64 =? 63) || (i =? n - 1)
    then z_loop n (S i) rest (z_command ++ EOL) (out ++ [z_command ++ EOL])
    else z_loop n (S i) rest z_command out.
Proof. reflexivity. Qed.

(** The invariant of the loop of [convertNumbersToZCommands]: [pre] are
    the clamped values already written into the open command, and the
    finished commands are only ever extended. *)
Lemma z_loop_decodes (rest : list Z) :
  forall (v : Z) (n i : nat) (z_command : bytes) (out : list bytes)
         (pre : list Z),
  i + S (List.length rest) = n ->
  n <= 4096 ->
  Forall in_register_range pre ->
  List.length pre = i mod 64 ->
  (i mod 64 <> 0 ->
   z_command = (b "Z" ++ format_0d 2 (Z.of_nat (i / 64)))
                 ++ List.concat (map (format_0d 3) pre)) ->
  exists fs,
    z_loop n i (v :: rest) z_command out = out ++ fs /\
    decodeZCommands (i / 64) fs = Some (pre ++ map clampRegister (v :: rest)).
Proof.
  induction rest as [|v' rest IH];
    intros v n i z_command out pre Hn Hcap Hpre Hlen Hopen.
  - (* the last value: the command is closed whatever its size *)
    rewrite z_loop_step. cbv zeta.
    assert (Hcmd :
      (if i mod 64 =? 0 then b "Z" ++ format_0d 2 (Z.of_nat (i / 64))
       else z_command) ++ format_0d 3 (clampRegister v)
      = (b "Z" ++ format_0d 2 (Z.of_nat (i / 64)))
          ++ List.concat (map (format_0d 3) (pre ++ [clampRegister v]))).
    { rewrite map_app, concat_app. cbn [map List.concat].
      rewrite app_nil_r, app_assoc. f_equal.
      destruct (Nat.eqb_spec (i mod 64) 0) as [E|E].
      - rewrite E in Hlen. apply length_zero_iff_nil in Hlen. subst pre.
        cbn. rewrite app_nil_r. reflexivity.
      - apply Hopen, E. }
    rewrite Hcmd.
    replace (i =? n - 1) with true by (symmetry; apply Nat.eqb_eq; cbn in Hn; lia).
    rewrite orb_true_r. cbn [z_loop].
    eexists. split; [reflexivity|].
    cbn [decodeZCommands].
    rewrite decodeZCommand_frame.
    + rewrite Nat.eqb_refl. cbn [andb block_size_ok].
      rewrite length_app. cbn [List.length].
      pose proof (Nat.mod_upper_bound i 64 ltac:(lia)) as B.
      replace ((1 <=? List.length pre + 1) && (List.length pre + 1 <=? 64))
        with true.
      * cbn [map]. rewrite app_nil_r. reflexivity.
      * symmetry. apply andb_true_iff.
        split; apply Nat.leb_le; lia.
    + apply block_index_bound. cbn in Hn. lia.
    + apply Forall_app. split; [exact Hpre|].
      constructor; [apply clampRegister_range | constructor].
  - (* a value followed by others *)
    rewrite z_loop_step. cbv zeta.
    assert (Hcmd :
      (if i mod 64 =? 0 then b "Z" ++ format_0d 2 (Z.of_nat (i / 64))
       else z_command) ++ format_0d 3 (clampRegister v)
      = (b "Z" ++ format_0d 2 (Z.of_nat (i / 64)))
          ++ List.concat (map (format_0d 3) (pre ++ [clampRegister v]))).
    { rewrite map_app, concat_app. cbn [map List.concat].
      rewrite app_nil_r, app_assoc. f_equal.
      destruct (Nat.eqb_spec (i mod 64) 0) as [E|E].
      - rewrite E in Hlen. apply length_zero_iff_nil in Hlen. subst pre.
        cbn. rewrite app_nil_r. reflexivity.
      - apply Hopen, E. }
    rewrite Hcmd.
    replace (i =? n - 1) with false
      by (symmetry; apply Nat.eqb_neq; cbn in Hn; lia).
    rewrite orb_false_r.
    assert (Hpre' : Forall in_register_range (pre ++ [clampRegister v])).
    { apply Forall_app. split; [exact Hpre|].
      constructor; [apply clampRegister_range | constructor]. }
    destruct (Nat.eqb_spec (i mod 64) 63) as [E|E].
    + (* the block is full *)
      destruct (succ_block_boundary i E) as [Hm Hd].
      destruct (IH v' n (S i)
                   (((b "Z" ++ format_0d 2 (Z.of_nat (i / 64)))
                       ++ List.concat
                            (map (format_0d 3) (pre ++ [clampRegister v])))
                      ++ EOL)
                   (out ++
                    [((b "Z" ++ format_0d 2 (Z.of_nat (i / 64)))
                        ++ List.concat
                             (map (format_0d 3) (pre ++ [clampRegister v])))
                       ++ EOL])
                   [])
        as (fs & Hfs & Hdec).
      * cbn in Hn |- *. lia.
      * exact Hcap.
      * constructor.
      * rewrite Hm. reflexivity.
      * intros Hne. rewrite Hm in Hne. contradiction.
      * rewrite Hfs, <- app_assoc. eexists. split; [reflexivity|].
        cbn [app decodeZCommands].
        rewrite decodeZCommand_frame;
          [| apply block_index_bound; cbn in Hn; lia | exact Hpre'].
        rewrite Hd in Hdec. rewrite Hdec.
        rewrite Nat.eqb_refl.
        assert (Hfs_ne : fs <> []).
        { intros ->. cbn in Hdec. discriminate. }
        destruct fs as [|f fs']; [contradiction|].
        cbn [andb block_size_ok]. rewrite length_app, Hlen, E.
        cbn [List.length Nat.add Nat.eqb].
        rewrite <- app_assoc. reflexivity.
    + (* the block stays open *)
      destruct (succ_inside_block i E) as [Hm Hd].
      destruct (IH v' n (S i)
                   ((b "Z" ++ format_0d 2 (Z.of_nat (i / 64)))
                      ++ List.concat
                           (map (format_0d 3) (pre ++ [clampRegister v])))
                   out (pre ++ [clampRegister v]))
        as (fs & Hfs & Hdec).
      * cbn in Hn |- *. lia.
      * exact Hcap.
      * exact Hpre'.
      * rewrite length_app, Hm, Hlen. cbn. lia.
      * intros _. rewrite Hd. reflexivity.
      * exists fs. split; [exact Hfs|].
        rewrite Hd in Hdec. rewrite Hdec, <- app_assoc. reflexivity.
Qed.

(** C6: for at most 4096 register values the encoder returns framed
    Z-commands (tag [Z], two-digit block index counting from 00, three
    digits per value, CRLF; 64 values in every block but the last, which
    holds between 1 and 64) that read back, in order, as the input values
    clamped to [0, 511]. *)
Theorem z_commands_round_trip (s : AWG_AD9106) (valuesInput : list Z) :
  List.length valuesInput <= 4096 ->
  exists frames,
    convertNumbersToZCommands s valuesInput = inr frames /\
    decodeZCommands 0 frames = Some (map clampRegister valuesInput).
Proof.
  intros Hlen. unfold convertNumbersToZCommands.
  change (Z.to_nat MAX_SRAM_SAMPLES) with 4096.
  replace (4096 <? List.length valuesInput) with false
    by (symmetry; apply Nat.ltb_ge; exact Hlen).
  cbn [andb].
  destruct valuesInput as [|v rest].
  - exists []. split; reflexivity.
  - destruct (@z_loop_decodes rest v (List.length (v :: rest)) 0 [] [] [])
      as (fs & Hfs & Hdec); try reflexivity; try assumption.
    + constructor.
    + intros H. exfalso. apply H. reflexivity.
    + exists fs. split; [rewrite Hfs; reflexivity | exact Hdec].
Qed.

Lemma z_commands_round_trip_witness :
  exists frames,
    convertNumbersToZCommands dry_run_session [0; 600; -3; 256]%Z
    = inr frames /\
    decodeZCommands 0 frames = Some [0; 511; 0; 256]%Z.
Proof.
  apply (@z_commands_round_trip dry_run_session [0; 600; -3; 256]%Z).
  cbn. lia.
Defined.

End Encoder.

(** ** Channel combiner *)

Section Combiner.

Local Open Scope Q_scope.

Lemma copyListAndForceLength_length (A : Type) (l : option (list A))
    (n : nat) (fill : A) :
  List.length (_copyListAndForceLength l n fill) = n.
Proof.
  unfold _copyListAndForceLength.
  destruct (Nat.ltb_spec (List.length match l with Some l0 => l0 | None => [] end) n);
    rewrite length_firstn, ?length_app, ?repeat_length; lia.
Qed.

Lemma columnWeights_for_length (s : AWG_AD9106) (n : nat) (w : list Q) :
  columnWeights_for s n = inr w -> List.length w = n.
Proof.
  unfold columnWeights_for.
  destruct (match _columnSelected s with Some _ => _ | None => _ end);
    [discriminate|].
  intros [= <-]. apply copyListAndForceLength_length.
Qed.

Lemma longest_fold_left (channels : list (list Q)) :
  forall m,
  fold_left (fun m channel => Nat.max m (List.length channel)) channels m
  = Nat.max m (fold_right Nat.max O (map (@List.length Q) channels)).
Proof.
  induction channels as [|c cs IH]; intros m; cbn; [lia|].
  rewrite IH. lia.
Qed.

Lemma longest_bound (channels : list (list Q)) (c : list Q) :
  In c channels ->
  (List.length c <= fold_right Nat.max O (map (@List.length Q) channels))%nat.
Proof.
  induction channels as [|c' cs IH]; cbn; [tauto|].
  intros [->|H]; [lia | specialize (IH H); lia].
Qed.

Lemma longest_equal_lengths (channels : list (list Q)) (m : nat) :
  channels <> [] ->
  (forall c, In c channels -> List.length c = m) ->
  fold_right Nat.max O (map (@List.length Q) channels) = m.
Proof.
  induction channels as [|c cs IH]; [congruence|]. intros _ Hall. cbn.
  rewrite (Hall c (or_introl eq_refl)).
  destruct cs as [|c' cs']; [cbn; lia|].
  rewrite IH; [lia | discriminate | intros; apply Hall; right; assumption].
Qed.

Lemma weightTotal_nonneg (weights : list Q) :
  forall t, 0 <= t -> 0 <= fold_left (fun t w => t + Qabs w) weights t.
Proof.
  induction weights as [|w ws IH]; intros t Ht; cbn; [exact Ht|].
  apply IH. pose proof (Qabs_nonneg w). lra.
Qed.

(** The inner loop on an index every channel has. *)
Lemma wa_inner_defined (channels : list (list Q)) (weights : list Q)
    (ranges : list ChannelRange) (i : nat) :
  List.length weights = List.length channels ->
  List.length ranges = List.length channels ->
  (forall c, In c channels -> (i < List.length c)%nat) ->
  forall js acc,
  (forall j, In j js -> (j < List.length channels)%nat) ->
  wa_inner channels weights ranges i js acc
  = inr (fold_left
           (fun acc j => acc + spec_contribution channels ranges weights i j)
           js acc).
Proof.
  intros Hw Hr Hlong. induction js as [|j js IH]; intros acc Hjs;
    [reflexivity|].
  assert (Hj : (j < List.length channels)%nat) by (apply Hjs; left; reflexivity).
  cbn [wa_inner fold_left]. unfold spec_contribution at 2.
  rewrite (nth_error_nth' weights 0) by lia.
  replace (List.length channels <=? j)%nat with false
    by (symmetry; apply Nat.leb_gt; exact Hj).
  rewrite (nth_error_nth' channels []) by lia.
  rewrite (nth_error_nth' ranges None) by lia.
  assert (Hi : (i < List.length (nth j channels []))%nat)
    by (apply Hlong, nth_In; exact Hj).
  rewrite (nth_error_nth' (nth j channels []) 0 Hi).
  apply IH. intros j' Hj'. apply Hjs. right. exact Hj'.
Qed.

(** The inner loop on an index some channel lacks. *)
Lemma wa_inner_short (channels : list (list Q)) (weights : list Q)
    (ranges : list ChannelRange) (i j : nat) :
  (j < List.length channels)%nat ->
  (List.length (nth j channels []) <= i)%nat ->
  forall js acc,
  In j js ->
  wa_inner channels weights ranges i js acc = inl IndexError.
Proof.
  intros Hj Hshort. induction js as [|j' js IH]; intros acc Hin;
    [destruct Hin|].
  cbn [wa_inner].
  destruct (nth_error weights j') as [weight|]; [|reflexivity].
  destruct (Nat.eq_dec j' j) as [->|Hne].
  - replace (List.length channels <=? j)%nat with false
      by (symmetry; apply Nat.leb_gt; exact Hj).
    rewrite (nth_error_nth' channels []) by lia.
    replace (nth_error (nth j channels []) i) with (@None Q)
      by (symmetry; apply nth_error_None; exact Hshort).
    reflexivity.
  - destruct Hin as [Heq|Hin]; [contradiction|].
    destruct (if (List.length channels <=? j')%nat then Some 0
              else match nth_error channels j' with
                   | Some channel => nth_error channel i
                   | None => None
                   end); [|reflexivity].
    destruct (nth_error ranges j'); [|reflexivity].
    apply IH, Hin.
Qed.

Lemma wa_outer_defined (channels : list (list Q)) (weights : list Q)
    (ranges : list ChannelRange) (weightTotal : Q) :
  List.length weights = List.length channels ->
  List.length ranges = List.length channels ->
  forall idxs out,
  (forall i c, In i idxs -> In c channels -> (i < List.length c)%nat) ->
  wa_outer channels weights ranges weightTotal idxs out
  = inr (out ++
         map (fun i =>
                let sum :=
                  fold_left
                    (fun acc j =>
                       acc + spec_contribution channels ranges weights i j)
                    (seq 0 (List.length channels)) 0 in
                if Qlt_le_dec 0 weightTotal then sum / weightTotal else 0)
             idxs).
Proof.
  intros Hw Hr. induction idxs as [|i idxs IH]; intros out Hall.
  - cbn. rewrite app_nil_r. reflexivity.
  - cbn [wa_outer map].
    rewrite (wa_inner_defined channels weights ranges Hw Hr
               (fun c Hc => Hall i c (or_introl eq_refl) Hc)).
    + rewrite IH, <- app_assoc; [reflexivity|].
      intros i' c Hi'. apply Hall. right. exact Hi'.
    + intros j Hj. apply in_seq in Hj. lia.
Qed.

(** [IndexError] is the only exception of the inner loop. *)
Lemma wa_inner_error (channels : list (list Q)) (weights : list Q)
    (ranges : list ChannelRange) (i : nat) (e : PyError) :
  forall js acc,
  wa_inner channels weights ranges i js acc = inl e -> e = IndexError.
Proof.
  induction js as [|j js IH]; intros acc; cbn [wa_inner]; [discriminate|].
  destruct (nth_error weights j); [|intros [= <-]; reflexivity].
  destruct (if (List.length channels <=? j)%nat then Some 0
            else match nth_error channels j with
                 | Some channel => nth_error channel i
                 | None => None
                 end); [|intros [= <-]; reflexivity].
  destruct (nth_error ranges j); [|intros [= <-]; reflexivity].
  apply IH.
Qed.

Lemma wa_outer_short (channels : list (list Q)) (weights : list Q)
    (ranges : list ChannelRange) (weightTotal : Q) (i j : nat) :
  (j < List.length channels)%nat ->
  (List.length (nth j channels []) <= i)%nat ->
  forall idxs out,
  In i idxs ->
  wa_outer channels weights ranges weightTotal idxs out = inl IndexError.
Proof.
  intros Hj Hshort. induction idxs as [|i' idxs IH]; intros out Hin;
    [destruct Hin|].
  cbn [wa_outer].
  destruct (Nat.eq_dec i' i) as [->|Hne].
  - rewrite (wa_inner_short channels weights ranges Hj Hshort);
      [reflexivity | apply in_seq; lia].
  - destruct Hin as [Heq|Hin]; [contradiction|].
    destruct (wa_inner channels weights ranges i'
                       (seq 0 (List.length channels)) 0) as [e|avg] eqn:E.
    + apply wa_inner_error in E. subst e. reflexivity.
    + apply IH, Hin.
Qed.

(** On channels of one length the combiner computes the formula of the
    specification. *)
Lemma weightedAverageChannels_equal_lengths (s : AWG_AD9106)
    (channels : list (list Q)) (channelRanges : list ChannelRange)
    (weights : list Q) (m : nat) :
  columnWeights_for s (List.length channels) = inr weights ->
  (forall c, In c channels -> List.length c = m) ->
  _weightedAverageChannels s channels channelRanges
  = inr (spec_combine channels
           (_copyListAndForceLength (Some channelRanges)
                                    (List.length channels) None)
           weights).
Proof.
  intros Hw Hall. unfold _weightedAverageChannels. rewrite Hw.
  rewrite longest_fold_left, Nat.max_0_l.
  rewrite wa_outer_defined.
  - cbn [app]. unfold spec_combine. f_equal. apply map_ext. intros i.
    cbv zeta.
    set (total := fold_left (fun t w => t + Qabs w) weights 0).
    assert (Hnn : 0 <= total) by (apply weightTotal_nonneg; lra).
    destruct (Qlt_le_dec 0 total) as [Hpos|Hle].
    + replace (Qeq_bool total 0) with false; [reflexivity|].
      symmetry. apply not_true_iff_false. intros H.
      apply Qeq_bool_iff in H. lra.
    + replace (Qeq_bool total 0) with true; [reflexivity|].
      symmetry. apply Qeq_bool_iff. lra.
  - apply (columnWeights_for_length _ _ Hw).
  - apply copyListAndForceLength_length.
  - intros i c Hi Hc. apply in_seq in Hi.
    rewrite (longest_equal_lengths (m := m)) in Hi.
    + rewrite (Hall c Hc). lia.
    + intros ->. destruct Hc.
    + exact Hall.
Qed.

(** On channels of different lengths the combiner raises [IndexError]: the
    guard of the lookup tests the channel index, which is always in range,
    and not the sample index. *)
Lemma weightedAverageChannels_unequal_lengths (s : AWG_AD9106)
    (channels : list (list Q)) (channelRanges : list ChannelRange)
    (weights : list Q) (j j' : nat) :
  columnWeights_for s (List.length channels) = inr weights ->
  (j < List.length channels)%nat ->
  (j' < List.length channels)%nat ->
  (List.length (nth j channels []) < List.length (nth j' channels []))%nat ->
  _weightedAverageChannels s channels channelRanges = inl IndexError.
Proof.
  intros Hw Hj Hj' Hlt. unfold _weightedAverageChannels. rewrite Hw.
  rewrite longest_fold_left, Nat.max_0_l.
  apply (@wa_outer_short channels weights _ _
           (List.length (nth j channels [])) j Hj (Nat.le_refl _)).
  apply in_seq.
  pose proof (@longest_bound channels (nth j' channels [])
                             (nth_In channels [] Hj')).
  lia.
Qed.

(** C2: on the channels [[1,1]] and [[1]] the specification's formula
    gives [[1, 0.5]], the short channel contributing 0.0 at index 1, while
    the combiner raises [IndexError], as does the load of an 8-bit stereo
    source read with an odd sample limit, whose channels differ in length;
    on [[1,1]] and [[-1,-1]] with ranges [-1,1] and weights [1,1] the
    combiner returns [[0, 0]]. *)
Theorem weightedAverageChannels_short_channel :
  _weightedAverageChannels dry_run_session [[1; 1]; [1]] [] = inl IndexError /\
  columnWeights_for dry_run_session 2 = inr [1; 1] /\
  Forall2 Qeq (spec_combine [[1; 1]; [1]] [None; None] [1; 1]) [1; 1 # 2] /\
  loadNumbersFromWAV
    (setLoadParameters None None (Some 3%Z) None None None None None None
                       None dry_run_session)
    true 2 1 (map ascii_of_nat [10; 20; 30; 40]%nat) = inl IndexError /\
  (exists out,
     _weightedAverageChannels
       (setLoadParameters None None None None None None None (Some [1; 1])
                          None None dry_run_session)
       [[1; 1]; [-(1); -(1)]] [Some [-(1); 1]; Some [-(1); 1]] = inr out /\
     Forall2 Qeq out [0; 0]).
Proof.
  split; [|split; [|split; [|split]]].
  - apply (@weightedAverageChannels_unequal_lengths dry_run_session
             [[1; 1]; [1]] [] [1; 1] 1%nat 0%nat);
      [reflexivity | cbn; lia | cbn; lia | cbn; lia].
  - reflexivity.
  - vm_compute. repeat constructor.
  - vm_compute. reflexivity.
  - eexists. split; [vm_compute; reflexivity|]. repeat constructor.
Qed.

(** The guard of the one-hot selector rejects an index at or beyond the
    channel count. *)
Lemma selected_column_beyond (s : AWG_AD9106) (channels : list (list Q))
    (channelRanges : list ChannelRange) (sel : Z) :
  _columnSelected s = Some sel ->
  (Z.of_nat (List.length channels) <= sel)%Z ->
  _weightedAverageChannels s channels channelRanges = inl IndexError.
Proof.
  intros Hsel Hge. unfold _weightedAverageChannels, columnWeights_for.
  rewrite Hsel.
  replace (Z.of_nat (List.length channels) <=? sel)%Z with true
    by (symmetry; apply Z.leb_le; exact Hge).
  reflexivity.
Qed.

(** An index below minus the channel count fails in the list assignment. *)
Lemma selected_column_below (s : AWG_AD9106) (channels : list (list Q))
    (channelRanges : list ChannelRange) (sel : Z) :
  _columnSelected s = Some sel ->
  (sel < - Z.of_nat (List.length channels))%Z ->
  _weightedAverageChannels s channels channelRanges = inl IndexError.
Proof.
  intros Hsel Hlt. unfold _weightedAverageChannels, columnWeights_for.
  rewrite Hsel.
  replace (Z.of_nat (List.length channels) <=? sel)%Z with false
    by (symmetry; apply Z.leb_gt; lia).
  unfold py_setitem. rewrite repeat_length.
  replace (sel <? 0)%Z with true by (symmetry; apply Z.ltb_lt; lia).
  replace (0 <=? sel + Z.of_nat (List.length channels))%Z with false
    by (symmetry; apply Z.leb_gt; lia).
  reflexivity.
Qed.

Lemma list_set_length (A : Type) (l : list A) :
  forall k v, List.length (list_set l k v) = List.length l.
Proof.
  induction l as [|x l IH]; intros [|k] v; cbn; auto.
Qed.

(** A negative index down to minus the channel count passes the guard and
    selects a channel counted from the end. *)
Lemma selected_column_negative (s : AWG_AD9106) (n : nat) (sel : Z) :
  _columnSelected s = Some sel ->
  (- Z.of_nat n <= sel < 0)%Z ->
  columnWeights_for s n
  = inr (list_set (repeat 0 n) (Z.to_nat (sel + Z.of_nat n)) 1).
Proof.
  intros Hsel [Hlo Hhi]. unfold columnWeights_for. rewrite Hsel.
  replace (Z.of_nat n <=? sel)%Z with false
    by (symmetry; apply Z.leb_gt; lia).
  unfold py_setitem. rewrite repeat_length.
  replace (sel <? 0)%Z with true by (symmetry; apply Z.ltb_lt; lia).
  replace ((0 <=? sel + Z.of_nat n) && (sel + Z.of_nat n <? Z.of_nat n))%Z
    with true
    by (symmetry; apply andb_true_iff; split;
        [apply Z.leb_le | apply Z.ltb_lt]; lia).
  unfold _copyListAndForceLength.
  rewrite list_set_length, repeat_length, Nat.ltb_irrefl.
  rewrite firstn_all2; [reflexivity|].
  rewrite list_set_length, repeat_length. lia.
Qed.

(** C8: with two channels, the selected-channel indices 2 and -3 raise
    [IndexError], but the out-of-bounds index -1 does not: it passes the
    guard, which only tests [>= len(channels)], and selects the last
    channel. *)
Theorem selected_column_negative_accepted :
  let select sel :=
    setLoadParameters None None None None None None (Some sel) None None None
                      dry_run_session in
  _weightedAverageChannels (select 2%Z) [[1 # 2]; [-(1 # 2)]] []
  = inl IndexError /\
  _weightedAverageChannels (select (-3)%Z) [[1 # 2]; [-(1 # 2)]] []
  = inl IndexError /\
  columnWeights_for (select (-1)%Z) 2 = inr [0; 1] /\
  exists out,
    _weightedAverageChannels (select (-1)%Z) [[1 # 2]; [-(1 # 2)]] []
    = inr out /\
    Forall2 Qeq out [-(1 # 2)].
Proof.
  cbv zeta. split; [|split; [|split]].
  - apply selected_column_beyond with (sel := 2%Z); [reflexivity | cbn; lia].
  - apply selected_column_below with (sel := (-3)%Z); [reflexivity | cbn; lia].
  - rewrite selected_column_negative with (sel := (-1)%Z);
      [reflexivity | reflexivity | lia].
  - eexists. split; [vm_compute; reflexivity | repeat constructor].
Qed.

End Combiner.

(** ** Scaling stage *)

Section Scaling.

Local Open Scope Q_scope.

Lemma Forall2_Qeq_map (f g : Q -> Q) (l : list Q) :
  (forall x, f x == g x) -> Forall2 Qeq (map f l) (map g l).
Proof.
  intros H. induction l as [|x l IH]; cbn; constructor; auto.
Qed.

Lemma peak_zero_iff (lo hi : Q) :
  Qmax (Qabs lo) (Qabs hi) == 0 <-> lo == 0 /\ hi == 0.
Proof.
  pose proof (Qabs_nonneg lo) as Hlo. pose proof (Qabs_nonneg hi) as Hhi.
  pose proof (Q.le_max_l (Qabs lo) (Qabs hi)) as Hl.
  pose proof (Q.le_max_r (Qabs lo) (Qabs hi)) as Hr.
  split.
  - intros H.
    assert (H1 : Qabs lo == 0) by lra.
    assert (H2 : Qabs hi == 0) by lra.
    clear - H1 H2. revert H1 H2.
    apply (Qabs_case lo); apply (Qabs_case hi); intros; split; lra.
  - intros [H1 H2]. rewrite H1, H2. reflexivity.
Qed.

(** The scaling stage agrees with the specification when automatic
    scaling is off, when both extremes are non-zero, and when both are
    zero. *)
Lemma applyScaling_agrees (s : AWG_AD9106) (values : list Q) (lo hi : Q) :
  py_min values = inr lo ->
  py_max values = inr hi ->
  _doScaleAuto s = false \/ (~ lo == 0 /\ ~ hi == 0) \/ (lo == 0 /\ hi == 0) ->
  exists out,
    _applyScaling s values = inr out /\
    Forall2 Qeq out
            (spec_scale values (_doScaleAuto s) (_scaleMultiplier s)).
Proof.
  intros Hmin Hmax Hcase. unfold _applyScaling, spec_scale, spec_peak.
  rewrite Hmin, Hmax. eexists. split; [reflexivity|].
  destruct (_doScaleAuto s) eqn:Eauto; cbn [andb].
  - destruct Hcase as [H|[[Hlo Hhi]|[Hlo Hhi]]]; [discriminate| |].
    + replace (Qeq_bool lo 0) with false
        by (symmetry; apply not_true_iff_false; rewrite Qeq_bool_iff; exact Hlo).
      replace (Qeq_bool hi 0) with false
        by (symmetry; apply not_true_iff_false; rewrite Qeq_bool_iff; exact Hhi).
      replace (Qeq_bool (Qmax (Qabs lo) (Qabs hi)) 0) with false.
      * cbn [negb andb]. apply Forall2_Qeq_map. reflexivity.
      * symmetry. apply not_true_iff_false.
        rewrite Qeq_bool_iff, peak_zero_iff. tauto.
    + replace (Qeq_bool lo 0) with true
        by (symmetry; rewrite Qeq_bool_iff; exact Hlo).
      replace (Qeq_bool (Qmax (Qabs lo) (Qabs hi)) 0) with true
        by (symmetry; rewrite Qeq_bool_iff, peak_zero_iff; tauto).
      cbn [negb andb]. rewrite map_map. apply Forall2_Qeq_map.
      intros x. ring.
  - apply Forall2_Qeq_map. reflexivity.
Qed.

(** C7: on the values [[0, 0.5]] with automatic scaling and multiplier 1
    the peak is 0.5 and the specification's scaling gives [[0, 1]], while
    the scaling stage returns [[0, 0.5]]: it scales only when the minimum
    and the maximum are both non-zero. *)
Theorem applyScaling_zero_extreme :
  let s := setLoadParameters None None None (Some true) None None None None
                             None None dry_run_session in
  py_min [0; 1 # 2] = inr 0 /\
  py_max [0; 1 # 2] = inr (1 # 2) /\
  spec_peak [0; 1 # 2] = 1 # 2 /\
  Forall2 Qeq (spec_scale [0; 1 # 2] true 1) [0; 1] /\
  exists out,
    _applyScaling s [0; 1 # 2] = inr out /\
    Forall2 Qeq out [0; 1 # 2] /\
    ~ Forall2 Qeq out (spec_scale [0; 1 # 2] true 1).
Proof.
  cbv zeta. repeat split; try reflexivity.
  - vm_compute. repeat constructor.
  - eexists. split; [vm_compute; reflexivity|]. split.
    + repeat constructor.
    + intros H. inversion H as [|? ? ? ? _ H2]; subst.
      inversion H2 as [|? ? ? ? Hne _]; subst.
      vm_compute in Hne. discriminate.
Qed.

End Scaling.

(** ** Channel extractors and the row window *)

Section Extractors.

Local Open Scope Q_scope.

Lemma csv_append_row_map (row : list Cell) (g : nat -> list Q) (n : nat) :
  forall i,
  csv_append_row i row (map g (seq i n))
  = map (fun j => g j ++ [csv_cell j row]) (seq i n).
Proof.
  induction n as [|n IH]; intros i; [reflexivity|].
  cbn [seq map csv_append_row]. rewrite IH. reflexivity.
Qed.

Lemma csv_append_rows (n : nat) (rows : list (list Cell)) :
  forall done : list (list Cell),
  fold_left (fun columns row => csv_append_row 0 row columns) rows
            (map (fun j => map (csv_cell j) done) (seq 0 n))
  = map (fun j => map (csv_cell j) (done ++ rows)) (seq 0 n).
Proof.
  induction rows as [|row rows IH]; intros done; cbn [fold_left].
  - rewrite app_nil_r. reflexivity.
  - rewrite csv_append_row_map.
    replace (map (fun j => map (csv_cell j) done ++ [csv_cell j row]) (seq 0 n))
      with (map (fun j => map (csv_cell j) (done ++ [row])) (seq 0 n)).
    + rewrite IH, <- app_assoc. reflexivity.
    + apply map_ext. intros j. rewrite map_app. reflexivity.
Qed.

Lemma repeat_nil_columns (n : nat) :
  forall i, repeat (@nil Q) n = map (fun j => map (csv_cell j) []) (seq i n).
Proof. induction n as [|n IH]; intros i; cbn; [|rewrite <- IH]; reflexivity. Qed.

(** The reading loop of the tabular extractor keeps exactly the rows of
    the window. *)
Lemma csv_loop_window (s : AWG_AD9106) (rows : list (list Cell)) :
  forall rowCount columns,
  csv_loop s rows false rowCount columns
  = fold_left (fun columns row => csv_append_row 0 row columns)
              (spec_window (_startingRowToRead s) (_maxRowsToRead s)
                           rowCount rows)
              columns.
Proof.
  induction rows as [|row rows IH]; intros rowCount columns; [reflexivity|].
  cbn [csv_loop spec_window].
  destruct (rowCount <? _startingRowToRead s)%Z; [apply IH|].
  destruct (Z.gtb_spec (rowCount + 1) (_startingRowToRead s + _maxRowsToRead s));
    destruct (Z.geb_spec rowCount (_startingRowToRead s + _maxRowsToRead s));
    try lia; [reflexivity|].
  cbn [fold_left]. apply IH.
Qed.

Lemma csv_loop_header (s : AWG_AD9106) (rows : list (list Cell))
    (rowCount : Z) (columns : list (list Q)) :
  csv_loop s rows true rowCount columns
  = csv_loop s (tl rows) false rowCount columns.
Proof. destruct rows; reflexivity. Qed.

(** The tabular extractor returns the columns of the windowed data rows. *)
Lemma csv_columns_window (s : AWG_AD9106) (sniffedHeader : bool)
    (rows : list (list Cell)) :
  let hasHeader :=
    if (_hasCsvHeader s =? AUTO_DETECT)%Z then sniffedHeader
    else (_hasCsvHeader s >? 0)%Z in
  csv_columns s sniffedHeader rows
  = spec_csv_columns (_startingRowToRead s) (_maxRowsToRead s)
                     (csv_maxColumns rows hasHeader O)
                     (if hasHeader then tl rows else rows).
Proof.
  cbv zeta. unfold csv_columns, spec_csv_columns.
  set (hasHeader := if (_hasCsvHeader s =? AUTO_DETECT)%Z then sniffedHeader
                    else (_hasCsvHeader s >? 0)%Z).
  set (n := csv_maxColumns rows hasHeader O).
  assert (H : forall data,
             csv_loop s data false 0 (repeat [] n)
             = map (fun j =>
                      map (fun row => if (List.length row <=? j)%nat then 0
                                      else _safeConvertToFloat (nth_error row j))
                          (spec_window (_startingRowToRead s)
                                       (_maxRowsToRead s) 0 data))
                   (seq 0 n)).
  { intros data. rewrite csv_loop_window, (repeat_nil_columns n 0).
    rewrite csv_append_rows. reflexivity. }
  destruct hasHeader; [rewrite csv_loop_header|]; apply H.
Qed.

(** C3: the 8-bit branch appends [raw / 127.75 - 1.0] for a raw byte (the
    divisor is [511 / 4.0]), so 0 maps to -1.0 and 255 to 509/511, about
    0.9961, but 128 maps to 1/511 and not to 0.0; the formula
    [raw / 127.5 - 1.0] would send 128 to 1/255 and 255 to 1.0. *)
Theorem wav8_sample_values :
  (forall raw,
     wav8_sample raw == inject_Z (byte_value raw) / (12775 # 100) - 1) /\
  wav8_sample (ascii_of_nat 0) == -(1) /\
  wav8_sample (ascii_of_nat 255) == 509 # 511 /\
  Qabs (wav8_sample (ascii_of_nat 255) - (9961 # 10000)) < 1 # 10000 /\
  wav8_sample (ascii_of_nat 128) == 1 # 511 /\
  ~ wav8_sample (ascii_of_nat 128) == 0 /\
  spec_wav8_sample (ascii_of_nat 128) == 1 # 255 /\
  spec_wav8_sample (ascii_of_nat 255) == 1 /\
  wav_channels dry_run_session 1 1 (map ascii_of_nat [128; 128; 255; 0]%nat)
  = inr [map wav8_sample (map ascii_of_nat [128; 128; 255; 0]%nat)].
Proof.
  repeat apply conj; try (vm_compute; reflexivity).
  - intros raw. unfold wav8_sample, DIVISOR, MAX_SRAM_VALUE.
    generalize (inject_Z (byte_value raw)). intros q.
    change (inject_Z 511) with 511. field.
  - vm_compute. discriminate.
Qed.

(** C4: the tabular extractor keeps the columns of the rows of the window,
    but the 8-bit audio branch counts bytes instead of frames: on the
    stereo frames (10,20) (30,40) with start offset 1 and at most 1 row,
    the frame window holds frame (30,40) and the branch returns the sample
    of byte 20 as channel 0 and nothing as channel 1, on which the load
    then fails.  The multi-byte
    branch counts frames but appends the first channel of the frame after
    the window before it stops. *)
Theorem audio_window_counts_bytes :
  (forall s sniffedHeader rows,
     csv_columns s sniffedHeader rows
     = spec_csv_columns
         (_startingRowToRead s) (_maxRowsToRead s)
         (csv_maxColumns rows
            (if (_hasCsvHeader s =? AUTO_DETECT)%Z then sniffedHeader
             else (_hasCsvHeader s >? 0)%Z) O)
         (if (if (_hasCsvHeader s =? AUTO_DETECT)%Z then sniffedHeader
              else (_hasCsvHeader s >? 0)%Z)
          then tl rows else rows)) /\
  (let s := setLoadParameters (Some 1%Z) None (Some 1%Z) None None None None
                              None None None dry_run_session in
   let data := map ascii_of_nat [10; 20; 30; 40]%nat in
   spec_wav8_channels 1 1 2 data
   = [[wav8_sample (ascii_of_nat 30)]; [wav8_sample (ascii_of_nat 40)]] /\
   wav_channels s 2 1 data = inr [[wav8_sample (ascii_of_nat 20)]; []] /\
   loadNumbersFromWAV s true 2 1 data = inl IndexError) /\
  (let s := setLoadParameters (Some 0%Z) None (Some 1%Z) None None None None
                              None None None dry_run_session in
   let data := map ascii_of_nat [1; 0; 2; 0; 3; 0; 4; 0]%nat in
   wav_channels s 2 2 data = inr [[1 # 32768; 3 # 32768]; [2 # 32768]]).
Proof.
  split; [|split].
  - intros s sniffedHeader rows. apply csv_columns_window.
  - cbv zeta. repeat split; vm_compute; reflexivity.
  - vm_compute. reflexivity.
Qed.

End Extractors.

(** ** Padding and normalisation *)

Section Stages.

Local Open Scope Q_scope.

Lemma padRowsToWrite_length (s : AWG_AD9106) (valuesToPad : list Q) :
  Z.of_nat (List.length (_padRowsToWrite s valuesToPad))
  = Z.max (Z.of_nat (List.length valuesToPad)) (_maxRowsToWrite s).
Proof.
  unfold _padRowsToWrite.
  destruct (Z.ltb_spec (Z.of_nat (List.length valuesToPad)) (_maxRowsToWrite s));
    rewrite ?length_app, ?repeat_length; lia.
Qed.

(** X1: [_padRowsToWrite] returns a list as long as the longer of its
    input and [maxRowsToWrite]; the input is its prefix, and every position
    added holds the last value of the input (the input being empty, 0.0). *)
Theorem padRowsToWrite_extends (s : AWG_AD9106) (valuesToPad : list Q) :
  let out := _padRowsToWrite s valuesToPad in
  Z.of_nat (List.length out)
  = Z.max (Z.of_nat (List.length valuesToPad)) (_maxRowsToWrite s) /\
  firstn (List.length valuesToPad) out = valuesToPad /\
  (forall i,
     (List.length valuesToPad <= i < List.length out)%nat ->
     nth_error out i = Some (last valuesToPad 0)).
Proof.
  cbv zeta. unfold _padRowsToWrite.
  destruct (Z.ltb_spec (Z.of_nat (List.length valuesToPad)) (_maxRowsToWrite s))
    as [Hlt|Hge].
  - repeat split.
    + rewrite length_app, repeat_length. lia.
    + rewrite firstn_app, Nat.sub_diag, firstn_all. cbn. apply app_nil_r.
    + intros i [Hlo Hhi]. rewrite length_app, repeat_length in Hhi.
      rewrite nth_error_app2 by exact Hlo.
      apply nth_error_repeat. lia.
  - repeat split.
    + lia.
    + apply firstn_all.
    + intros i Hi. lia.
Qed.

Lemma padRowsToWrite_extends_witness :
  nth_error
    (_padRowsToWrite
       (setLoadParameters None (Some 4%Z) None None None None None None None
                          None dry_run_session)
       [1; 2]) 3
  = Some 2.
Proof.
  apply (proj2 (proj2 (padRowsToWrite_extends
                         (setLoadParameters None (Some 4%Z) None None None
                                            None None None None None
                                            dry_run_session)
                         [1; 2]))).
  vm_compute. lia.
Defined.

Lemma clamp_unit_bounds (x : Q) : -(1) <= Qmax (-(1)) (Qmin 1 x) <= 1.
Proof.
  split; [apply Q.le_max_l|].
  apply Q.max_lub; [lra | apply Q.le_min_l].
Qed.

Lemma clamp_unit_inside (x : Q) :
  -(1) <= x -> x <= 1 -> Qmax (-(1)) (Qmin 1 x) == x.
Proof.
  intros Hlo Hhi. rewrite (Q.min_r 1 x Hhi). apply Q.max_r. exact Hlo.
Qed.

Lemma normalizeValue_swap (value r0 r1 : Q) (rest rest' : list Q) :
  _normalizeValue value (Some (r0 :: r1 :: rest))
  = _normalizeValue value (Some (r1 :: r0 :: rest')).
Proof.
  unfold _normalizeValue.
  destruct (Qlt_le_dec r1 r0) as [H|H], (Qlt_le_dec r0 r1) as [H'|H'];
    try reflexivity; try lra.
  replace (Qeq_bool (r1 - r0) 0) with true
    by (symmetry; apply Qeq_bool_iff; lra).
  replace (Qeq_bool (r0 - r1) 0) with true
    by (symmetry; apply Qeq_bool_iff; lra).
  reflexivity.
Qed.

Lemma normalizeValue_bounds (value : Q) (channelRange : ChannelRange) :
  -(1) <= _normalizeValue value channelRange <= 1.
Proof.
  unfold _normalizeValue.
  destruct (match channelRange with
            | Some (r0 :: r1 :: _) => (r0, r1)
            | _ => DEFAULT_RANGE
            end) as [r0 r1].
  destruct (Qlt_le_dec r1 r0);
    match goal with
    | |- context [Qeq_bool ?w 0] => destruct (Qeq_bool w 0)
    end; try lra; apply clamp_unit_bounds.
Qed.

(** X2: [_normalizeValue] returns a value of [-1, 1] for every value
    and every range; a range whose two bounds are equal gives 0.0; and a
    range written (high, low) gives what (low, high) gives, so that the
    exchange of the two bounds the source does inside the list of the range
    changes no later result. *)
Theorem normalizeValue_range (value : Q) (channelRange : ChannelRange) :
  -(1) <= _normalizeValue value channelRange <= 1 /\
  (forall r0 r1 rest,
     channelRange = Some (r0 :: r1 :: rest) -> r0 == r1 ->
     _normalizeValue value channelRange = 0) /\
  (forall r0 r1 rest rest',
     _normalizeValue value (Some (r0 :: r1 :: rest))
     = _normalizeValue value (Some (r1 :: r0 :: rest'))).
Proof.
  split; [apply normalizeValue_bounds|]. split.
  - intros r0 r1 rest -> Heq. unfold _normalizeValue.
    destruct (Qlt_le_dec r1 r0) as [Hlt|Hle]; [lra|].
    replace (Qeq_bool (r1 - r0) 0) with true; [reflexivity|].
    symmetry. apply Qeq_bool_iff. lra.
  - intros r0 r1 rest rest'. apply normalizeValue_swap.
Qed.

Lemma normalizeValue_range_witness :
  -(1) <= _normalizeValue 7 (Some [3; 3]) <= 1 /\
  _normalizeValue 7 (Some [3; 3]) = 0.
Proof.
  destruct (normalizeValue_range 7 (Some [3; 3])) as (H1 & H2 & _).
  split; [exact H1 | apply (H2 3 3 []); reflexivity].
Defined.

(** The normalisation inside an ordered, non-degenerate range. *)
Lemma normalizeValue_ordered (value lo hi : Q) (rest : list Q) :
  lo < hi ->
  _normalizeValue value (Some (lo :: hi :: rest))
  = Qmax (-(1)) (Qmin 1 ((value - lo) * 2 / (hi - lo) + -(1))).
Proof.
  intros Hlt. unfold _normalizeValue.
  destruct (Qlt_le_dec hi lo) as [H|H]; [lra|].
  replace (Qeq_bool (hi - lo) 0) with false; [reflexivity|].
  symmetry. apply not_true_iff_false. rewrite Qeq_bool_iff. lra.
Qed.

(** X3: for a range low < high, [_normalizeValue] sends low to -1.0
    and high to 1.0, is [2 * (value - low) / (high - low) - 1] between
    them, stays at -1.0 below low and at 1.0 above high, and reads the
    range written (high, low) alike. *)
Theorem normalizeValue_linear (value lo hi : Q) (rest : list Q) :
  lo < hi ->
  _normalizeValue lo (Some (lo :: hi :: rest)) == -(1) /\
  _normalizeValue hi (Some (lo :: hi :: rest)) == 1 /\
  (lo <= value <= hi ->
   _normalizeValue value (Some (lo :: hi :: rest))
   == 2 * (value - lo) / (hi - lo) - 1) /\
  (value <= lo -> _normalizeValue value (Some (lo :: hi :: rest)) == -(1)) /\
  (hi <= value -> _normalizeValue value (Some (lo :: hi :: rest)) == 1) /\
  _normalizeValue value (Some (hi :: lo :: rest))
  = _normalizeValue value (Some (lo :: hi :: rest)).
Proof.
  intros Hlt.
  assert (Hw : 0 < hi - lo) by lra.
  assert (Hinv : 0 < / (hi - lo)) by (apply Qinv_lt_0_compat; exact Hw).
  assert (Hlin : forall v,
             (v - lo) * 2 / (hi - lo) + -(1) == 2 * (v - lo) / (hi - lo) - 1)
    by (intros v; field; lra).
  assert (Hmono : forall v w,
             v <= w ->
             2 * (v - lo) / (hi - lo) - 1 <= 2 * (w - lo) / (hi - lo) - 1).
  { intros v w Hvw. unfold Qdiv.
    assert (2 * (v - lo) * / (hi - lo) <= 2 * (w - lo) * / (hi - lo))
      by (apply Qmult_le_compat_r; lra).
    lra. }
  assert (Hat_lo : 2 * (lo - lo) / (hi - lo) - 1 == -(1)) by (field; lra).
  assert (Hat_hi : 2 * (hi - lo) / (hi - lo) - 1 == 1) by (field; lra).
  assert (Hinside : forall v,
             lo <= v <= hi ->
             _normalizeValue v (Some (lo :: hi :: rest))
             == 2 * (v - lo) / (hi - lo) - 1).
  { intros v [Hl Hh]. rewrite (normalizeValue_ordered v rest Hlt).
    pose proof (Hmono lo v Hl) as B1. pose proof (Hmono v hi Hh) as B2.
    rewrite clamp_unit_inside; rewrite ?Hlin; lra. }
  repeat split.
  - rewrite Hinside; lra.
  - rewrite Hinside; lra.
  - apply Hinside.
  - intros Hle. rewrite (normalizeValue_ordered value rest Hlt).
    pose proof (Hmono value lo Hle) as B. rewrite <- Hlin in B.
    rewrite Hat_lo in B.
    rewrite Q.max_l; [reflexivity|].
    eapply Qle_trans; [apply Q.le_min_r | exact B].
  - intros Hge. rewrite (normalizeValue_ordered value rest Hlt).
    pose proof (Hmono hi value Hge) as B. rewrite <- (Hlin value) in B.
    rewrite Hat_hi in B.
    rewrite (Q.min_l 1 _ B). apply Q.max_r. lra.
  - apply normalizeValue_swap.
Qed.

Lemma normalizeValue_linear_witness :
  _normalizeValue 0 (Some [0; 10]) == -(1) /\
  _normalizeValue 10 (Some [0; 10]) == 1 /\
  _normalizeValue 4 (Some [0; 10]) == 2 * (4 - 0) / (10 - 0) - 1.
Proof.
  assert (H : 0 < 10) by reflexivity.
  destruct (@normalizeValue_linear 4 0 10 [] H) as (H1 & H2 & H3 & _).
  split; [exact H1 | split; [exact H2 | apply H3; split; discriminate]].
Defined.

(** X4: [_normalizeValue] is monotonic non-decreasing in the value,
    for every range: missing, shorter than two, reversed or of width zero
    included. *)
Theorem normalizeValue_monotone (v w : Q) (channelRange : ChannelRange) :
  v <= w -> _normalizeValue v channelRange <= _normalizeValue w channelRange.
Proof.
  intros Hvw. unfold _normalizeValue.
  destruct (match channelRange with
            | Some (r0 :: r1 :: _) => (r0, r1)
            | _ => DEFAULT_RANGE
            end) as [a c].
  assert (Hgen : forall lo hi,
             lo <= hi ->
             (if Qeq_bool (hi - lo) 0 then 0
              else Qmax (fst DEFAULT_RANGE)
                        (Qmin (snd DEFAULT_RANGE)
                              ((v - lo) * 2 / (hi - lo) + fst DEFAULT_RANGE)))
             <= (if Qeq_bool (hi - lo) 0 then 0
                 else Qmax (fst DEFAULT_RANGE)
                           (Qmin (snd DEFAULT_RANGE)
                                 ((w - lo) * 2 / (hi - lo) + fst DEFAULT_RANGE)))).
  { intros lo hi Hle. destruct (Qeq_bool (hi - lo) 0) eqn:E; [lra|].
    assert (Hne : ~ hi - lo == 0).
    { intros H. apply Qeq_bool_iff in H. congruence. }
    assert (Hinv : 0 < / (hi - lo)) by (apply Qinv_lt_0_compat; lra).
    apply Q.max_le_compat_l, Q.min_le_compat_l.
    unfold Qdiv.
    assert ((v - lo) * 2 * / (hi - lo) <= (w - lo) * 2 * / (hi - lo))
      by (apply Qmult_le_compat_r; lra).
    cbn [fst DEFAULT_RANGE]. lra. }
  destruct (Qlt_le_dec c a) as [H|H]; apply Hgen; lra.
Qed.

Lemma normalizeValue_monotone_witness :
  _normalizeValue (1 # 4) None <= _normalizeValue (1 # 2) None.
Proof. apply normalizeValue_monotone. discriminate. Defined.

Lemma copyListAndForceLength_lookup (A : Type) (listInput : option (list A))
    (length : nat) (fillValue : A) (i : nat) :
  (i < length)%nat ->
  nth_error (_copyListAndForceLength listInput length fillValue) i
  = if (i <? List.length match listInput with Some l => l | None => [] end)%nat
    then nth_error match listInput with Some l => l | None => [] end i
    else Some fillValue.
Proof.
  intros Hi. unfold _copyListAndForceLength.
  set (source := match listInput with Some l => l | None => [] end).
  destruct (Nat.ltb_spec (List.length source) length) as [Hshort|Hlong].
  - rewrite nth_error_firstn.
    replace (i <? length)%nat with true by (symmetry; apply Nat.ltb_lt; exact Hi).
    destruct (Nat.ltb_spec i (List.length source)) as [Hin|Hout].
    + apply nth_error_app1. exact Hin.
    + rewrite nth_error_app2 by exact Hout. apply nth_error_repeat. lia.
  - rewrite nth_error_firstn.
    replace (i <? length)%nat with true by (symmetry; apply Nat.ltb_lt; exact Hi).
    replace (i <? List.length source)%nat with true
      by (symmetry; apply Nat.ltb_lt; lia).
    reflexivity.
Qed.

(** X5: [_copyListAndForceLength] returns exactly [length] items:
    the items of the input in order as far as they go, then the fill value;
    an input that is [None] counts as the empty list. *)
Theorem copyListAndForceLength_content (A : Type) (listInput : option (list A))
    (length : nat) (fillValue : A) :
  let source := match listInput with Some l => l | None => [] end in
  let out := _copyListAndForceLength listInput length fillValue in
  List.length out = length /\
  firstn (Nat.min length (List.length source)) out
  = firstn length source /\
  (forall i, (i < length)%nat ->
     nth_error out i
     = if (i <? List.length source)%nat then nth_error source i
       else Some fillValue).
Proof.
  cbv zeta. split; [apply copyListAndForceLength_length|]. split.
  - unfold _copyListAndForceLength.
    set (source := match listInput with Some l => l | None => [] end).
    destruct (Nat.ltb_spec (List.length source) length) as [Hshort|Hlong].
    + rewrite firstn_firstn.
      replace (Nat.min (Nat.min length (List.length source)) length)
        with (List.length source) by lia.
      rewrite firstn_app, Nat.sub_diag, firstn_all. cbn [firstn].
      rewrite app_nil_r. symmetry. apply firstn_all2. lia.
    + rewrite firstn_firstn. f_equal. lia.
  - intros i Hi. apply copyListAndForceLength_lookup. exact Hi.
Qed.

Lemma copyListAndForceLength_content_witness :
  nth_error (_copyListAndForceLength (Some [5; 6]) 3 0) 2 = Some 0 /\
  nth_error (_copyListAndForceLength (Some [5; 6; 7; 8]) 3 0) 2 = Some 7.
Proof.
  split.
  - apply (proj2 (proj2 (copyListAndForceLength_content (Some [5; 6]) 3 0))
                 2%nat).
    repeat constructor.
  - apply (proj2 (proj2 (copyListAndForceLength_content (Some [5; 6; 7; 8]) 3 0))
                 2%nat).
    repeat constructor.
Defined.

End Stages.

(** ** Combiner *)

Section CombinerBounds.

Local Open Scope Q_scope.

(** The total weight, summed over the indices of the weight list. *)
Lemma weightTotal_by_index (weights : list Q) :
  forall t,
  fold_left (fun t w => t + Qabs w) weights t
  = fold_left (fun t j => t + Qabs (nth j weights 0))
              (seq 0 (List.length weights)) t.
Proof.
  induction weights as [|w ws IH] using rev_ind; intros t; [reflexivity|].
  rewrite length_app, Nat.add_comm. cbn [List.length Nat.add].
  rewrite seq_S, !fold_left_app. cbn [fold_left Nat.add].
  rewrite app_nth2, Nat.sub_diag by lia. cbn [nth].
  f_equal. rewrite IH. clear IH.
  assert (H : forall js a,
             (forall j, In j js -> (j < List.length ws)%nat) ->
             fold_left (fun t j => t + Qabs (nth j ws 0)) js a
             = fold_left (fun t j => t + Qabs (nth j (ws ++ [w]) 0)) js a).
  { induction js as [|j js IHjs]; intros a Hjs; [reflexivity|].
    cbn [fold_left]. rewrite app_nth1 by (apply Hjs; left; reflexivity).
    apply IHjs. intros j' Hj'. apply Hjs. right. exact Hj'. }
  apply H. intros j Hj. apply in_seq in Hj. lia.
Qed.

(** A sum of terms each bounded by its weight is bounded by the total
    weight. *)
Lemma weighted_sum_bound (c wabs : nat -> Q) (js : list nat) :
  (forall j, Qabs (c j) <= wabs j) ->
  forall a t,
  Qabs a <= t ->
  Qabs (fold_left (fun acc j => acc + c j) js a)
  <= fold_left (fun t j => t + wabs j) js t.
Proof.
  intros Hc. induction js as [|j js IH]; intros a t Hat; [exact Hat|].
  cbn [fold_left]. apply IH.
  eapply Qle_trans; [apply Qabs_triangle|].
  specialize (Hc j). lra.
Qed.

Lemma spec_contribution_bound (channels : list (list Q))
    (ranges : list ChannelRange) (weights : list Q) (i j : nat) :
  Qabs (spec_contribution channels ranges weights i j)
  <= Qabs (nth j weights 0).
Proof.
  unfold spec_contribution.
  destruct (nth_error (nth j channels []) i) as [v|].
  - rewrite Qabs_Qmult.
    destruct (normalizeValue_bounds v (nth j ranges None)) as [Hlo Hhi].
    assert (HN : Qabs (_normalizeValue v (nth j ranges None)) <= 1)
      by (apply Qabs_Qle_condition; split; assumption).
    pose proof (Qabs_nonneg (nth j weights 0)) as Hw.
    pose proof (Qabs_nonneg (_normalizeValue v (nth j ranges None))) as HN0.
    nra.
  - apply Qabs_nonneg.
Qed.

Lemma spec_combine_bounded (channels : list (list Q))
    (ranges : list ChannelRange) (weights : list Q) :
  List.length weights = List.length channels ->
  Forall (fun x => -(1) <= x <= 1) (spec_combine channels ranges weights).
Proof.
  intros Hlen. unfold spec_combine. apply Forall_forall.
  intros x Hx. apply in_map_iff in Hx. destruct Hx as (i & <- & _).
  cbv zeta.
  set (total := fold_left (fun t w => t + Qabs w) weights 0).
  set (sum := fold_left _ (seq 0 (List.length channels)) 0).
  destruct (Qeq_bool total 0) eqn:E; [lra|].
  assert (Hnn : 0 <= total) by (apply weightTotal_nonneg; lra).
  assert (Hpos : 0 < total).
  { destruct (Qlt_le_dec 0 total) as [H|H]; [exact H|].
    exfalso. apply not_true_iff_false in E. apply E, Qeq_bool_iff. lra. }
  assert (Hb : Qabs sum <= total).
  { unfold sum, total. rewrite weightTotal_by_index, Hlen.
    apply (weighted_sum_bound
             (fun j => spec_contribution channels ranges weights i j)
             (fun j => Qabs (nth j weights 0))).
    - intros j. apply spec_contribution_bound.
    - cbn. lra. }
  apply Qabs_Qle_condition in Hb. destruct Hb as [Hlo Hhi].
  split.
  - apply Qle_shift_div_l; [exact Hpos | lra].
  - apply Qle_shift_div_r; [exact Hpos | lra].
Qed.

(** X6: when the column selection is accepted, on channels of one
    common length [m] (one channel at least) the combiner returns [m]
    values, each of [-1, 1], whatever the weights and the ranges are. *)
Theorem weightedAverageChannels_bounded (s : AWG_AD9106)
    (channels : list (list Q)) (channelRanges : list ChannelRange)
    (weights : list Q) (m : nat) :
  columnWeights_for s (List.length channels) = inr weights ->
  channels <> [] ->
  (forall c, In c channels -> List.length c = m) ->
  exists out,
    _weightedAverageChannels s channels channelRanges = inr out /\
    List.length out = m /\
    Forall (fun x => -(1) <= x <= 1) out.
Proof.
  intros Hw Hne Hall.
  rewrite (weightedAverageChannels_equal_lengths s channels channelRanges Hw Hall).
  eexists. split; [reflexivity|]. split.
  - unfold spec_combine. rewrite length_map, length_seq.
    apply longest_equal_lengths; assumption.
  - apply spec_combine_bounded. apply (columnWeights_for_length _ _ Hw).
Qed.

Lemma weightedAverageChannels_bounded_witness :
  exists out,
    _weightedAverageChannels dry_run_session [[3; -(5)]; [1 # 2; 0]] []
    = inr out /\
    List.length out = 2%nat /\
    Forall (fun x => -(1) <= x <= 1) out.
Proof.
  apply (@weightedAverageChannels_bounded dry_run_session
           [[3; -(5)]; [1 # 2; 0]] [] [1; 1] 2%nat).
  - reflexivity.
  - discriminate.
  - intros c [<-|[<-|[]]]; reflexivity.
Defined.

Lemma fold_add_compat (c : nat -> Q) (js : list nat) :
  forall a a', a == a' ->
  fold_left (fun acc j => acc + c j) js a
  == fold_left (fun acc j => acc + c j) js a'.
Proof.
  induction js as [|j js IH]; intros a a' H; [exact H|].
  cbn [fold_left]. apply IH. rewrite H. reflexivity.
Qed.

Lemma fold_add_zeros (c : nat -> Q) (js : list nat) :
  (forall j, In j js -> c j == 0) ->
  forall a, fold_left (fun acc j => acc + c j) js a == a.
Proof.
  induction js as [|j js IH]; intros Hz a; [reflexivity|].
  cbn [fold_left]. rewrite IH by (intros j' Hj'; apply Hz; right; exact Hj').
  rewrite (Hz j (or_introl eq_refl)). ring.
Qed.

(** A sum over [0 .. n-1] whose only non-zero term is the one at [k]. *)
Lemma fold_add_single (c : nat -> Q) (k n : nat) :
  (k < n)%nat ->
  (forall j, j <> k -> c j == 0) ->
  forall a, fold_left (fun acc j => acc + c j) (seq 0 n) a == a + c k.
Proof.
  intros Hk Hz a.
  replace n with (k + S (n - S k))%nat by lia.
  rewrite seq_app, fold_left_app. cbn [seq fold_left Nat.add].
  rewrite fold_add_zeros.
  - apply Qplus_comp; [|reflexivity].
    apply fold_add_zeros. intros j Hj. apply in_seq in Hj. apply Hz. lia.
  - intros j Hj. apply in_seq in Hj. apply Hz. lia.
Qed.

Lemma nth_list_set (A : Type) (l : list A) (d v : A) :
  forall k j, (k < List.length l)%nat ->
  nth j (list_set l k v) d = if (j =? k)%nat then v else nth j l d.
Proof.
  induction l as [|x l IH]; intros k j Hk; [cbn in Hk; lia|].
  destruct k as [|k], j as [|j]; cbn; try reflexivity.
  apply IH. cbn in Hk. lia.
Qed.

(** The weight list of a selected channel: one-hot at the selected index,
    counted from the end when the index is negative. *)
Lemma columnWeights_for_selected (s : AWG_AD9106) (n : nat) (sel : Z) :
  _columnSelected s = Some sel ->
  (sel < Z.of_nat n)%Z ->
  (0 <= (if (sel <? 0)%Z then sel + Z.of_nat n else sel))%Z ->
  columnWeights_for s n
  = inr (list_set (repeat 0 n)
                  (Z.to_nat (if (sel <? 0)%Z then sel + Z.of_nat n else sel))
                  1).
Proof.
  intros Hsel Hlt Hk. unfold columnWeights_for. rewrite Hsel.
  replace (Z.of_nat n <=? sel)%Z with false
    by (symmetry; apply Z.leb_gt; lia).
  unfold py_setitem. rewrite repeat_length.
  set (k := if (sel <? 0)%Z then (sel + Z.of_nat n)%Z else sel) in *.
  assert (Hkn : (k < Z.of_nat n)%Z).
  { subst k. destruct (Z.ltb_spec sel 0); lia. }
  replace ((0 <=? k) && (k <? Z.of_nat n))%Z with true
    by (symmetry; apply andb_true_iff; split;
        [apply Z.leb_le | apply Z.ltb_lt]; lia).
  unfold _copyListAndForceLength.
  rewrite list_set_length, repeat_length, Nat.ltb_irrefl.
  rewrite firstn_all2; [reflexivity|].
  rewrite list_set_length, repeat_length. lia.
Qed.

(** X7: with a selected column between [-n] and [n - 1] for [n]
    channels of one common length [m] (a negative index counting from the
    last channel), the combiner returns the [m] values of that channel,
    each normalised with the range of the channel; no other channel
    contributes. *)
Theorem selected_channel_is_output (s : AWG_AD9106)
    (channels : list (list Q)) (channelRanges : list ChannelRange)
    (sel : Z) (m : nat) :
  let n := List.length channels in
  let k := Z.to_nat (if (sel <? 0)%Z then sel + Z.of_nat n else sel) in
  _columnSelected s = Some sel ->
  (- Z.of_nat n <= sel < Z.of_nat n)%Z ->
  (forall c, In c channels -> List.length c = m) ->
  exists out,
    _weightedAverageChannels s channels channelRanges = inr out /\
    List.length out = m /\
    (forall i, (i < m)%nat ->
       exists x,
         nth_error out i = Some x /\
         x == _normalizeValue (nth i (nth k channels []) 0)
                              (nth k channelRanges None)).
Proof.
  intros n k Hsel Hrange Hall.
  assert (Hkz : (0 <= (if (sel <? 0)%Z then sel + Z.of_nat n else sel)
                 < Z.of_nat n)%Z)
    by (destruct (Z.ltb_spec sel 0); lia).
  assert (Hk : (k < n)%nat) by (subst k; lia).
  assert (Hne : channels <> []).
  { intros H. subst n. rewrite H in Hk. cbn in Hk. lia. }
  assert (Hw : columnWeights_for s n
               = inr (list_set (repeat 0 n) k 1)).
  { apply columnWeights_for_selected; [exact Hsel | lia | lia]. }
  set (weights := list_set (repeat 0 n) k 1) in *.
  assert (Hwk : forall j, nth j weights 0 = if (j =? k)%nat then 1 else 0).
  { intros j. unfold weights. rewrite nth_list_set by (rewrite repeat_length; exact Hk).
    destruct (j =? k)%nat; [reflexivity|].
    destruct (Nat.lt_ge_cases j n) as [Hj|Hj].
    - apply nth_repeat_lt. exact Hj.
    - apply nth_overflow. rewrite repeat_length. exact Hj. }
  assert (Hwlen : List.length weights = n)
    by (unfold weights; rewrite list_set_length, repeat_length; reflexivity).
  rewrite (weightedAverageChannels_equal_lengths s channels channelRanges Hw Hall).
  set (ranges := _copyListAndForceLength (Some channelRanges) n None).
  assert (Hrk : nth k ranges None = nth k channelRanges None).
  { pose proof (copyListAndForceLength_lookup (Some channelRanges) None Hk)
      as Hc.
    cbv beta iota in Hc. fold ranges in Hc.
    destruct (Nat.ltb_spec k (List.length channelRanges)) as [Hin|Hout].
    - rewrite (nth_error_nth' channelRanges None Hin) in Hc.
      apply (nth_error_nth ranges k None Hc).
    - rewrite (nth_error_nth ranges k None Hc).
      symmetry. apply nth_overflow. exact Hout. }
  assert (Hlongest :
            fold_right Nat.max O (map (@List.length Q) channels) = m)
    by (apply longest_equal_lengths; assumption).
  eexists. split; [reflexivity|]. split.
  - unfold spec_combine. rewrite length_map, length_seq. exact Hlongest.
  - intros i Hi. unfold spec_combine. cbv zeta. rewrite Hlongest.
    eexists. split.
    + rewrite nth_error_map, nth_error_seq.
      replace (i <? m)%nat with true by (symmetry; apply Nat.ltb_lt; exact Hi).
      cbn [option_map Nat.add]. reflexivity.
    + cbv beta. fold n. fold ranges.
      set (total := fold_left (fun t w => t + Qabs w) weights 0).
      assert (Htotal : total == 1).
      { unfold total. rewrite weightTotal_by_index, Hwlen.
        rewrite (fold_add_single (fun j => Qabs (nth j weights 0)) Hk).
        - rewrite Hwk, Nat.eqb_refl. reflexivity.
        - intros j Hj. rewrite Hwk.
          replace (j =? k)%nat with false
            by (symmetry; apply Nat.eqb_neq; exact Hj).
          reflexivity. }
      replace (Qeq_bool total 0) with false.
      2:{ symmetry. apply not_true_iff_false. rewrite Qeq_bool_iff, Htotal.
          discriminate. }
      rewrite (fold_add_single
                 (fun j => spec_contribution channels ranges weights i j) Hk).
      * unfold spec_contribution. rewrite Hwk, Nat.eqb_refl, Hrk.
        assert (Hlen_k : List.length (nth k channels []) = m)
          by (apply Hall, nth_In; exact Hk).
        rewrite (nth_error_nth' (nth k channels []) 0)
          by (rewrite Hlen_k; exact Hi).
        rewrite Htotal. field.
      * intros j Hj. unfold spec_contribution. rewrite Hwk.
        replace (j =? k)%nat with false
          by (symmetry; apply Nat.eqb_neq; exact Hj).
        destruct (nth_error (nth j channels []) i); ring.
Qed.

Lemma selected_channel_is_output_witness :
  exists out,
    _weightedAverageChannels
      (setLoadParameters None None None None None None (Some 1%Z) None None
                         None dry_run_session)
      [[1 # 4; 1 # 2]; [5; 10]] [None; Some [0; 10]] = inr out /\
    List.length out = 2%nat /\
    (forall i, (i < 2)%nat ->
       exists x,
         nth_error out i = Some x /\
         x == _normalizeValue (nth i [5; 10] 0) (Some [0; 10])).
Proof.
  apply (@selected_channel_is_output
           (setLoadParameters None None None None None None (Some 1%Z) None
                              None None dry_run_session)
           [[1 # 4; 1 # 2]; [5; 10]] [None; Some [0; 10]] 1%Z 2%nat).
  - reflexivity.
  - cbn. lia.
  - intros c [<-|[<-|[]]]; reflexivity.
Defined.

End CombinerBounds.

(** ** Scaling *)

Section ScalingPeak.

Local Open Scope Q_scope.







End ScalingPeak.

(** ** Quantisation error *)

Section QuantizerError.

Local Open Scope Q_scope.




End QuantizerError.

(** ** Command lines *)

Section CommandLines.

Local Open Scope nat_scope.

Lemma split_lines_body (body : bytes) :
  forallb (fun c => negb (is_separator c)) body = true ->
  forall cur rest,
  split_lines cur (body ++ CR :: rest) = (cur ++ body) :: split_lines [] rest.
Proof.
  induction body as [|c body IH]; intros Hb cur rest.
  - cbn. rewrite app_nil_r. reflexivity.
  - cbn in Hb. apply andb_true_iff in Hb. destruct Hb as [Hc Hb].
    cbn [app split_lines]. unfold is_separator in Hc.
    apply negb_true_iff in Hc. rewrite Hc.
    rewrite (IH Hb), <- app_assoc. reflexivity.
Qed.

(** A command line converts to itself. *)
Lemma convert_command_line (cmd : bytes) :
  command_line cmd -> _convertCommandsToListOfBytes [cmd] = [cmd].
Proof.
  intros (body & -> & Hne & Hb). unfold _convertCommandsToListOfBytes.
  cbn [flat_map]. rewrite app_nil_r.
  change (body ++ EOL) with (body ++ CR :: [LF]) at 1.
  rewrite (split_lines_body body Hb). cbn [app split_lines].
  replace (Ascii.eqb LF CR || Ascii.eqb LF LF) with true by reflexivity.
  cbn [split_lines filter List.length Nat.ltb Nat.leb map].
  destruct body as [|c body]; [congruence|]. reflexivity.
Qed.

Lemma convert_app (l1 l2 : list bytes) :
  _convertCommandsToListOfBytes (l1 ++ l2)
  = _convertCommandsToListOfBytes l1 ++ _convertCommandsToListOfBytes l2.
Proof. unfold _convertCommandsToListOfBytes. apply flat_map_app. Qed.

Lemma convert_command_lines (cmds : list bytes) :
  Forall command_line cmds -> _convertCommandsToListOfBytes cmds = cmds.
Proof.
  induction 1 as [|cmd cmds Hc _ IH]; [reflexivity|].
  change (cmd :: cmds) with ([cmd] ++ cmds).
  rewrite convert_app, (convert_command_line Hc), IH. reflexivity.
Qed.

(** The pieces a line splits into carry no separator. *)
Lemma split_lines_pieces (l : bytes) :
  forall cur,
  forallb (fun c => negb (is_separator c)) cur = true ->
  Forall (fun piece => forallb (fun c => negb (is_separator c)) piece = true)
         (split_lines cur l).
Proof.
  induction l as [|c l IH]; intros cur Hcur; cbn [split_lines].
  - constructor; [exact Hcur | constructor].
  - destruct (Ascii.eqb c CR || Ascii.eqb c LF) eqn:E.
    + constructor; [exact Hcur | apply IH; reflexivity].
    + apply IH. rewrite forallb_app, Hcur. cbn. unfold is_separator.
      rewrite E. reflexivity.
Qed.

(** X10: every command [_convertCommandsToListOfBytes] returns is
    a body that is not empty and holds no carriage return and no line feed,
    followed by the terminator CRLF; converting the result once more
    changes nothing. *)
Theorem convertCommands_well_formed (lines : list bytes) :
  Forall command_line (_convertCommandsToListOfBytes lines) /\
  _convertCommandsToListOfBytes (_convertCommandsToListOfBytes lines)
  = _convertCommandsToListOfBytes lines.
Proof.
  assert (H : Forall command_line (_convertCommandsToListOfBytes lines)).
  { unfold _convertCommandsToListOfBytes. apply Forall_flat_map.
    apply Forall_forall. intros line _. apply Forall_map.
    pose proof (split_lines_pieces line [] eq_refl) as Hp.
    induction Hp as [|piece pieces Hpiece _ IH]; cbn [filter]; [constructor|].
    destruct (0 <? List.length piece) eqn:E; [|exact IH].
    constructor; [|exact IH].
    exists piece. repeat split; [|exact Hpiece].
    intros ->. discriminate. }
  split; [exact H | apply convert_command_lines, H].
Qed.

End CommandLines.

(** ** The transcript and the acknowledgment flag *)

Section Transcript.

Local Open Scope nat_scope.

Lemma write_line_plain (line : bytes) (s : AWG_AD9106) :
  bytes_eqb line OVER_W = false ->
  write_line line s
  = let s1 := if startswith line (b "Z")
              then set_needsFinalOver true s else s in
    match _writeHandler line s1 with
    | (s2, inl e) => (s2, inl e)
    | (s2, inr _) =>
      if bytes_eqb line CMD_XXX
      then match read RSP_XXX_SIZE s2 with
           | (s3, inl e) => (s3, inl e)
           | (s3, inr rsp) =>
             if utf8_valid rsp then (s3, inr tt)
             else (s3, inl UnicodeDecodeError)
           end
      else (s2, inr tt)
    end.
Proof.
  intros Hover. unfold write_line, bind, ret, raise. rewrite Hover.
  destruct (startswith line (b "Z")); cbv zeta;
    destruct (_writeHandler line _) as [s2 [e|[]]]; try reflexivity;
    destruct (bytes_eqb line CMD_XXX); try reflexivity;
    destruct (read RSP_XXX_SIZE s2) as [s3 [e|rsp]]; try reflexivity;
    destruct (utf8_valid rsp); reflexivity.
Qed.

Lemma write_line_effect (line : bytes) (s : AWG_AD9106) :
  exists sent,
    line_effect line s (fst (write_line line s)) (snd (write_line line s)) sent.
Proof.
  unfold line_effect, ack_step.
  destruct (bytes_eqb line OVER_W) eqn:Eover.
  - unfold write_line. rewrite Eover.
    apply bytes_eqb_eq in Eover. subst line. exists OVER_W.
    destruct (_ser s) as [t|] eqn:Es.
    + rewrite (sendOverWaitForOver_transport s Es).
      destruct (_generateWriteLog s) eqn:Eg; cbn -[OVER_W firstn skipn];
        rewrite ?Eg, ?Es, ?app_nil_r; cbn -[OVER_W firstn skipn]; auto 10.
    + rewrite (sendOverWaitForOver_no_transport s Es).
      destruct (_generateWriteLog s) eqn:Eg; cbn -[OVER_W];
        rewrite ?Eg, ?Es, ?app_nil_r; cbn -[OVER_W]; auto 10.
  - rewrite (write_line_plain line s Eover). cbv zeta.
    set (s1 := if startswith line (b "Z") then set_needsFinalOver true s else s).
    assert (H1 : _writeLog s1 = _writeLog s /\
                 _generateWriteLog s1 = _generateWriteLog s /\
                 _printWriteLog s1 = _printWriteLog s /\
                 _ser s1 = _ser s /\
                 _needsFinalOver s1
                 = if startswith line (b "Z") then true else _needsFinalOver s).
    { unfold s1. destruct (startswith line (b "Z")); repeat split. }
    destruct H1 as (Hl1 & Hg1 & Hp1 & Hs1 & Hf1).
    destruct (_printWriteLog s1 && negb (utf8_valid line)) eqn:Edec.
    + rewrite (writeHandler_fails line s1 Edec). exists []. cbn [fst snd].
      rewrite Hl1, Hg1, Hp1, Hs1.
      destruct (_generateWriteLog s), (_ser s);
        rewrite ?app_nil_r; repeat split; auto; discriminate.
    + destruct (writeHandler_ok line s1 Edec) as (Hok & Hlog & Hser).
      destruct (writeHandler_fields line s1)
        as (Hp2 & Hg2 & Hf2 & _).
      destruct (_writeHandler line s1) as [s2 r2]. cbn [fst snd] in *.
      subst r2. exists line.
      rewrite Hs1 in Hser. rewrite Hl1, Hg1 in Hlog.
      rewrite Hp1 in Hp2. rewrite Hg1 in Hg2. rewrite Hf1 in Hf2.
      destruct (bytes_eqb line CMD_XXX).
      * unfold read.
        destruct (_ser s2) as [t2|] eqn:Es2.
        -- unfold serial_read.
           destruct (_ser s) as [t|]; [|discriminate].
           cbn in Hser. injection Hser as Ht2. subst t2.
           destruct (utf8_valid (firstn RSP_XXX_SIZE (rx (serial_write line t))));
             cbn -[firstn skipn RSP_XXX_SIZE];
             repeat split; auto; discriminate.
        -- destruct (_ser s) as [t|]; [discriminate|].
           cbn. rewrite Es2. repeat split; auto.
      * cbn [fst snd]. rewrite Hser.
        destruct (_ser s) as [t|]; cbn; repeat split; auto.
Qed.

Lemma write_loop_effect (cmds : list bytes) :
  forall s,
  exists sent,
    let r := write_loop cmds s in
    _writeLog (fst r) = _writeLog s ++ (if _generateWriteLog s then sent else []) /\
    _generateWriteLog (fst r) = _generateWriteLog s /\
    _printWriteLog (fst r) = _printWriteLog s /\
    match _ser s, _ser (fst r) with
    | Some t, Some t' => tx t' = tx t ++ sent
    | None, None => True
    | _, _ => False
    end /\
    (snd r = inr tt ->
     sent = List.concat cmds /\
     _needsFinalOver (fst r) = fold_left ack_step cmds (_needsFinalOver s)).
Proof.
  induction cmds as [|line rest IH]; intros s.
  - exists []. cbn. destruct (_generateWriteLog s), (_ser s);
      rewrite ?app_nil_r; repeat split; auto.
  - destruct (write_line_effect line s) as (sent1 & Hl & Hg & Hp & Hs & Hok).
    cbn [write_loop]. unfold bind.
    destruct (write_line line s) as [s1 [e|[]]]; cbn [fst snd] in *.
    + exists sent1. cbv zeta. cbn [fst snd].
      repeat split; auto; discriminate.
    + destruct (IH s1) as (sent2 & Hl2 & Hg2 & Hp2 & Hs2 & Hok2).
      cbv zeta in *. exists (sent1 ++ sent2).
      destruct (Hok eq_refl) as [-> Hflag].
      repeat split.
      * rewrite Hl2, Hl, Hg. destruct (_generateWriteLog s);
          rewrite ?app_nil_r, ?app_assoc; reflexivity.
      * congruence.
      * congruence.
      * destruct (_ser s) as [t|], (_ser s1) as [t1|],
          (_ser (fst (write_loop rest s1))) as [t2|]; try tauto.
        rewrite Hs2, Hs, app_assoc. reflexivity.
      * destruct (Hok2 H) as [-> _]. reflexivity.
      * destruct (Hok2 H) as [_ ->]. cbn [fold_left]. rewrite Hflag.
        reflexivity.
Qed.

(** X11: [write] appends the same bytes to the write log, when the
    log is enabled, and to the output of the transport, when there is one;
    a session without a transport stays without one; and when [write]
    returns these bytes are the converted commands, in order. *)
Theorem write_transcript (s : AWG_AD9106) (lines : list bytes) :
  let r := write lines s in
  exists sent,
    getWriteLog (fst r)
    = getWriteLog s ++ (if _generateWriteLog s then sent else []) /\
    (forall t, _ser s = Some t ->
       exists t', _ser (fst r) = Some t' /\ tx t' = tx t ++ sent) /\
    (_ser s = None -> _ser (fst r) = None) /\
    (snd r = inr tt ->
     sent = List.concat (_convertCommandsToListOfBytes lines)).
Proof.
  cbv zeta. unfold write, getWriteLog.
  destruct (write_loop_effect (_convertCommandsToListOfBytes lines) s)
    as (sent & Hl & _ & _ & Hs & Hok).
  cbv zeta in *. exists sent. repeat split.
  - exact Hl.
  - intros t Ht. rewrite Ht in Hs.
    destruct (_ser (fst (write_loop _ s))) as [t'|]; [|contradiction].
    exists t'. split; [reflexivity | exact Hs].
  - intros Hn. rewrite Hn in Hs.
    destruct (_ser (fst (write_loop _ s))); [contradiction | reflexivity].
  - intros H. apply (proj1 (Hok H)).
Qed.

Lemma write_transcript_witness :
  exists sent,
    getWriteLog (fst (write [b "Z00256"; b "OVER"] acking_session)) = sent /\
    exists t',
      _ser (fst (write [b "Z00256"; b "OVER"] acking_session)) = Some t' /\
      tx t' = sent.
Proof.
  destruct (write_transcript acking_session [b "Z00256"; b "OVER"])
    as (sent & Hl & Ht & _ & _).
  exists sent. split; [exact Hl|].
  apply (Ht (mkSerial (b "OVER") [])). reflexivity.
Defined.

(** X12: when [write] returns, [needsFinalOver()] is the flag of
    before the call taken through the converted commands in order: the
    acknowledgment request clears it, a command starting with [Z] sets it,
    any other command keeps it. *)
Theorem write_tracks_acknowledgment (s : AWG_AD9106) (lines : list bytes) :
  snd (write lines s) = inr tt ->
  needsFinalOver (fst (write lines s))
  = fold_left ack_step (_convertCommandsToListOfBytes lines) (needsFinalOver s).
Proof.
  unfold write, needsFinalOver.
  destruct (write_loop_effect (_convertCommandsToListOfBytes lines) s)
    as (sent & _ & _ & _ & _ & Hok).
  intros H. apply (proj2 (Hok H)).
Qed.

Lemma write_tracks_acknowledgment_witness :
  needsFinalOver (fst (write [b "Z00256"; b "OVER"; b "Z01000"] dry_run_session))
  = true.
Proof.
  rewrite (@write_tracks_acknowledgment dry_run_session
             [b "Z00256"; b "OVER"; b "Z01000"]); reflexivity.
Defined.

End Transcript.

(** ** The frames of the encoder *)

Section Frames.

Local Open Scope nat_scope.

Lemma digit_val_plain (c : ascii) (x : nat) :
  digit_val c = Some x ->
  is_separator c = false /\ byte_in 0 127 c = true.
Proof.
  unfold digit_val, is_separator, byte_in. cbv zeta.
  destruct ((48 <=? nat_of_ascii c) && (nat_of_ascii c <=? 57)) eqn:E;
    [|discriminate].
  intros _. apply andb_true_iff in E. destruct E as [E1 E2].
  apply Nat.leb_le in E1. apply Nat.leb_le in E2.
  split.
  - apply orb_false_iff. split.
    + destruct (Ascii.eqb c CR) eqn:Ec; [|reflexivity].
      apply Ascii.eqb_eq in Ec. subst c. cbn in E1. lia.
    + destruct (Ascii.eqb c LF) eqn:Ec; [|reflexivity].
      apply Ascii.eqb_eq in Ec. subst c. cbn in E1. lia.
  - apply andb_true_iff. split; apply Nat.leb_le; lia.
Qed.

Lemma decode_values_digits (vs : list Z) :
  forall l,
  decode_values l = Some vs ->
  exists digits,
    l = digits ++ EOL /\
    forallb (fun c => match digit_val c with Some _ => true | None => false end)
            digits = true /\
    List.length digits = 3 * List.length vs.
Proof.
  induction vs as [|v vs IH]; intros l Hl.
  - destruct l as [|c1 [|c2 [|c3 r]]]; try discriminate.
    + cbn [decode_values] in Hl.
      destruct (Ascii.eqb c1 CR) eqn:E1; [|discriminate].
      destruct (Ascii.eqb c2 LF) eqn:E2; [|discriminate].
      apply Ascii.eqb_eq in E1, E2. subst. exists []. repeat split.
    + cbn [decode_values] in Hl.
      destruct (digit_val c1), (digit_val c2), (digit_val c3),
        (decode_values r); discriminate.
  - destruct l as [|c1 [|c2 [|c3 r]]]; try discriminate.
    + cbn [decode_values] in Hl.
      destruct (Ascii.eqb c1 CR), (Ascii.eqb c2 LF); discriminate.
    + cbn [decode_values] in Hl.
      destruct (digit_val c1) eqn:E1; [|discriminate].
      destruct (digit_val c2) eqn:E2; [|discriminate].
      destruct (digit_val c3) eqn:E3; [|discriminate].
      destruct (decode_values r) as [vs'|] eqn:Er; [|discriminate].
      injection Hl as _ <-.
      destruct (IH r Er) as (digits & -> & Hd & Hlen).
      exists (c1 :: c2 :: c3 :: digits). repeat split.
      * cbn [forallb]. rewrite E1, E2, E3. exact Hd.
      * cbn [List.length]. lia.
Qed.

Lemma decodeZCommand_shape (frame : bytes) (k : nat) (vs : list Z) :
  decodeZCommand frame = Some (k, vs) ->
  z_frame frame /\ List.length frame = 5 + 3 * List.length vs.
Proof.
  unfold decodeZCommand.
  destruct frame as [|tag [|d1 [|d2 payload]]]; try discriminate.
  destruct (Ascii.eqb tag "Z") eqn:Et; [|discriminate].
  apply Ascii.eqb_eq in Et. subst tag.
  destruct (digit_val d1) eqn:E1; [|discriminate].
  destruct (digit_val d2) eqn:E2; [|discriminate].
  destruct (decode_values payload) as [vs'|] eqn:Ep; [|discriminate].
  intros [= _ <-].
  destruct (decode_values_digits _ Ep) as (digits & -> & Hd & Hlen).
  split.
  - exists (d1 :: d2 :: digits). split; [reflexivity|].
    cbn [forallb]. rewrite E1, E2. exact Hd.
  - cbn [List.length]. rewrite length_app. cbn [List.length EOL]. lia.
Qed.

Lemma decodeZCommands_shape (frames : list bytes) :
  forall k vs,
  decodeZCommands k frames = Some vs ->
  Forall z_frame frames /\
  Forall (fun frame => List.length frame <= 197) frames /\
  List.length frames = (List.length vs + 63) / 64.
Proof.
  induction frames as [|frame rest IH]; intros k vs Hdec.
  - cbn in Hdec. injection Hdec as <-. repeat split; constructor.
  - cbn [decodeZCommands] in Hdec.
    destruct (decodeZCommand frame) as [[k' vs1]|] eqn:Ef; [|discriminate].
    destruct (decodeZCommands (S k) rest) as [tail|] eqn:Er; [|discriminate].
    destruct ((k' =? k)
              && block_size_ok match rest with [] => true | _ => false end
                               (List.length vs1)) eqn:Eok; [|discriminate].
    injection Hdec as <-.
    apply andb_true_iff in Eok. destruct Eok as [_ Hsize].
    destruct (decodeZCommand_shape _ Ef) as [Hz Hlen].
    destruct (IH _ _ Er) as (Hzs & Hls & Hcount).
    assert (Hvs1 : 1 <= List.length vs1 <= 64 /\
                   (rest <> [] -> List.length vs1 = 64)).
    { destruct rest as [|f rest']; cbn [block_size_ok] in Hsize.
      - apply andb_true_iff in Hsize. destruct Hsize as [H1 H2].
        apply Nat.leb_le in H1, H2. split; [lia | congruence].
      - apply Nat.eqb_eq in Hsize. split; [lia | intros _; exact Hsize]. }
    destruct Hvs1 as [Hb Hfull].
    repeat split.
    + constructor; assumption.
    + constructor; [lia | exact Hls].
    + rewrite length_app.
      destruct rest as [|f rest'].
      * cbn in Er. injection Er as <-. cbn [List.length].
        rewrite Nat.add_0_r.
        apply (Nat.div_unique _ 64 1 (List.length vs1 - 1)); lia.
      * change (List.length (frame :: f :: rest'))
          with (S (List.length (f :: rest'))).
        rewrite Hcount, (Hfull ltac:(discriminate)).
        replace (64 + List.length tail + 63)
          with (1 * 64 + (List.length tail + 63)) by lia.
        rewrite Nat.div_add_l by lia. reflexivity.
Qed.

(** What a frame is to the protocol session. *)
Lemma z_frame_plain (frame : bytes) :
  z_frame frame ->
  command_line frame /\
  startswith frame (b "Z") = true /\
  bytes_eqb frame OVER_W = false /\
  bytes_eqb frame CMD_XXX = false /\
  utf8_valid frame = true.
Proof.
  intros (digits & -> & Hd).
  assert (Hsep : forallb (fun c => negb (is_separator c)) digits = true).
  { apply forallb_forall. intros c Hc.
    pose proof (proj1 (forallb_forall _ _) Hd c Hc) as H. cbv beta in H.
    destruct (digit_val c) as [x|] eqn:E; [|discriminate].
    rewrite (proj1 (digit_val_plain _ E)). reflexivity. }
  assert (Hutf : forall tail, utf8_valid tail = true ->
                              utf8_valid (digits ++ tail) = true).
  { intros tail Htail. clear Hsep. induction digits as [|c digits IH];
      [exact Htail|].
    cbn [forallb] in Hd. apply andb_true_iff in Hd. destruct Hd as [Hc Hd].
    destruct (digit_val c) as [x|] eqn:E; [|discriminate].
    cbn [app utf8_valid]. rewrite (proj2 (digit_val_plain _ E)).
    apply IH, Hd. }
  split; [|split; [|split; [|split]]]; try reflexivity.
  - exists ("Z"%char :: digits). split; [reflexivity|]. split; [discriminate|].
    cbn [forallb]. rewrite Hsep. reflexivity.
  - destruct digits; reflexivity.
  - cbn [utf8_valid]. replace (byte_in 0 127 "Z") with true by reflexivity.
    apply Hutf. reflexivity.
Qed.

(** The frames of the encoder read back as the first 4096 values. *)
Lemma convertNumbers_decodes (s : AWG_AD9106) (valuesInput : list Z)
    (frames : list bytes) :
  convertNumbersToZCommands s valuesInput = inr frames ->
  decodeZCommands 0 frames
  = Some (map clampRegister (firstn 4096 valuesInput)).
Proof.
  unfold convertNumbersToZCommands. cbv zeta.
  change (Z.to_nat MAX_SRAM_SAMPLES) with 4096.
  destruct ((4096 <? List.length valuesInput) && _doesPrint s);
    [discriminate|].
  set (values := if 4096 <? List.length valuesInput
                 then firstn 4096 valuesInput else valuesInput).
  intros H. assert (Hf : frames = z_loop (List.length values) 0 values [] [])
    by congruence.
  subst frames. clear H.
  assert (Hv : values = firstn 4096 valuesInput).
  { unfold values. destruct (Nat.ltb_spec 4096 (List.length valuesInput));
      [reflexivity | symmetry; apply firstn_all2; lia]. }
  assert (Hlen : List.length values <= 4096)
    by (rewrite Hv, length_firstn; lia).
  rewrite <- Hv. clearbody values.
  destruct values as [|v rest]; [reflexivity|].
  destruct (@z_loop_decodes rest v (List.length (v :: rest)) 0 [] [] [])
    as (fs & Hfs & Hdec); try reflexivity; try assumption.
  - constructor.
  - intros H. exfalso. apply H. reflexivity.
  - rewrite Hfs. exact Hdec.
Qed.

(** X13: given more than 4096 values, [convertNumbersToZCommands]
    raises [TypeError] when messages are enabled (its warning adds an [int]
    to a [str]); with messages disabled it returns 64 frames that read back
    as the first 4096 values clamped to [0, 511]. *)
Theorem convertNumbers_over_capacity (s : AWG_AD9106) (valuesInput : list Z) :
  4096 < List.length valuesInput ->
  (_doesPrint s = true ->
   convertNumbersToZCommands s valuesInput = inl TypeError) /\
  (_doesPrint s = false ->
   exists frames,
     convertNumbersToZCommands s valuesInput = inr frames /\
     List.length frames = 64 /\
     decodeZCommands 0 frames
     = Some (map clampRegister (firstn 4096 valuesInput))).
Proof.
  intros Hlen.
  assert (Hlt : (Z.to_nat MAX_SRAM_SAMPLES <? List.length valuesInput) = true)
    by (apply Nat.ltb_lt; exact Hlen).
  split; intros Hp.
  - unfold convertNumbersToZCommands. rewrite Hlt, Hp. reflexivity.
  - destruct (convertNumbersToZCommands s valuesInput) as [e|frames] eqn:E.
    + unfold convertNumbersToZCommands in E. rewrite Hlt, Hp in E.
      discriminate.
    + exists frames. split; [reflexivity|].
      pose proof (convertNumbers_decodes _ _ E) as Hdec.
      split; [|exact Hdec].
      destruct (decodeZCommands_shape _ _ Hdec) as (_ & _ & ->).
      rewrite length_map, length_firstn.
      replace (Nat.min 4096 (List.length valuesInput)) with 4096 by lia.
      reflexivity.
Qed.

Lemma convertNumbers_over_capacity_witness :
  convertNumbersToZCommands dry_run_session (repeat 7%Z 4097) = inl TypeError.
Proof.
  apply (@convertNumbers_over_capacity dry_run_session (repeat 7%Z 4097)).
  - rewrite repeat_length. lia.
  - reflexivity.
Defined.

(** The encoder returns data-load frames only, and at least one for a
    list that is not empty. *)
Lemma convertNumbers_z_frames (s : AWG_AD9106) (valuesInput : list Z)
    (frames : list bytes) :
  convertNumbersToZCommands s valuesInput = inr frames ->
  Forall z_frame frames /\ (valuesInput <> [] -> frames <> []).
Proof.
  intros E. pose proof (convertNumbers_decodes _ _ E) as Hdec.
  destruct (decodeZCommands_shape _ _ Hdec) as (Hz & _ & Hc).
  split; [exact Hz|]. intros Hne ->.
  rewrite length_map, length_firstn in Hc. cbn [List.length] in Hc.
  destruct valuesInput as [|v rest]; [congruence|].
  cbn [List.length] in Hc.
  assert (1 <= (Nat.min 4096 (S (List.length rest)) + 63) / 64)
    by (apply Nat.div_le_lower_bound; lia).
  lia.
Qed.

(** Data-load frames pass the conversion of [write] unchanged. *)
Lemma z_frames_convert (frames : list bytes) :
  Forall z_frame frames -> _convertCommandsToListOfBytes frames = frames.
Proof.
  intros Hz. apply convert_command_lines.
  apply Forall_forall. intros f Hf.
  apply z_frame_plain. apply (proj1 (Forall_forall _ _) Hz f Hf).
Qed.

(** X14: the frames [convertNumbersToZCommands] returns are
    ceil(min(4096, n) / 64) in number for [n] values; each is the tag [Z],
    decimal digits and CRLF, at most 197 bytes long; and [write] converts
    them to themselves. *)
Theorem convertNumbers_frames (s : AWG_AD9106) (valuesInput : list Z)
    (frames : list bytes) :
  convertNumbersToZCommands s valuesInput = inr frames ->
  List.length frames = (Nat.min 4096 (List.length valuesInput) + 63) / 64 /\
  Forall z_frame frames /\
  Forall (fun frame => List.length frame <= 197) frames /\
  _convertCommandsToListOfBytes frames = frames.
Proof.
  intros E. pose proof (convertNumbers_decodes _ _ E) as Hdec.
  destruct (decodeZCommands_shape _ _ Hdec) as (Hz & Hl & Hc).
  rewrite length_map, length_firstn in Hc.
  repeat split; try assumption.
  apply z_frames_convert. exact Hz.
Qed.

Lemma convertNumbers_frames_witness :
  exists frames,
    convertNumbersToZCommands dry_run_session (repeat 7%Z 130) = inr frames /\
    List.length frames = 3.
Proof.
  destruct (convertNumbersToZCommands dry_run_session (repeat 7%Z 130))
    as [e|frames] eqn:E; [vm_compute in E; discriminate|].
  exists frames. split; [reflexivity|].
  rewrite (proj1 (convertNumbers_frames _ _ E)). reflexivity.
Defined.

Lemma write_loop_frames_ok (frames : list bytes) :
  Forall z_frame frames ->
  forall s, snd (write_loop frames s) = inr tt.
Proof.
  induction 1 as [|frame rest Hz _ IH]; intros s; [reflexivity|].
  destruct (z_frame_plain Hz) as (_ & _ & Hover & Hxxx & Hutf).
  cbn [write_loop]. unfold bind.
  rewrite (write_line_plain frame s Hover). cbv zeta. rewrite Hxxx.
  set (s1 := if startswith frame (b "Z") then set_needsFinalOver true s else s).
  assert (Hdec : _printWriteLog s1 && negb (utf8_valid frame) = false)
    by (rewrite Hutf; apply andb_false_r).
  destruct (writeHandler_ok frame s1 Hdec) as (Hok & _).
  destruct (_writeHandler frame s1) as [s2 r2]. cbn [snd] in Hok. subst r2.
  apply IH.
Qed.

Lemma fold_ack_frames (frames : list bytes) :
  Forall z_frame frames ->
  forall flag,
  fold_left ack_step frames flag
  = match frames with [] => flag | _ => true end.
Proof.
  induction 1 as [|frame rest Hz _ IH]; intros flag; [reflexivity|].
  destruct (z_frame_plain Hz) as (_ & Hstart & Hover & _).
  cbn [fold_left]. unfold ack_step at 2. rewrite Hover, Hstart, IH.
  destruct rest; reflexivity.
Qed.

(** X15: writing the frames of a list of values that is not empty
    always returns, with a transport or without: every frame is logged
    (the log enabled) and sent (a transport present) in order, no
    acknowledgment is requested, and [needsFinalOver()] is true
    afterwards. *)
Theorem write_z_commands (s0 s : AWG_AD9106) (valuesInput : list Z)
    (frames : list bytes) :
  convertNumbersToZCommands s0 valuesInput = inr frames ->
  valuesInput <> [] ->
  let r := write frames s in
  snd r = inr tt /\
  needsFinalOver (fst r) = true /\
  getWriteLog (fst r)
  = getWriteLog s ++ (if _generateWriteLog s then List.concat frames else []) /\
  (forall t, _ser s = Some t ->
     exists t', _ser (fst r) = Some t' /\ tx t' = tx t ++ List.concat frames).
Proof.
  intros E Hne. cbv zeta.
  destruct (convertNumbers_z_frames _ _ E) as (Hz & Hframes).
  specialize (Hframes Hne).
  pose proof (z_frames_convert Hz) as Hconv.
  unfold write, needsFinalOver, getWriteLog. rewrite Hconv.
  pose proof (write_loop_frames_ok Hz s) as Hok.
  destruct (write_loop_effect frames s) as (sent & Hl & _ & _ & Hs & Heff).
  cbv zeta in *. destruct (Heff Hok) as [-> Hflag].
  repeat split.
  - exact Hok.
  - rewrite Hflag, (fold_ack_frames Hz). destruct frames; congruence.
  - exact Hl.
  - intros t Ht. rewrite Ht in Hs.
    destruct (_ser (fst (write_loop frames s))) as [t'|]; [|contradiction].
    exists t'. split; [reflexivity | exact Hs].
Qed.

Lemma write_z_commands_witness :
  exists frames,
    convertNumbersToZCommands dry_run_session [0; 511; 256]%Z = inr frames /\
    snd (write frames acking_session) = inr tt /\
    needsFinalOver (fst (write frames acking_session)) = true.
Proof.
  destruct (convertNumbersToZCommands dry_run_session [0; 511; 256]%Z)
    as [e|frames] eqn:E; [vm_compute in E; discriminate|].
  exists frames. split; [reflexivity|].
  destruct (@write_z_commands dry_run_session acking_session
              [0; 511; 256]%Z frames E ltac:(discriminate))
    as (H1 & H2 & _).
  split; assumption.
Defined.

End Frames.

(** ** The tabular extractor and its load *)

Section CsvLoad.

Local Open Scope Z_scope.

Lemma spec_window_take (A : Type) (startOffset maxRowsToRead : Z)
    (rows : list A) :
  forall index,
  startOffset <= index ->
  spec_window startOffset maxRowsToRead index rows
  = firstn (Z.to_nat (startOffset + maxRowsToRead - index)) rows.
Proof.
  induction rows as [|row rows IH]; intros index Hge; cbn [spec_window].
  - rewrite firstn_nil. reflexivity.
  - replace (index <? startOffset) with false
      by (symmetry; apply Z.ltb_ge; exact Hge).
    destruct (Z.geb_spec index (startOffset + maxRowsToRead)) as [Hout|Hin].
    + replace (Z.to_nat (startOffset + maxRowsToRead - index)) with O by lia.
      reflexivity.
    + rewrite IH by lia.
      replace (Z.to_nat (startOffset + maxRowsToRead - index))
        with (S (Z.to_nat (startOffset + maxRowsToRead - (index + 1))))
        by lia.
      reflexivity.
Qed.

Lemma spec_window_skip (A : Type) (startOffset maxRowsToRead : Z)
    (rows : list A) :
  forall index,
  index <= startOffset ->
  spec_window startOffset maxRowsToRead index rows
  = firstn (Z.to_nat maxRowsToRead)
           (skipn (Z.to_nat (startOffset - index)) rows).
Proof.
  induction rows as [|row rows IH]; intros index Hle.
  - cbn [spec_window]. rewrite skipn_nil, firstn_nil. reflexivity.
  - destruct (Z.eq_dec index startOffset) as [->|Hne].
    + rewrite spec_window_take by lia.
      rewrite Z.sub_diag. cbn [Z.to_nat skipn]. f_equal. f_equal. lia.
    + cbn [spec_window].
      replace (index <? startOffset) with true
        by (symmetry; apply Z.ltb_lt; lia).
      rewrite IH by lia.
      replace (Z.to_nat (startOffset - index))
        with (S (Z.to_nat (startOffset - (index + 1)))) by lia.
      reflexivity.
Qed.

Lemma spec_window_length (A : Type) (startOffset maxRowsToRead : Z)
    (rows : list A) :
  forall index,
  (List.length (spec_window startOffset maxRowsToRead index rows)
   <= Z.to_nat maxRowsToRead)%nat /\
  (List.length (spec_window startOffset maxRowsToRead index rows)
   <= List.length rows)%nat.
Proof.
  intros index.
  destruct (Z.le_ge_cases index startOffset) as [H|H].
  - rewrite spec_window_skip by exact H.
    rewrite length_firstn, length_skipn. lia.
  - rewrite spec_window_take by exact H.
    rewrite length_firstn. lia.
Qed.

Lemma csv_maxColumns_widest (rows : list (list Cell)) :
  forall m,
  csv_maxColumns rows false m
  = Nat.max m (fold_right Nat.max O (map (@List.length Cell) rows)).
Proof.
  induction rows as [|row rows IH]; intros m; cbn; [lia|].
  rewrite IH. lia.
Qed.

Lemma csv_maxColumns_header (rows : list (list Cell)) (m : nat) :
  csv_maxColumns rows true m = csv_maxColumns (tl rows) false m.
Proof. destruct rows; reflexivity. Qed.

(** No column of the extractor is longer than the read limit. *)
Lemma csv_columns_bounded (s : AWG_AD9106) (sniffedHeader : bool)
    (rows : list (list Cell)) :
  Forall (fun column =>
            (List.length column <= Z.to_nat (_maxRowsToRead s))%nat)
         (csv_columns s sniffedHeader rows).
Proof.
  rewrite (csv_columns_window s sniffedHeader rows). cbv zeta.
  unfold spec_csv_columns.
  apply Forall_forall. intros column Hc. apply in_map_iff in Hc.
  destruct Hc as (j & <- & _). rewrite length_map.
  apply spec_window_length.
Qed.

(** X16: the tabular extractor returns one column for each cell of
    the widest data row; all columns have one length, at most
    [maxRowsToRead] and at most the number of data rows; and for
    [startingRowToRead >= 0] column [j] holds, in order, the cells [j] of
    the [maxRowsToRead] data rows from row [startingRowToRead] on, 0.0
    standing for a missing or non-numeric cell. *)
Theorem csv_columns_shape (s : AWG_AD9106) (sniffedHeader : bool)
    (rows : list (list Cell)) :
  let hasHeader :=
    if _hasCsvHeader s =? AUTO_DETECT then sniffedHeader
    else _hasCsvHeader s >? 0 in
  let data := if hasHeader then tl rows else rows in
  let window :=
    spec_window (_startingRowToRead s) (_maxRowsToRead s) 0 data in
  let columns := csv_columns s sniffedHeader rows in
  List.length columns = fold_right Nat.max O (map (@List.length Cell) data) /\
  Forall (fun column => List.length column = List.length window) columns /\
  (List.length window <= Z.to_nat (_maxRowsToRead s))%nat /\
  (List.length window <= List.length data)%nat /\
  (0 <= _startingRowToRead s ->
   columns
   = map (fun j =>
            map (csv_cell j)
                (firstn (Z.to_nat (_maxRowsToRead s))
                        (skipn (Z.to_nat (_startingRowToRead s)) data)))
         (seq 0 (List.length columns))).
Proof.
  cbv zeta. rewrite (csv_columns_window s sniffedHeader rows). cbv zeta.
  set (hasHeader := if _hasCsvHeader s =? AUTO_DETECT then sniffedHeader
                    else _hasCsvHeader s >? 0).
  set (data := if hasHeader then tl rows else rows).
  assert (Hn : csv_maxColumns rows hasHeader O
               = fold_right Nat.max O (map (@List.length Cell) data)).
  { unfold data. destruct hasHeader;
      rewrite ?csv_maxColumns_header, csv_maxColumns_widest; lia. }
  rewrite Hn. unfold spec_csv_columns.
  destruct (spec_window_length (_startingRowToRead s) (_maxRowsToRead s)
                               data 0) as [Hl1 Hl2].
  repeat split.
  - rewrite length_map, length_seq. reflexivity.
  - apply Forall_forall. intros column Hc. apply in_map_iff in Hc.
    destruct Hc as (j & <- & _). apply length_map.
  - exact Hl1.
  - exact Hl2.
  - intros Hstart. rewrite length_map, length_seq.
    rewrite spec_window_skip by exact Hstart. rewrite Z.sub_0_r.
    reflexivity.
Qed.

Lemma csv_columns_shape_witness :
  csv_columns
    (setLoadParameters (Some 1) None (Some 2) None None None None None
                       (Some 0) None dry_run_session)
    false
    [[CellNumber 1; CellNumber 2]; [CellNumber 3]; [CellInvalid; CellNumber 5];
     [CellNumber 7]]
  = [[3%Q; 0%Q]; [0%Q; 5%Q]].
Proof.
  destruct (csv_columns_shape
              (setLoadParameters (Some 1) None (Some 2) None None None None
                                 None (Some 0) None dry_run_session)
              false
              [[CellNumber 1; CellNumber 2]; [CellNumber 3];
               [CellInvalid; CellNumber 5]; [CellNumber 7]])
    as (_ & _ & _ & _ & H).
  cbv zeta in H. rewrite H; [reflexivity | cbn; lia].
Defined.

Lemma wa_outer_length (channels : list (list Q)) (weights : list Q)
    (ranges : list ChannelRange) (total : Q) (idxs : list nat) :
  forall acc out,
  wa_outer channels weights ranges total idxs acc = inr out ->
  List.length out = (List.length acc + List.length idxs)%nat.
Proof.
  induction idxs as [|i idxs IH]; intros acc out; cbn [wa_outer].
  - intros [= <-]. cbn. lia.
  - destruct (wa_inner channels weights ranges i _ 0%Q); [discriminate|].
    intros H. apply IH in H. rewrite length_app in H. cbn in *. lia.
Qed.

(** The combiner returns one value per index of the longest channel. *)
Lemma weightedAverageChannels_length (s : AWG_AD9106)
    (channels : list (list Q)) (ranges : list ChannelRange) (out : list Q) :
  _weightedAverageChannels s channels ranges = inr out ->
  List.length out = fold_right Nat.max O (map (@List.length Q) channels).
Proof.
  unfold _weightedAverageChannels.
  destruct (columnWeights_for s (List.length channels)); [discriminate|].
  intros H. apply wa_outer_length in H.
  rewrite longest_fold_left, length_seq in H. cbn in H. lia.
Qed.

Lemma applyScaling_length (s : AWG_AD9106) (values out : list Q) :
  _applyScaling s values = inr out -> List.length out = List.length values.
Proof.
  unfold _applyScaling.
  destruct (py_min values); [discriminate|].
  destruct (py_max values); [discriminate|].
  intros [= <-]. destruct (_doScaleAuto s); rewrite ?length_map; reflexivity.
Qed.

Lemma registerValue_of_range (v : Q) : in_register_range (registerValue_of v).
Proof. unfold in_register_range, registerValue_of, MAX_SRAM_VALUE. lia. Qed.

(** The tail of the loaders: register values, as many as the longest
    channel or the write length, whichever is larger. *)
Lemma finish_load_shape (s : AWG_AD9106) (channels : list (list Q))
    (ranges : list ChannelRange) (out : list Z) :
  finish_load s channels ranges = inr out ->
  Forall in_register_range out /\
  Z.of_nat (List.length out)
  = Z.max (Z.of_nat (fold_right Nat.max O (map (@List.length Q) channels)))
          (_maxRowsToWrite s).
Proof.
  unfold finish_load, rbind.
  destruct (_weightedAverageChannels s channels ranges) as [e|combined] eqn:Ec;
    [discriminate|].
  destruct (_applyScaling s (_padRowsToWrite s combined)) as [e|scaled] eqn:Es;
    [discriminate|].
  intros [= <-]. rewrite normalizedValuesToRegisterValues_map. split.
  - apply Forall_forall. intros x Hx. apply in_map_iff in Hx.
    destruct Hx as (v & <- & _). apply registerValue_of_range.
  - rewrite length_map, (applyScaling_length _ _ Es).
    rewrite padRowsToWrite_length.
    rewrite (weightedAverageChannels_length _ _ _ Ec). reflexivity.
Qed.

Lemma longest_at_most (channels : list (list Q)) (w : nat) :
  Forall (fun c => (List.length c <= w)%nat) channels ->
  (fold_right Nat.max O (map (@List.length Q) channels) <= w)%nat.
Proof.
  induction 1 as [|c cs Hc _ IH]; cbn; lia.
Qed.

(** A load of a reachable session returns register values that fit the
    waveform memory and are at least as many as the write length. *)
Lemma csv_load_registers (s : AWG_AD9106)
    (sniffedHeader : bool) (rows : list (list Cell)) (out : list Z) :
  reachable s ->
  loadNumbersFromCSV s sniffedHeader rows = inr out ->
  Forall in_register_range out /\
  (List.length out <= 4096)%nat /\
  (_maxRowsToWrite s <= Z.of_nat (List.length out))%Z.
Proof.
  intros Hreach Hload.
  destruct (reachable_limits Hreach) as [Hread Hwrite].
  unfold MAX_SRAM_SAMPLES in *.
  unfold loadNumbersFromCSV in Hload.
  destruct (finish_load_shape _ _ _ Hload) as [Hrange Hlen].
  pose proof (longest_at_most (csv_columns_bounded s sniffedHeader rows))
    as Hlongest.
  split; [exact Hrange|]. split; lia.
Qed.

(** Register values that fit the waveform memory are encoded without
    loss. *)
Lemma registers_encode (s : AWG_AD9106) (out : list Z) :
  Forall in_register_range out ->
  (List.length out <= 4096)%nat ->
  exists frames,
    convertNumbersToZCommands s out = inr frames /\
    decodeZCommands 0 frames = Some out.
Proof.
  intros Hrange Hfit.
  destruct (convertNumbersToZCommands s out) as [e|frames] eqn:E.
  - exfalso. unfold convertNumbersToZCommands in E.
    change (Z.to_nat MAX_SRAM_SAMPLES) with 4096%nat in E.
    replace (4096 <? List.length out)%nat with false in E
      by (symmetry; apply Nat.ltb_ge; exact Hfit).
    discriminate.
  - exists frames. split; [reflexivity|].
    rewrite (convertNumbers_decodes _ _ E).
    rewrite firstn_all2 by exact Hfit. f_equal.
    rewrite <- (map_id out) at 2. apply map_ext_in.
    intros v Hv. pose proof (proj1 (Forall_forall _ _) Hrange v Hv) as Hr.
    unfold in_register_range in Hr.
    unfold clampRegister, MAX_SRAM_VALUE. lia.
Qed.

(** X17: on a session a program can hold, the values a
    [loadNumbersFromCSV] returns are register values of [0, 511], at most
    4096 and at least [maxRowsToWrite] in number; the encoder accepts them
    and its frames read back as exactly these values. *)
Theorem loadNumbersFromCSV_fits_device (s : AWG_AD9106)
    (sniffedHeader : bool) (rows : list (list Cell)) (out : list Z) :
  reachable s ->
  loadNumbersFromCSV s sniffedHeader rows = inr out ->
  Forall in_register_range out /\
  (List.length out <= 4096)%nat /\
  (_maxRowsToWrite s <= Z.of_nat (List.length out))%Z /\
  exists frames,
    convertNumbersToZCommands s out = inr frames /\
    decodeZCommands 0 frames = Some out.
Proof.
  intros Hreach Hload.
  destruct (csv_load_registers sniffedHeader rows Hreach Hload)
    as (Hrange & Hfit & Hwrite).
  repeat split; try assumption.
  apply registers_encode; assumption.
Qed.

Lemma loadNumbersFromCSV_fits_device_witness :
  exists out,
    loadNumbersFromCSV
      (setLoadParameters None (Some 3) None None None None (Some 0) None
                         (Some 0) None dry_run_session)
      false [[CellNumber 1]; [CellNumber (-(1))]] = inr out /\
    Forall in_register_range out /\ (List.length out <= 4096)%nat.
Proof.
  destruct (loadNumbersFromCSV
              (setLoadParameters None (Some 3) None None None None (Some 0)
                                 None (Some 0) None dry_run_session)
              false [[CellNumber 1]; [CellNumber (-(1))]])
    as [e|out] eqn:E; [vm_compute in E; discriminate|].
  exists out. split; [reflexivity|].
  destruct (@loadNumbersFromCSV_fits_device _ false
              [[CellNumber 1]; [CellNumber (-(1))]] out
              (reach_setLoadParameters None (Some 3) None None None None
                 (Some 0) None (Some 0) None (reach_init None true false)) E)
    as (H1 & H2 & _).
  split; assumption.
Defined.

(** The quantizer gives equal registers to equal values. *)
Lemma registerValue_of_compat (v w : Q) :
  (v == w)%Q -> registerValue_of v = registerValue_of w.
Proof.
  intros H.
  assert (H1 : (v <= w)%Q) by lra. assert (H2 : (w <= v)%Q) by lra.
  apply registerValue_of_mono in H1. apply registerValue_of_mono in H2. lia.
Qed.

Lemma csv_columns_no_data (s : AWG_AD9106) (sniffedHeader : bool)
    (rows : list (list Cell)) :
  (if (if _hasCsvHeader s =? AUTO_DETECT then sniffedHeader
       else _hasCsvHeader s >? 0)
   then tl rows else rows) = [] ->
  csv_columns s sniffedHeader rows = [].
Proof.
  intros Hdata. rewrite csv_columns_window. cbv zeta.
  set (hasHeader := if _hasCsvHeader s =? AUTO_DETECT then sniffedHeader
                    else _hasCsvHeader s >? 0) in *.
  assert (Hn : csv_maxColumns rows hasHeader O = O).
  { destruct hasHeader;
      rewrite ?csv_maxColumns_header, csv_maxColumns_widest, Hdata;
      reflexivity. }
  rewrite Hn. reflexivity.
Qed.

(** X18: a table without data rows (empty once the header is
    skipped): with a selected column the load raises [IndexError]; without
    one it raises [ValueError] when [maxRowsToWrite <= 0] (the extremes of
    an empty list) and returns [maxRowsToWrite] times the register value
    256 of 0.0 otherwise. *)
Theorem loadNumbersFromCSV_no_data (s : AWG_AD9106) (sniffedHeader : bool)
    (rows : list (list Cell)) :
  (if (if _hasCsvHeader s =? AUTO_DETECT then sniffedHeader
       else _hasCsvHeader s >? 0)
   then tl rows else rows) = [] ->
  (forall sel, _columnSelected s = Some sel ->
     loadNumbersFromCSV s sniffedHeader rows = inl IndexError) /\
  (_columnSelected s = None -> _maxRowsToWrite s <= 0 ->
   loadNumbersFromCSV s sniffedHeader rows = inl ValueError) /\
  (_columnSelected s = None -> 0 < _maxRowsToWrite s ->
   loadNumbersFromCSV s sniffedHeader rows
   = inr (repeat 256 (Z.to_nat (_maxRowsToWrite s)))).
Proof.
  intros Hdata. unfold loadNumbersFromCSV.
  rewrite (csv_columns_no_data s sniffedHeader rows Hdata).
  unfold finish_load, rbind, _weightedAverageChannels, columnWeights_for.
  cbn [List.length fold_left].
  split; [|split].
  - intros sel ->. destruct (Z.leb_spec (Z.of_nat 0) sel) as [H|H];
      [reflexivity|].
    unfold py_setitem. cbn [repeat List.length].
    replace (sel <? 0) with true by (symmetry; apply Z.ltb_lt; cbn in H; lia).
    replace (0 <=? sel + Z.of_nat 0) with false
      by (symmetry; apply Z.leb_gt; cbn in *; lia).
    reflexivity.
  - intros -> Hw.
    replace (_copyListAndForceLength
               (Some (if (List.length (_columnWeights s) =? 0)%nat
                      then _copyListAndForceLength (Some (_columnWeights s)) 0 1%Q
                      else _columnWeights s)) 0 0%Q)
      with (@nil Q) by reflexivity.
    cbn [fold_left seq wa_outer]. unfold _padRowsToWrite.
    replace (Z.of_nat (List.length (@nil Q)) <? _maxRowsToWrite s) with false
      by (symmetry; apply Z.ltb_ge; cbn; lia).
    reflexivity.
  - intros -> Hw.
    replace (_copyListAndForceLength
               (Some (if (List.length (_columnWeights s) =? 0)%nat
                      then _copyListAndForceLength (Some (_columnWeights s)) 0 1%Q
                      else _columnWeights s)) 0 0%Q)
      with (@nil Q) by reflexivity.
    cbn [fold_left seq wa_outer]. unfold _padRowsToWrite.
    replace (Z.of_nat (List.length (@nil Q)) <? _maxRowsToWrite s) with true
      by (symmetry; apply Z.ltb_lt; cbn; lia).
    cbn [app last List.length]. rewrite Z.sub_0_r.
    destruct (Z.to_nat (_maxRowsToWrite s)) as [|n] eqn:En; [lia|].
    unfold _applyScaling.
    assert (Hmin : py_min (repeat 0%Q (S n)) = inr 0%Q).
    { cbn [repeat py_min]. f_equal. clear. induction n as [|n IH];
        [reflexivity | cbn [repeat fold_left]; exact IH]. }
    assert (Hmax : py_max (repeat 0%Q (S n)) = inr 0%Q).
    { cbn [repeat py_max]. f_equal. clear. induction n as [|n IH];
        [reflexivity | cbn [repeat fold_left]; exact IH]. }
    rewrite Hmin, Hmax. change (Qeq_bool 0 0) with true. cbn [negb andb].
    rewrite normalizedValuesToRegisterValues_map. f_equal.
    assert (Hz : forall l : list Q,
               Forall (fun x => (x == 0)%Q) l ->
               map registerValue_of l = repeat 256 (List.length l)).
    { induction 1 as [|x l Hx _ IH]; [reflexivity|].
      cbn [map List.length repeat]. rewrite IH. f_equal.
      apply (registerValue_of_compat Hx). }
    assert (Hzeros : Forall (fun x => (x == 0)%Q) (repeat 0%Q (S n))).
    { apply Forall_forall. intros x Hx. apply repeat_spec in Hx. subst x.
      reflexivity. }
    assert (Hmul : forall (c : Q) (l : list Q),
               Forall (fun x => (x == 0)%Q) l ->
               Forall (fun x => (x == 0)%Q) (map (fun item => (c * item)%Q) l)).
    { intros c l Hl. apply Forall_map. revert Hl. apply Forall_impl.
      intros x Hx. rewrite Hx. ring. }
    destruct (_doScaleAuto s).
    + rewrite Hz by (apply Hmul, Hmul, Hzeros).
      rewrite !length_map, repeat_length. reflexivity.
    + rewrite Hz by (apply Hmul, Hzeros).
      rewrite !length_map, repeat_length. reflexivity.
Qed.

Lemma loadNumbersFromCSV_no_data_witness :
  loadNumbersFromCSV
    (setLoadParameters None (Some 3) None None None None None None (Some 1)
                       None dry_run_session)
    false [[CellInvalid; CellInvalid]]
  = inr [256; 256; 256].
Proof.
  apply (proj2 (proj2 (@loadNumbersFromCSV_no_data
                         (setLoadParameters None (Some 3) None None None None
                                            None None (Some 1) None
                                            dry_run_session)
                         false [[CellInvalid; CellInvalid]] eq_refl)));
    reflexivity.
Defined.

End CsvLoad.

(** ** The audio extractor on mono sources *)

Section MonoAudio.

Local Open Scope Z_scope.

Lemma wav8_loop_mono (s : AWG_AD9106) (frameBytes : bytes) :
  forall rowCount channel,
  wav8_loop s 1 frameBytes 0 rowCount [channel]
  = inr [channel ++
         map wav8_sample
             (spec_window (_startingRowToRead s) (_maxRowsToRead s)
                          rowCount frameBytes)].
Proof.
  induction frameBytes as [|value rest IH]; intros rowCount channel;
    cbn [wav8_loop spec_window map].
  - rewrite app_nil_r. reflexivity.
  - destruct (rowCount <? _startingRowToRead s); [apply IH|].
    destruct (Z.gtb_spec (rowCount + 1) (_startingRowToRead s + _maxRowsToRead s));
      destruct (Z.geb_spec rowCount (_startingRowToRead s + _maxRowsToRead s));
      try lia.
    + cbn [map]. rewrite app_nil_r. reflexivity.
    + cbn [append_at Nat.eqb Nat.add Nat.modulo map].
      change ((0 + 1) mod 1)%nat with 0%nat.
      rewrite IH, <- app_assoc. reflexivity.
Qed.

Lemma wav8_sample_range (value : ascii) :
  (-(1) <= wav8_sample value <= 1)%Q.
Proof.
  destruct value as [[] [] [] [] [] [] [] []]; vm_compute;
    split; discriminate.
Qed.

(** X19: for an 8-bit source of one channel the audio extractor
    returns one channel, the samples of the bytes of the read window among
    the [4096 + startingRowToRead] frames read, in order; every 8-bit
    sample is a value of [-1, 1]. *)
Theorem wav8_mono_channels (s : AWG_AD9106) (data : bytes) :
  wav_channels s 1 1 data
  = inr [map wav8_sample
             (spec_window (_startingRowToRead s) (_maxRowsToRead s) 0
                          (readframes data 1
                                      (MAX_SRAM_SAMPLES + _startingRowToRead s)))]
  /\
  (forall value, (-(1) <= wav8_sample value <= 1)%Q) /\
  (0 <= _startingRowToRead s ->
   wav_channels s 1 1 data
   = inr [map wav8_sample
              (firstn (Z.to_nat (Z.min (_maxRowsToRead s) MAX_SRAM_SAMPLES))
                      (skipn (Z.to_nat (_startingRowToRead s)) data))]).
Proof.
  assert (H : wav_channels s 1 1 data
              = inr [map wav8_sample
                         (spec_window (_startingRowToRead s) (_maxRowsToRead s) 0
                            (readframes data 1
                               (MAX_SRAM_SAMPLES + _startingRowToRead s)))]).
  { unfold wav_channels. cbn [Nat.eqb Nat.mul repeat].
    rewrite wav8_loop_mono. reflexivity. }
  split; [exact H|]. split; [exact wav8_sample_range|].
  intros Hstart. rewrite H. unfold readframes, MAX_SRAM_SAMPLES.
  replace (4096 + _startingRowToRead s <? 0) with false
    by (symmetry; apply Z.ltb_ge; lia).
  rewrite spec_window_skip by exact Hstart. rewrite Z.sub_0_r, Nat.mul_1_r.
  do 3 f_equal.
  rewrite skipn_firstn_comm, firstn_firstn. f_equal. lia.
Qed.

Lemma wav8_mono_channels_witness :
  wav_channels
    (setLoadParameters (Some 1) None (Some 2) None None None None None None
                       None dry_run_session)
    1 1 (map ascii_of_nat [0; 128; 255; 7]%nat)
  = inr [map wav8_sample (map ascii_of_nat [128; 255]%nat)].
Proof.
  destruct (wav8_mono_channels
              (setLoadParameters (Some 1) None (Some 2) None None None None
                                 None None None dry_run_session)
              (map ascii_of_nat [0; 128; 255; 7]%nat)) as (_ & _ & H).
  rewrite H; [reflexivity | cbn; lia].
Defined.

Lemma all_bytes_complete (c : ascii) : In c all_bytes.
Proof.
  unfold all_bytes. rewrite <- (ascii_nat_embedding c).
  apply in_map, in_seq. pose proof (nat_ascii_bounded c). lia.
Qed.

Lemma sample16_code_all :
  forallb (fun lo =>
             forallb (fun hi => sample16_code lo hi =? signed16 lo hi)
                     all_bytes)
          all_bytes = true.
Proof. vm_compute. reflexivity. Qed.

(** The bit operations of the loop assemble a little-endian two's
    complement value. *)
Lemma sample16_code_signed (lo hi : ascii) :
  sample16_code lo hi = signed16 lo hi.
Proof.
  pose proof (proj1 (forallb_forall _ _) sample16_code_all lo
                    (all_bytes_complete lo)) as H.
  cbv beta in H.
  apply Z.eqb_eq.
  exact (proj1 (forallb_forall _ _) H hi (all_bytes_complete hi)).
Qed.

Lemma wavN_loop_step (s : AWG_AD9106) (sampleBytesWidth numChannels : nat)
    (zeroOffset : Z) (byte : ascii) (rest : bytes) (i : nat)
    (currentValue rowCount : Z) (channels : list (list Q)) :
  wavN_loop s sampleBytesWidth numChannels zeroOffset (byte :: rest) i
            currentValue rowCount channels
  = if ((sampleBytesWidth =? 0) || (numChannels =? 0))%nat
    then inl ZeroDivisionError
    else
      let channel := ((i / sampleBytesWidth) mod numChannels)%nat in
      let byteIndex := (i mod sampleBytesWidth)%nat in
      let isFirstByte := (byteIndex =? 0)%nat in
      let isLastByte := (byteIndex =? sampleBytesWidth - 1)%nat in
      let frameEnds := isLastByte && (channel =? numChannels - 1)%nat in
      if rowCount <? _startingRowToRead s
      then wavN_loop s sampleBytesWidth numChannels zeroOffset rest (S i)
                     currentValue (if frameEnds then rowCount + 1 else rowCount)
                     channels
      else
        let rowCount := if frameEnds then rowCount + 1 else rowCount in
        if rowCount >? _startingRowToRead s + _maxRowsToRead s
        then inr channels
        else if isFirstByte
        then wavN_loop s sampleBytesWidth numChannels zeroOffset rest (S i)
                       (Z.land (byte_value byte) 255) rowCount channels
        else if isLastByte
        then
          let currentValue :=
            Z.lor currentValue
                  (Z.shiftl (Z.land (byte_value byte) 127)
                            (8 * Z.of_nat byteIndex)) in
          let isNegative := negb (Z.land (byte_value byte) 128 =? 0) in
          let currentValue :=
            if isNegative then currentValue - zeroOffset else currentValue in
          match append_at channel (inject_Z currentValue / inject_Z zeroOffset)%Q
                          channels with
          | None => inl IndexError
          | Some channels =>
            wavN_loop s sampleBytesWidth numChannels zeroOffset rest (S i)
                      currentValue rowCount channels
          end
        else wavN_loop s sampleBytesWidth numChannels zeroOffset rest (S i)
                       (Z.lor currentValue
                              (Z.shiftl (byte_value byte)
                                        (8 * Z.of_nat byteIndex)))
                       rowCount channels.
Proof. reflexivity. Qed.

Lemma even_index_next (i : nat) :
  (i mod 2 = 0)%nat -> (S i mod 2 = 1)%nat /\ (S (S i) mod 2 = 0)%nat.
Proof.
  intros H. pose proof (Nat.div_mod_eq i 2) as E. split.
  - symmetry. apply (Nat.mod_unique (S i) 2 (i / 2) 1); lia.
  - symmetry. apply (Nat.mod_unique (S (S i)) 2 (S (i / 2)) 0); lia.
Qed.

(** The multi-byte loop on 16-bit mono frames inside the window. *)
Lemma wavN_loop_mono16 (s : AWG_AD9106) (frames : list (ascii * ascii)) :
  _startingRowToRead s = 0 ->
  forall i currentValue rowCount channel,
  (i mod 2 = 0)%nat ->
  0 <= rowCount ->
  rowCount + Z.of_nat (List.length frames) <= _maxRowsToRead s ->
  wavN_loop s 2 1 32768 (frames16_bytes frames) i currentValue rowCount
            [channel]
  = inr [channel ++
         map (fun frame =>
                (inject_Z (signed16 (fst frame) (snd frame)) / 32768)%Q)
             frames].
Proof.
  intros Hstart.
  induction frames as [|[lo hi] frames IH];
    intros i currentValue rowCount channel Hi Hrc Hmax.
  - cbn. rewrite app_nil_r. reflexivity.
  - destruct (even_index_next i Hi) as [Hi1 Hi2].
    cbn [frames16_bytes flat_map app fst snd].
    fold (frames16_bytes frames).
    cbn [List.length] in Hmax.
    rewrite wavN_loop_step. cbv zeta.
    rewrite Hi, Hstart, Nat.mod_1_r.
    cbn [Nat.eqb orb andb Nat.sub].
    replace (rowCount <? 0) with false by (symmetry; apply Z.ltb_ge; lia).
    replace (rowCount >? 0 + _maxRowsToRead s) with false
      by (symmetry; rewrite Z.gtb_ltb; apply Z.ltb_ge; lia).
    rewrite wavN_loop_step. cbv zeta.
    rewrite Hi1, Hstart, Nat.mod_1_r.
    cbn [Nat.eqb orb andb Nat.sub].
    replace (rowCount <? 0) with false by (symmetry; apply Z.ltb_ge; lia).
    replace (rowCount + 1 >? 0 + _maxRowsToRead s) with false
      by (symmetry; rewrite Z.gtb_ltb; apply Z.ltb_ge; lia).
    cbn [append_at].
    rewrite IH by (try assumption; lia).
    fold (sample16_code lo hi). rewrite sample16_code_signed.
    cbn [map fst snd]. rewrite <- app_assoc. reflexivity.
Qed.

(** X20: for a 16-bit source of one channel of at most 4096
    frames, read from row 0 with a limit of no less than the number of
    frames, the audio extractor returns one channel holding for each frame
    its little-endian two's complement value divided by 32768. *)
Theorem wav16_mono_channels (s : AWG_AD9106) (frames : list (ascii * ascii)) :
  _startingRowToRead s = 0 ->
  (List.length frames <= 4096)%nat ->
  Z.of_nat (List.length frames) <= _maxRowsToRead s ->
  wav_channels s 1 2 (frames16_bytes frames)
  = inr [map (fun frame =>
                (inject_Z (signed16 (fst frame) (snd frame)) / 32768)%Q)
             frames].
Proof.
  intros Hstart Hcap Hmax. unfold wav_channels, readframes.
  rewrite Hstart. cbn [Nat.eqb Nat.mul repeat].
  unfold _loadNumbersFromMultiByteWAV. cbn [Nat.eqb].
  change (Z.shiftl 1 (Z.of_nat 2 * 8 - 1)) with 32768.
  change (MAX_SRAM_SAMPLES + 0 <? 0) with false. cbv iota.
  assert (Hlen : List.length (frames16_bytes frames)
                 = (2 * List.length frames)%nat).
  { clear. induction frames as [|f fs IH]; cbn [frames16_bytes flat_map];
      [reflexivity|].
    fold (frames16_bytes fs). rewrite length_app, IH. cbn. lia. }
  rewrite firstn_all2.
  - rewrite (wavN_loop_mono16 s frames Hstart); [reflexivity| | |]; cbn; lia.
  - rewrite Hlen. change (Z.to_nat (MAX_SRAM_SAMPLES + 0)) with 4096%nat. lia.
Qed.

Lemma wav16_mono_channels_witness :
  wav_channels dry_run_session 1 2
               (frames16_bytes [(ascii_of_nat 255, ascii_of_nat 127);
                                (ascii_of_nat 0, ascii_of_nat 128)])
  = inr [[(32767 # 32768)%Q; (-32768 # 32768)%Q]].
Proof.
  rewrite (@wav16_mono_channels dry_run_session
             [(ascii_of_nat 255, ascii_of_nat 127);
              (ascii_of_nat 0, ascii_of_nat 128)]);
    [reflexivity | reflexivity | cbn; lia | vm_compute; discriminate].
Defined.

End MonoAudio.

(** ** The command-line program *)

Section Program.

Local Open Scope Z_scope.

(** After the conditional acknowledgment nothing is owed. *)
Lemma send_over_if_needed_settles (s : AWG_AD9106) :
  snd (send_over_if_needed s) = inr tt ->
  needsFinalOver (fst (send_over_if_needed s)) = false.
Proof.
  unfold send_over_if_needed, call.
  destruct (needsFinalOver s) eqn:Eflag; [|intros _; exact Eflag].
  destruct (_ser s) as [t|] eqn:Es.
  - rewrite (sendOverWaitForOver_transport s Es).
    destruct (bytes_eqb _ OVER_R); [|discriminate].
    intros _. destruct (_generateWriteLog s); reflexivity.
  - rewrite (sendOverWaitForOver_no_transport s Es).
    intros _. destruct (_generateWriteLog s); reflexivity.
Qed.

Lemma main_bind_last (A : Type) (m : MainM A) (k : A -> MainM unit)
    (P : AWG_AD9106 -> Prop) (s : AWG_AD9106) :
  (forall a s', snd (k a s') = inr tt -> P (fst (k a s'))) ->
  snd (main_bind m k s) = inr tt -> P (fst (main_bind m k s)).
Proof.
  intros Hk. unfold main_bind.
  destruct (m s) as [s' [e|a]]; [discriminate | apply Hk].
Qed.

(** X21: when [_main] ends normally no acknowledgment is owed:
    [needsFinalOver()] of the final device is false, whatever the arguments
    and the files of commands are. *)
Theorem main_settles_acknowledgment (files : bytes -> option bytes)
    (args : Args) :
  snd (_main files args) = inr tt ->
  needsFinalOver (fst (_main files args)) = false.
Proof.
  unfold _main.
  do 4 (apply (@main_bind_last _ _ _ (fun s => needsFinalOver s = false));
        intros ? ?).
  apply send_over_if_needed_settles.
Qed.

Lemma main_settles_acknowledgment_witness :
  snd (_main no_files dry_run_args) = inr tt /\
  needsFinalOver (fst (_main no_files dry_run_args)) = false.
Proof.
  assert (H : snd (_main no_files dry_run_args) = inr tt)
    by (vm_compute; reflexivity).
  split; [exact H | apply (main_settles_acknowledgment _ _ H)].
Defined.

(** A load never returns an empty list: the scaling stage raises
    [ValueError] on one. *)
Lemma finish_load_nonempty (s : AWG_AD9106) (channels : list (list Q))
    (ranges : list ChannelRange) (out : list Z) :
  finish_load s channels ranges = inr out -> out <> [].
Proof.
  unfold finish_load, rbind.
  destruct (_weightedAverageChannels s channels ranges) as [e|combined];
    [discriminate|].
  destruct (_applyScaling s (_padRowsToWrite s combined)) as [e|scaled] eqn:Es;
    [discriminate|].
  intros [= <-] Hnil.
  rewrite normalizedValuesToRegisterValues_map in Hnil.
  apply map_eq_nil in Hnil. subst scaled.
  destruct (_padRowsToWrite s combined) as [|x r].
  - discriminate.
  - apply applyScaling_length in Es. discriminate.
Qed.

(** Writing data-load frames: everything is sent and logged, and the
    acknowledgment becomes owed. *)
Lemma write_frames_effect (frames : list bytes) (s : AWG_AD9106) :
  Forall z_frame frames ->
  frames <> [] ->
  snd (write frames s) = inr tt /\
  _needsFinalOver (fst (write frames s)) = true /\
  _writeLog (fst (write frames s))
  = _writeLog s ++ (if _generateWriteLog s then List.concat frames else []) /\
  _generateWriteLog (fst (write frames s)) = _generateWriteLog s /\
  (_ser s = None -> _ser (fst (write frames s)) = None).
Proof.
  intros Hz Hne.
  pose proof (z_frames_convert Hz) as Hconv.
  unfold write. rewrite Hconv.
  pose proof (write_loop_frames_ok Hz s) as Hok.
  destruct (write_loop_effect frames s) as (sent & Hl & Hg & _ & Hs & Heff).
  cbv zeta in *. destruct (Heff Hok) as [-> Hflag].
  repeat split; try assumption.
  - rewrite Hflag, (fold_ack_frames Hz). destruct frames; congruence.
  - intros Hn. rewrite Hn in Hs.
    destruct (_ser (fst (write_loop frames s))); [contradiction | reflexivity].
Qed.

(** X22: a dry run of [_main] (no port) without pre- and
    post-commands on a table that loads ends normally, and the write log,
    which is what the out-file receives, is the frames of the loaded values
    followed by one acknowledgment request; the frames read back as the
    loaded values; without an out-file the log stays empty. *)
Theorem main_dry_run_csv (files : bytes -> option bytes) (args : Args)
    (sniffedHeader : bool) (rows : list (list Cell)) (values : list Z) :
  port args = None ->
  pre_cmd args = [] ->
  post_cmd args = [] ->
  source args = CsvSource sniffedHeader rows ->
  loadNumbersFromCSV (main_device args) sniffedHeader rows = inr values ->
  exists frames,
    convertNumbersToZCommands (main_device args) values = inr frames /\
    decodeZCommands 0 frames = Some values /\
    snd (_main files args) = inr tt /\
    getWriteLog (fst (_main files args))
    = if out_file args then List.concat frames ++ OVER_W else [].
Proof.
  intros Hport Hpre Hpost Hsrc Hload.
  set (s := main_device args) in *.
  assert (Hreach : reachable s) by (apply reach_setLoadParameters, reach_init).
  destruct (csv_load_registers sniffedHeader rows Hreach Hload)
    as (Hrange & Hfit & _).
  destruct (registers_encode s Hrange Hfit) as (frames & Henc & Hdec).
  exists frames. split; [exact Henc|]. split; [exact Hdec|].
  assert (Hvalues : values <> [])
    by (apply (finish_load_nonempty _ _ _ Hload)).
  destruct (convertNumbers_z_frames _ _ Henc) as (Hz & Hframes).
  specialize (Hframes Hvalues).
  assert (Hs_ser : _ser s = None) by exact Hport.
  assert (Hs_flag : needsFinalOver s = false) by reflexivity.
  assert (Hs_log : _writeLog s = []) by reflexivity.
  assert (Hs_gen : _generateWriteLog s = out_file args) by reflexivity.
  destruct (write_frames_effect s Hz Hframes)
    as (Hok & Hflag & Hlog & Hgen & Hser).
  specialize (Hser Hs_ser).
  destruct (write frames s) as [s1 r1] eqn:Ew. cbn [fst snd] in *. subst r1.
  assert (Hmain :
    _main files args
    = (if _generateWriteLog s1
       then set_writeLog (_writeLog s1 ++ OVER_W) (set_needsFinalOver false s1)
       else set_needsFinalOver false s1, inr tt)).
  { unfold _main. fold s. rewrite Hpre, Hpost, Hsrc.
    unfold main_load. cbn [_execute_commands_list].
    repeat (unfold main_bind, call_pure, call, send_over_if_needed;
            cbv beta iota).
    rewrite Hs_flag. cbv beta iota.
    rewrite Hload. cbv beta iota.
    rewrite Henc. cbv beta iota.
    rewrite Ew. cbv beta iota.
    unfold needsFinalOver. rewrite Hflag.
    rewrite (sendOverWaitForOver_no_transport s1 Hser). cbv beta iota.
    destruct (_generateWriteLog s1); reflexivity. }
  rewrite Hmain. cbn [fst snd]. split; [reflexivity|].
  unfold getWriteLog. rewrite Hgen, Hs_gen.
  destruct (out_file args); cbn [_writeLog set_writeLog set_needsFinalOver];
    rewrite Hlog, Hs_log, Hs_gen; reflexivity.
Qed.

Lemma main_dry_run_csv_witness :
  exists frames,
    decodeZCommands 0 frames = Some [511; 256]%Z /\
    getWriteLog (fst (_main no_files dry_run_args))
    = List.concat frames ++ OVER_W.
Proof.
  destruct (@main_dry_run_csv no_files dry_run_args false
              [[CellNumber 1]; [CellNumber 0]] [511; 256]%Z)
    as (frames & _ & Hdec & _ & Hlog); try reflexivity.
  exists frames. split; [exact Hdec | exact Hlog].
Defined.

Lemma write_dry_run_effect (lines : list bytes) (s : AWG_AD9106) :
  _ser s = None -> _printWriteLog s = false ->
  snd (write lines s) = inr tt /\
  _ser (fst (write lines s)) = None /\
  _printWriteLog (fst (write lines s)) = false /\
  _generateWriteLog (fst (write lines s)) = _generateWriteLog s /\
  _writeLog (fst (write lines s))
  = _writeLog s ++ (if _generateWriteLog s
                    then List.concat (_convertCommandsToListOfBytes lines)
                    else []) /\
  _needsFinalOver (fst (write lines s))
  = fold_left ack_step (_convertCommandsToListOfBytes lines)
              (_needsFinalOver s).
Proof.
  intros Hser Hprint. unfold write.
  destruct (write_loop_no_transport (_convertCommandsToListOfBytes lines) s Hser)
    as (Hs' & _ & _ & Hok).
  cbv zeta in *. specialize (Hok Hprint).
  destruct (write_loop_effect (_convertCommandsToListOfBytes lines) s)
    as (sent & Hl & Hg & Hp & _ & Heff).
  cbv zeta in *. destruct (Heff Hok) as [-> Hflag].
  repeat split; try assumption. congruence.
Qed.

(** X23: without a transport and without the console echo,
    [_execute_commands_list] hands to [write], in order, every command
    that is not empty, or the content of the file it names after [@]; it
    returns with the write log extended by their converted commands and
    the flag taken through them, unless a file cannot be opened, which
    ends it with [FileNotFoundError]. *)
Theorem execute_commands_dry_run (files : bytes -> option bytes)
    (commands : list bytes) :
  forall s,
  _ser s = None -> _printWriteLog s = false ->
  let r := _execute_commands_list files commands s in
  match commands_to_write files commands with
  | Some items =>
    snd r = inr tt /\
    getWriteLog (fst r)
    = getWriteLog s ++ (if _generateWriteLog s
                        then List.concat (_convertCommandsToListOfBytes items)
                        else []) /\
    needsFinalOver (fst r)
    = fold_left ack_step (_convertCommandsToListOfBytes items)
                (needsFinalOver s)
  | None => snd r = inl FileNotFoundError
  end.
Proof.
  unfold getWriteLog, needsFinalOver.
  induction commands as [|command rest IH]; intros s Hser Hprint; cbv zeta.
  - cbn. destruct (_generateWriteLog s); rewrite app_nil_r; auto.
  - destruct command as [|c0 filename].
    + cbn [_execute_commands_list commands_to_write]. apply IH; assumption.
    + cbn [_execute_commands_list commands_to_write].
      assert (Hstep : forall item,
                 let r := main_bind (call (write [item]))
                            (fun _ => _execute_commands_list files rest) s in
                 match commands_to_write files rest with
                 | Some items =>
                   snd r = inr tt /\
                   _writeLog (fst r)
                   = _writeLog s ++
                     (if _generateWriteLog s
                      then List.concat
                             (_convertCommandsToListOfBytes (item :: items))
                      else []) /\
                   _needsFinalOver (fst r)
                   = fold_left ack_step
                               (_convertCommandsToListOfBytes (item :: items))
                               (_needsFinalOver s)
                 | None => snd r = inl FileNotFoundError
                 end).
      { intros item. cbv zeta. unfold main_bind, call.
        destruct (write_dry_run_effect [item] s Hser Hprint)
          as (Hok & Hs1 & Hp1 & Hg1 & Hl1 & Hf1).
        destruct (write [item] s) as [s1 r1]. cbn [fst snd] in *. subst r1.
        specialize (IH s1 Hs1 Hp1). cbv zeta in IH.
        destruct (commands_to_write files rest) as [items|]; [|exact IH].
        destruct IH as (Hok2 & Hl2 & Hf2).
        change (item :: items) with ([item] ++ items).
        rewrite convert_app, concat_app, fold_left_app.
        split; [exact Hok2|]. split.
        - rewrite Hl2, Hl1, Hg1. destruct (_generateWriteLog s);
            rewrite ?app_nil_r, ?app_assoc; reflexivity.
        - rewrite Hf2, Hf1. reflexivity. }
      destruct (negb (Ascii.eqb c0 "@")).
      * specialize (Hstep (c0 :: filename)). cbv zeta in Hstep.
        destruct (commands_to_write files rest); exact Hstep.
      * destruct (files filename) as [content|].
        -- specialize (Hstep content). cbv zeta in Hstep.
           destruct (commands_to_write files rest); exact Hstep.
        -- reflexivity.
Qed.

Lemma execute_commands_dry_run_witness :
  getWriteLog
    (fst (_execute_commands_list no_files [b "Z00256"; []; b "OVER"]
                                 dry_run_session))
  = b "Z00256" ++ EOL ++ b "OVER" ++ EOL /\
  snd (_execute_commands_list no_files [b "@missing"] dry_run_session)
  = inl FileNotFoundError.
Proof.
  split.
  - destruct (@execute_commands_dry_run no_files [b "Z00256"; []; b "OVER"]
                dry_run_session eq_refl eq_refl) as (_ & H & _).
    rewrite H. reflexivity.
  - apply (@execute_commands_dry_run no_files [b "@missing"]
             dry_run_session eq_refl eq_refl).
Defined.

End Program.

(** ** The table of column ranges *)

Section ColumnRanges.

Local Open Scope Z_scope.

Lemma nth_error_list_set (A : Type) (l : list A) (v : A) :
  forall k i, (k < List.length l)%nat ->
  nth_error (list_set l k v) i
  = if (i =? k)%nat then Some v else nth_error l i.
Proof.
  induction l as [|x l IH]; intros k i Hk; [cbn in Hk; lia|].
  destruct k as [|k], i as [|i]; cbn; try reflexivity.
  apply IH. cbn in Hk. lia.
Qed.

Lemma py_int_nonneg (x : Q) : (0 <= x)%Q -> 0 <= py_int x.
Proof.
  intros H. unfold py_int. apply Z.quot_pos; [|lia].
  unfold Qle in H. cbn in H. lia.
Qed.

Lemma py_setitem_in_range (A : Type) (l : list A) (idx : Z) (v : A) :
  0 <= idx < Z.of_nat (List.length l) ->
  py_setitem l idx v = Some (list_set l (Z.to_nat idx) v).
Proof.
  intros [Hlo Hhi]. unfold py_setitem.
  replace (idx <? 0) with false by (symmetry; apply Z.ltb_ge; lia).
  replace ((0 <=? idx) && (idx <? Z.of_nat (List.length l))) with true
    by (symmetry; apply andb_true_iff; split;
        [apply Z.leb_le | apply Z.ltb_lt]; lia).
  reflexivity.
Qed.

(** The assignments of the second loop, slot by slot. *)
Lemma column_range_assign_slots (entries : list (Q * Q * Q)) :
  forall table,
  (forall index low high,
     In (index, low, high) entries ->
     0 <= py_int index < Z.of_nat (List.length table)) ->
  exists table',
    column_range_assign table entries = Some table' /\
    List.length table' = List.length table /\
    forall i,
      nth_error table' i
      = fold_left (fun slot entry =>
                     let '(index, low, high) := entry in
                     if py_int index =? Z.of_nat i
                     then match slot with
                          | Some _ => Some (Some [low; high])
                          | None => None
                          end
                     else slot)
                  entries (nth_error table i).
Proof.
  unfold column_range_assign.
  induction entries as [|[[index low] high] entries IH]; intros table Hin.
  - exists table. repeat split.
  - destruct (Hin index low high (or_introl eq_refl)) as [Hlo Hhi].
    cbn [fold_left]. cbv beta iota zeta.
    rewrite (@py_setitem_in_range (option (list Q)) table (py_int index)
               (Some [low; high]) (conj Hlo Hhi)).
    destruct (IH (list_set table (Z.to_nat (py_int index)) (Some [low; high])))
      as (table' & Hassign & Hlen & Hslots).
    + intros index' low' high' H'. rewrite list_set_length.
      apply (Hin index' low' high'). right. exact H'.
    + exists table'. split; [exact Hassign|].
      split; [rewrite Hlen; apply list_set_length|].
      intros i. rewrite Hslots. f_equal.
      rewrite nth_error_list_set by lia.
      destruct (Nat.eqb_spec i (Z.to_nat (py_int index))) as [->|Hne].
      * rewrite Z2Nat.id, Z.eqb_refl by lia.
        destruct (nth_error table (Z.to_nat (py_int index))) eqn:E;
          [reflexivity|].
        apply nth_error_None in E. lia.
      * replace (py_int index =? Z.of_nat i) with false
          by (symmetry; apply Z.eqb_neq; lia).
        reflexivity.
Qed.

Lemma max_index_bounds (entries : list (Q * Q * Q)) :
  forall m,
  m <= fold_left (fun max_index entry =>
                    let '(index, _, _) := entry in
                    Z.max (py_int index) max_index)
                 entries m /\
  forall index low high,
    In (index, low, high) entries ->
    py_int index
    <= fold_left (fun max_index entry =>
                    let '(index, _, _) := entry in
                    Z.max (py_int index) max_index)
                 entries m.
Proof.
  induction entries as [|[[index low] high] entries IH]; intros m.
  - split; [cbn; lia | intros ? ? ? []].
  - cbn [fold_left]. destruct (IH (Z.max (py_int index) m)) as [H1 H2].
    split; [lia|].
    intros index' low' high' [[= <- <- <-]|H']; [lia | eapply H2, H'].
Qed.

Lemma last_range_slot (entries : list (Q * Q * Q)) (i : nat) :
  forall found,
  fold_left (fun slot entry =>
               let '(index, low, high) := entry in
               if py_int index =? Z.of_nat i
               then match slot with
                    | Some _ => Some (Some [low; high])
                    | None => None
                    end
               else slot)
            entries (Some found)
  = Some (fold_left (fun found entry =>
                       let '(index, low, high) := entry in
                       if py_int index =? Z.of_nat i
                       then Some [low; high] else found)
                    entries found).
Proof.
  induction entries as [|[[index low] high] entries IH]; intros found;
    [reflexivity|].
  cbn [fold_left]. destruct (py_int index =? Z.of_nat i); apply IH.
Qed.

(** X24: the conversion of [--column-range] exits with status 1
    when an entry has a negative column number; otherwise it returns a
    table with a slot for every column number given, truncated toward
    zero, each slot holding the range of the last entry naming the column
    and [None] when no entry names it. *)
Theorem column_range_table_lookup (entries : list (Q * Q * Q)) :
  ((exists index low high,
      In (index, low, high) entries /\ (index < 0)%Q) ->
   column_range_table entries = inl (SystemExit 1)) /\
  ((forall index low high, In (index, low, high) entries -> (0 <= index)%Q) ->
   exists table,
     column_range_table entries = inr table /\
     (forall index low high,
        In (index, low, high) entries ->
        0 <= py_int index < Z.of_nat (List.length table)) /\
     (forall i, (i < List.length table)%nat ->
        nth_error table i = Some (last_range_for (Z.of_nat i) entries))).
Proof.
  split.
  - intros (index & low & high & Hin & Hneg). unfold column_range_table.
    destruct entries as [|e entries]; [destruct Hin|].
    replace (existsb _ (e :: entries)) with true; [reflexivity|].
    symmetry. apply existsb_exists. exists (index, low, high).
    split; [exact Hin|]. destruct (Qlt_le_dec index 0); [reflexivity | lra].
  - intros Hall. unfold column_range_table.
    destruct entries as [|e entries].
    + exists []. split; [reflexivity|].
      split; [intros ? ? ? [] | intros i Hi; cbn in Hi; lia].
    + set (all := e :: entries) in *.
      replace (existsb _ all) with false.
      2:{ symmetry. apply not_true_iff_false. intros H.
          apply existsb_exists in H. destruct H as ([[index low] high] & Hin & H).
          specialize (Hall index low high Hin).
          destruct (Qlt_le_dec index 0); [lra | discriminate]. }
      set (max_index := fold_left _ all (-1)).
      destruct (max_index_bounds all (-1)) as [Hm Hmax]. fold max_index in Hm, Hmax.
      assert (Hin : forall index low high,
                 In (index, low, high) all ->
                 0 <= py_int index
                 < Z.of_nat (List.length
                               (repeat (@None (list Q))
                                       (Z.to_nat (max_index + 1))))).
      { intros index low high H. rewrite repeat_length.
        pose proof (py_int_nonneg (Hall index low high H)).
        specialize (Hmax index low high H). lia. }
      destruct (column_range_assign_slots all _ Hin)
        as (table & Hassign & Hlen & Hslots).
      rewrite Hassign. exists table. split; [reflexivity|]. split.
      * intros index low high H. rewrite Hlen. apply (Hin index low high H).
      * intros i Hi. rewrite Hslots.
        rewrite Hlen, repeat_length in Hi.
        rewrite nth_error_repeat by exact Hi.
        apply last_range_slot.
Qed.

Lemma column_range_table_lookup_witness :
  column_range_table [(3, -(4), 10); (-(1), 0, 1)]%Q = inl (SystemExit 1) /\
  exists table,
    column_range_table [(2, 0, 5); (0, -(4), 10); (2, 1, 2)]%Q = inr table /\
    nth_error table 2 = Some (Some [1; 2]%Q) /\
    nth_error table 1 = Some None.
Proof.
  split.
  - apply (proj1 (column_range_table_lookup [(3, -(4), 10); (-(1), 0, 1)]%Q)).
    exists (-(1))%Q, 0%Q, 1%Q. split; [right; left; reflexivity | reflexivity].
  - destruct (proj2 (column_range_table_lookup
                       [(2, 0, 5); (0, -(4), 10); (2, 1, 2)]%Q))
      as (table & Ht & Hidx & Hlook).
    + intros index low high [[= <- <- <-]|[[= <- <- <-]|[[= <- <- <-]|[]]]];
        discriminate.
    + exists table. split; [exact Ht|].
      assert (Hlen : (2 < List.length table)%nat).
      { destruct (Hidx 2%Q 0%Q 5%Q (or_introl eq_refl)) as [_ H].
        change (py_int 2) with 2 in H. lia. }
      split; [rewrite (Hlook 2%nat Hlen) | rewrite (Hlook 1%nat ltac:(lia))];
        reflexivity.
Defined.

End ColumnRanges.
